(** * pyprf_feature: creation of the pRF model bank and reconstruction of
      fitted time courses

    Shallow embedding of
      - [pyprf_feature/analysis/save_fit_tc_nii.py]   ([save_tc_to_nii])
      - [pyprf_feature/analysis/model_creation_main.py] ([model_creation])
      - [pyprf_feature/analysis/pyprf_opt_ep.py]      ([get_arg_parse], [main])

    Numbers.  numpy computes in binary floating point; here every array
    entry is a rational ([Q]), the value of the floating-point number.
    The reconstruction is given twice.  In the first version the
    closeness test [np.isclose] and the product [np.dot] are computed in
    exact arithmetic; what is proved of it is about the structure of the
    run (which row, which exception, which counters) and does not depend
    on rounding.  In the second version ([save_tc_to_nii_fp]) the test
    and the product are parameters, so that what is proved holds for
    numpy's floating-point operations whatever their format; the first
    version is its instance with the exact operations
    ([save_tc_to_nii_exact]).  Rounding to nearest, ties to even, is
    defined on the rationals ([round_nearest_even]), and with it the
    closeness test as numpy computes it in single and in double
    precision ([row_isclose_float32], [row_isclose_float64]); statements
    about thresholds are proved for every rounding with a relative error
    of at most a thousandth ([rounding_ok]), which these two are.
    Counters that only ever hold small whole numbers ([vecVxlTst],
    shapes, indices) are [nat].

    Arrays.  A two- or three-dimensional array that the code indexes row
    by row is a nested list; an array that is only stored, loaded, rotated
    or inspected through [.shape] is an [ndarray] (shape and C-ordered
    data). *)

From Stdlib Require Import Ascii String.
From Stdlib Require Import List Arith ZArith QArith Qabs Qround Qpower Bool
  Lia Lqa.
Import ListNotations.

Close Scope Q_scope.
Open Scope nat_scope.

(* ================================================================== *)
(** ** Exceptions and a state-and-exception monad *)

Inductive exn : Type :=
| IndexError
| AssertionError
| ValueError
| IOError
| ConfigError
| SystemExit.

Section StateExn.
Context {S : Type}.

(** A computation reads a state and gives back either the exception it
    raised or its value, together with the state at that moment: what
    was printed or stored before an exception is not undone. *)
Definition M (A : Type) : Type := S -> (exn + A) * S.

Definition ret {A} (a : A) : M A := fun s => (inr a, s).

Definition raise {A} (e : exn) : M A := fun s => (inl e, s).

Definition bind {A B} (m : M A) (k : A -> M B) : M B :=
  fun s => match m s with
           | (inl e, s') => (inl e, s')
           | (inr a, s') => k a s'
           end.

Definition lift {A} (r : exn + A) : M A := fun s => (r, s).

Definition modify (f : S -> S) : M unit := fun s => (inr tt, f s).

Definition gets {A} (f : S -> A) : M A := fun s => (inr (f s), s).

Definition when (b : bool) (m : M unit) : M unit :=
  if b then m else ret tt.

(** [for indRow, x in enumerate(xs)], counting from [i]. *)
Fixpoint for_enumerate {A} (body : nat -> A -> M unit) (i : nat)
         (xs : list A) : M unit :=
  match xs with
  | [] => ret tt
  | x :: xs' =>
      bind (body i x) (fun _ => for_enumerate body (Datatypes.S i) xs')
  end.
End StateExn.

(** A state that records what [print] wrote, oldest line first. *)
Class Console (S : Type) : Type := {
  printed : S -> list string;
  set_printed : list string -> S -> S
}.

Definition print {S} `{Console S} (msg : string) : M (S:=S) unit :=
  modify (fun s => set_printed (printed s ++ [msg]) s).

Declare Scope monad_scope.
Delimit Scope monad_scope with monad.
Notation "x <- m ;; k" := (bind m (fun x => k))
  (at level 100, m at next level, right associativity) : monad_scope.
Notation "m ;;; k" := (bind m (fun _ => k))
  (at level 100, right associativity) : monad_scope.

(* ================================================================== *)
(** ** numpy operations used by the reconstruction *)

(** One row of an [(n, 3)] parameter array: [x position, y position,
    sigma]. *)
Definition prm : Type := (Q * Q * Q)%type.

(** [np.isclose(a, b, rtol, atol)] is [abs(a - b) <= atol + rtol * abs(b)];
    the second argument is the reference value.  This is the comparison
    in exact arithmetic: numpy rounds the difference, the product and the
    sum, and its [atol] and [rtol] are the floating-point numbers nearest
    to the decimal ones, so the two can disagree when [abs(a - b)] lies
    within rounding error of the threshold. *)
Definition np_isclose (a b rtol atol : Q) : bool :=
  Qle_bool (Qabs (a - b)) (atol + rtol * Qabs b)%Q.

(** numpy's default relative tolerance, used when only [atol] is passed. *)
Definition rtol_default : Q := (1 # 100000)%Q.

(** [np.isclose(aryMdlParams, vecPrm, atol=atol).all(axis=1)] for one row
    of [aryMdlParams]. *)
Definition row_isclose (atol : Q) (g p : prm) : bool :=
  let '(gx, gy, gs) := g in
  let '(px, py, ps) := p in
  np_isclose gx px rtol_default atol
  && np_isclose gy py rtol_default atol
  && np_isclose gs ps rtol_default atol.

(** [np.where(lgc)[0]]: the positions at which a boolean vector is true,
    in increasing order. *)
Fixpoint np_where_from (i : nat) (lgc : list bool) : list nat :=
  match lgc with
  | [] => []
  | b :: lgc' =>
      if b then i :: np_where_from (S i) lgc' else np_where_from (S i) lgc'
  end.

Definition np_where (lgc : list bool) : list nat := np_where_from 0 lgc.

(** A Python object as far as [lgcMdl] is concerned: [None] or an
    index. *)
Inductive pyobj : Type :=
| PyNone
| PyInt (n : nat).

Definition is_None (o : pyobj) : bool :=
  match o with PyNone => true | PyInt _ => false end.

(** [vec[0]] on an index vector: raises [IndexError] when it is empty. *)
Definition item0 (vec : list nat) : exn + pyobj :=
  match vec with
  | [] => inl IndexError
  | i :: _ => inr (PyInt i)
  end.

(** [ary[lgc]]: the rows of [ary] selected by a boolean mask. *)
Fixpoint mask_select {A} (lgc : list bool) (ary : list A) : list A :=
  match lgc, ary with
  | b :: lgc', x :: ary' =>
      if b then x :: mask_select lgc' ary' else mask_select lgc' ary'
  | _, _ => []
  end.

(** [ary[lgc] = vals]: the selected rows are replaced, in order. *)
Fixpoint mask_assign {A} (lgc : list bool) (ary vals : list A) : list A :=
  match lgc, ary with
  | b :: lgc', x :: ary' =>
      if b then
        match vals with
        | v :: vals' => v :: mask_assign lgc' ary' vals'
        | [] => x :: mask_assign lgc' ary' []
        end
      else x :: mask_assign lgc' ary' vals
  | _, _ => ary
  end.

(** [vec[lgc] += 1]. *)
Fixpoint mask_incr (lgc : list bool) (vec : list nat) : list nat :=
  match lgc, vec with
  | b :: lgc', c :: vec' =>
      (if b then S c else c) :: mask_incr lgc' vec'
  | _, _ => vec
  end.

(** A boolean mask must be as long as the axis it indexes. *)
Definition check_mask {A} (lgc : list bool) (ary : list A) : exn + unit :=
  if length lgc =? length ary then inr tt else inl IndexError.

Definition dotp (u v : list Q) : Q :=
  fold_right Qplus 0%Q (map (fun ab => (fst ab * snd ab)%Q) (combine u v)).

Definition column (t : nat) (mat : list (list Q)) : list Q :=
  map (fun r => nth t r 0%Q) mat.

Definition ncols {A} (mat : list (list A)) : nat :=
  match mat with
  | [] => 0
  | r :: _ => length r
  end.

(** One row of a matrix product: [w . mat], summed over the rows of
    [mat] (the kernel dimension). *)
Definition vec_mat (w : list Q) (mat : list (list Q)) : list Q :=
  map (fun t => dotp w (column t mat)) (seq 0 (ncols mat)).

(** [np.dot(a, b)] for two matrices; the inner dimensions must agree.
    A nested list with no row has no column count, so with no row in [a]
    nothing is compared, where numpy still compares the column count of
    the empty array. *)
Definition np_dot (a b : list (list Q)) : exn + list (list Q) :=
  if forallb (fun w => length w =? length b) a
  then inr (map (fun w => vec_mat w b) a)
  else inl ValueError.

(** [ary.shape[-1]] of a three-dimensional array given as nested lists. *)
Definition shape_last3 (ary : list (list (list Q))) : nat :=
  match ary with
  | [] => 0
  | mat :: _ => ncols mat
  end.

(* ================================================================== *)
(** ** [save_tc_to_nii]: reconstruction of the fitted time courses *)

Record rec_state : Type := mkRecState {
  vecVxlTst : list nat;          (* visit counter, one entry per voxel *)
  aryFitTc : list (list Q);      (* fitted time courses, one row per voxel *)
  stdout : list string           (* what was printed, oldest first *)
}.

#[export] Instance rec_state_console : Console rec_state := {
  printed := stdout;
  set_printed := fun out s => mkRecState (vecVxlTst s) (aryFitTc s) out
}.

Definition set_vecVxlTst (vec : list nat) : M (S:=rec_state) unit :=
  modify (fun s => mkRecState vec (aryFitTc s) (stdout s)).

Definition set_aryFitTc (ary : list (list Q)) : M (S:=rec_state) unit :=
  modify (fun s => mkRecState (vecVxlTst s) ary (stdout s)).

Section Reconstruction.
Open Scope monad_scope.

(** [fnd_unq_rws] is imported from [model_creation_utils] and is a
    parameter here.  Called with [return_index=False, return_inverse=True]
    it returns the distinct rows and, for every input row, an index into
    them. *)
Variable fnd_unq_rws : list prm -> list prm * list nat.

Variable aryBetas : list (list Q).          (* [voxel, regressor] *)
Variable aryMdlParams : list prm.           (* the parameter grid *)
Variable aryPrfTc : list (list (list Q)).   (* [model, regressor, volume] *)

(** Lines 98-99: the grid row of a winning parameter triple. *)
Definition find_model (vecPrm : prm) : exn + pyobj :=
  item0 (np_where (map (fun g => row_isclose (1 # 10000)%Q g vecPrm)
                       aryMdlParams)).

(** [aryPrfTc[lgcMdl, :, :]]. *)
Definition get_model_tc (lgcMdl : pyobj) : exn + list (list Q) :=
  match lgcMdl with
  | PyInt i =>
      match nth_error aryPrfTc i with
      | Some mat => inr mat
      | None => inl IndexError
      end
  | PyNone =>
      (* indexing with [None] inserts an axis, and the product below then
         no longer fits the rows it is assigned to; the lookup never
         gives [None], so this case is not reached *)
      inl ValueError
  end.

(** Lines 92-110: the body of the loop over the distinct rows. *)
Definition loop_body (aryUnqInd : list nat) (indRow : nat) (vecPrm : prm)
  : M (S:=rec_state) unit :=
  let lgcVxl := map (fun u => u =? indRow) aryUnqInd in
  when (forallb negb lgcVxl) (print "---No voxel found") ;;;
  lgcMdl <- lift (find_model vecPrm) ;;
  when (is_None lgcMdl) (print "---No model found") ;;;
  vec <- gets vecVxlTst ;;
  lift (check_mask lgcVxl vec) ;;;
  set_vecVxlTst (mask_incr lgcVxl vec) ;;;
  aryMdlTc <- lift (get_model_tc lgcMdl) ;;
  lift (check_mask lgcVxl aryBetas) ;;;
  let aryWeights := mask_select lgcVxl aryBetas in
  aryNew <- lift (np_dot aryWeights aryMdlTc) ;;
  fit <- gets aryFitTc ;;
  lift (check_mask lgcVxl fit) ;;;
  set_aryFitTc (mask_assign lgcVxl fit aryNew).

(** Lines 80-84: the arrays the loop fills in.  [aryFitTc] is created
    with [dtype=np.float32]; the zeros are the same in every format, and
    what the loop stores later is rounded to it only in the second
    version ([loop_body_fp]). *)
Definition init_state (numVxl : nat) : rec_state :=
  mkRecState (repeat 0 numVxl)
             (repeat (repeat 0%Q (shape_last3 aryPrfTc)) numVxl)
             [].

(** Lines 86-110. *)
Definition reconstruct_loop (aryIntGssPrm : list prm)
  : M (S:=rec_state) unit :=
  let '(aryUnqRows, aryUnqInd) := fnd_unq_rws aryIntGssPrm in
  for_enumerate (loop_body aryUnqInd) 0 aryUnqRows.

(** Line 114: [assert len(vecVxlTst) == np.sum(vecVxlTst)]. *)
Definition check_visited : M (S:=rec_state) unit :=
  vec <- gets vecVxlTst ;;
  if length vec =? list_sum vec then ret tt else raise AssertionError.

(** Lines 77-114 of [save_tc_to_nii].  The arguments are the arrays the
    function has loaded and masked before (lines 20-75): the winning
    parameters [aryIntGssPrm], and through the section [aryBetas],
    [aryMdlParams] and the preprocessed [aryPrfTc].  The value is
    [aryFitTc], which the function exports afterwards. *)
Definition save_tc_to_nii_from (aryIntGssPrm : list prm)
  : M (S:=rec_state) (list (list Q)) :=
  reconstruct_loop aryIntGssPrm ;;;
  check_visited ;;;
  gets aryFitTc.

Definition save_tc_to_nii (aryIntGssPrm : list prm)
  : (exn + list (list Q)) * rec_state :=
  save_tc_to_nii_from aryIntGssPrm (init_state (length aryIntGssPrm)).

(** The state in which the loop leaves the arrays, when it ends. *)
Definition run_loop (aryIntGssPrm : list prm) : (exn + unit) * rec_state :=
  reconstruct_loop aryIntGssPrm (init_state (length aryIntGssPrm)).
End Reconstruction.

(* ================================================================== *)
(** ** [model_creation_utils]: the imported helpers, from their
       description *)

Module ModelCreationUtils.

(** Two parameter rows hold the same numbers. *)
Definition prm_eqb (p q : prm) : bool :=
  let '(px, py, ps) := p in
  let '(qx, qy, qs) := q in
  Qeq_bool px qx && Qeq_bool py qy && Qeq_bool ps qs.

(** Position of the first row equal to [p]; the length of [rows] when
    there is none. *)
Fixpoint index_of (p : prm) (rows : list prm) : nat :=
  match rows with
  | [] => 0
  | r :: rows' => if prm_eqb r p then 0 else S (index_of p rows')
  end.

Fixpoint distinct_rows (ary : list prm) : list prm :=
  match ary with
  | [] => []
  | p :: ary' =>
      p :: filter (fun q => negb (prm_eqb p q)) (distinct_rows ary')
  end.

(** Modelled from the spec: [fnd_unq_rws] of [model_creation_utils] is
    missing from the sources.  The spec (4.5, step 1) has it "compute the
    set of distinct rows (grouping equal rows together)" and, for each
    distinct row, "the index set of voxels sharing it"; the caller asks
    for the inverse index ([return_inverse=True]), the position of every
    input row among the distinct ones.  The spec fixes no order for the
    distinct rows: they are listed here as they first appear. *)
Definition fnd_unq_rws (ary : list prm) : list prm * list nat :=
  let aryUnqRows := distinct_rows ary in
  (aryUnqRows, map (fun p => index_of p aryUnqRows) ary).

(** [n] evenly spaced values from [lo] to [hi], both included, as
    [np.linspace(lo, hi, n)] gives them: the reading taken here of a count
    over an inclusive range. *)
Definition linspace (lo hi : Q) (n : nat) : list Q :=
  map (fun i =>
         if n =? 1 then lo
         else (lo + inject_Z (Z.of_nat i) * (hi - lo)
                      / inject_Z (Z.of_nat (n - 1)))%Q)
      (seq 0 n).

Section Grid.
(** The spec leaves open how a grid point is expressed "in a chosen
    coordinate/unit system": the conversion of one row is a
    parameter. *)
Variable to_unit : Z * Z -> string -> string -> prm -> prm.

(** Modelled from the spec: [crt_mdl_prms] of [model_creation_utils]
    is missing from the sources.  The spec (3 and 4.1) has it take the
    pixel dimensions, "counts and inclusive ranges for the two spatial
    axes, count and inclusive range for size", the unit and the
    coordinate flag, fail with [ConfigError] "if any count is
    non-positive or any range is degenerate (min > max)", and list the
    grid with the "outer loop over x, then y, then sigma". *)
Definition crt_mdl_prms (tplPngSize : Z * Z)
           (varNum1 : Z) (varExtXmin varExtXmax : Q)
           (varNum2 : Z) (varExtYmin varExtYmax : Q)
           (varNumPrfSizes : Z) (varPrfStdMin varPrfStdMax : Q)
           (kwUnt kwCrd : string) : exn + list prm :=
  if ((varNum1 <=? 0) || (varNum2 <=? 0) || (varNumPrfSizes <=? 0))%Z
     || negb (Qle_bool varExtXmin varExtXmax)
     || negb (Qle_bool varExtYmin varExtYmax)
     || negb (Qle_bool varPrfStdMin varPrfStdMax)
  then inl ConfigError
  else
    let vecX := linspace varExtXmin varExtXmax (Z.to_nat varNum1) in
    let vecY := linspace varExtYmin varExtYmax (Z.to_nat varNum2) in
    let vecSd :=
      linspace varPrfStdMin varPrfStdMax (Z.to_nat varNumPrfSizes) in
    inr (flat_map
           (fun x =>
              flat_map
                (fun y =>
                   map (fun sd => to_unit tplPngSize kwUnt kwCrd (x, y, sd))
                       vecSd)
                vecY)
           vecX).
End Grid.

End ModelCreationUtils.

(* ================================================================== *)
(** ** Arrays on disk: [np.save], [np.load], [np.rot90] *)

Record ndarray : Type := mkArr {
  shape : list nat;       (* [ary.shape] *)
  data : list Q           (* the entries in C order *)
}.

(** The [.npy] files on disk, by path. *)
Definition fsys : Type := string -> option ndarray.

Definition no_files : fsys := fun _ => None.

Definition write_file (path : string) (ary : ndarray) (fs : fsys) : fsys :=
  fun p => if String.eqb p path then Some ary else fs p.

(** [s.endswith(suffix)]. *)
Fixpoint endswith (s suffix : string) : bool :=
  if String.eqb s suffix then true
  else match s with
       | EmptyString => false
       | String _ s' => endswith s' suffix
       end.

Record mc_state : Type := mkMcState {
  files : fsys;
  mc_stdout : list string
}.

#[export] Instance mc_state_console : Console mc_state := {
  printed := mc_stdout;
  set_printed := fun out s => mkMcState (files s) out
}.

(** The path [np.save] writes to: "a .npy extension will be appended to
    the filename if it does not already have one". *)
Definition npy_name (file : string) : string :=
  if endswith file ".npy" then file else (file ++ ".npy")%string.

(** [np.save(file, arr)], when the file can be written.  That writing
    can fail (a full disk, a directory that does not exist) is not
    modelled: what is proved of a creation run is about runs in which
    both files are written. *)
Definition np_save (file : string) (arr : ndarray) : M (S:=mc_state) unit :=
  modify (fun s =>
            mkMcState (write_file (npy_name file) arr (files s)) (mc_stdout s)).

(** [np.load(file)] opens the path as it is given. *)
Definition np_load (file : string) : M (S:=mc_state) ndarray :=
  fun s => match files s file with
           | Some arr => (inr arr, s)
           | None => (inl IOError, s)
           end.

(** [n] consecutive pieces of [len] entries each. *)
Fixpoint chunks {A} (n len : nat) (l : list A) : list (list A) :=
  match n with
  | 0 => []
  | S n' => firstn len l :: chunks n' len (skipn len l)
  end.

(** The first two axes of an array of shape [m :: n :: rest] as a grid of
    [m] rows and [n] columns whose cells hold the [c] entries of the
    remaining axes. *)
Definition to_grid (m n c : nat) (dat : list Q) : list (list (list Q)) :=
  map (chunks n c) (chunks m (n * c) dat).

Definition of_grid (g : list (list (list Q))) : list Q :=
  concat (map (@concat Q) g).

Definition column_of {A} (j : nat) (g : list (list A)) : list A :=
  flat_map (fun r => match nth_error r j with
                     | Some x => [x]
                     | None => []
                     end) g.

(** [np.transpose] exchanging the first two axes. *)
Definition transpose {A} (g : list (list A)) : list (list A) :=
  map (fun j => column_of j g) (seq 0 (ncols g)).

(** [np.rot90(m, k)] on the first two axes, as numpy composes it:
    [k %= 4]; [k == 0]: [m]; [k == 2]: [flip(flip(m, 0), 1)];
    [k == 1]: [transpose(flip(m, 1))]; otherwise
    [flip(transpose(m), 1)]. *)
Definition rot90_grid {A} (k : Z) (g : list (list A)) : list (list A) :=
  match (k mod 4)%Z with
  | 0%Z => g
  | 2%Z => map (@rev A) (rev g)
  | 1%Z => transpose (map (@rev A) g)
  | _ => map (@rev A) (transpose g)
  end.

Definition np_rot90 (ary : ndarray) (k : Z) : exn + ndarray :=
  match shape ary with
  | m :: n :: rest =>
      let c := fold_right Nat.mul 1 rest in
      inr (mkArr (if Z.even k then m :: n :: rest else n :: m :: rest)
                 (of_grid (rot90_grid k (to_grid m n c (data ary)))))
  | _ => inl ValueError
  end.

(** An [(n, 3)] parameter array as it is written to disk. *)
Definition prms_array (aryMdlParams : list prm) : ndarray :=
  mkArr [length aryMdlParams; 3]
        (flat_map (fun p => let '(x, y, sd) := p in [x; y; sd]) aryMdlParams).

(** [int(x)] on a number: truncation towards zero. *)
Definition py_int (x : Q) : Z :=
  if Qle_bool 0 x then Qfloor x else Qceiling x.

(** [tpl[0]] and [tpl[-1]] on a shape tuple. *)
Definition tuple_first (tpl : list nat) : exn + nat :=
  match tpl with
  | [] => inl IndexError
  | d :: _ => inr d
  end.

Definition tuple_last (tpl : list nat) : exn + nat :=
  match tpl with
  | [] => inl IndexError
  | d :: tpl' => inr (last tpl' d)
  end.

(* ================================================================== *)
(** ** [model_creation]: create or load the pRF model time courses *)

(** The fields of the configuration namespace [cfg] that [model_creation]
    reads. *)
Record config : Type := mkConfig {
  lgcCrteMdl : bool;
  strSptExpInf : string;
  strTmpExpInf : string;
  strPathMdl : string;
  varVslSpcSzeX : Q;
  varVslSpcSzeY : Q;
  varNum1 : Z;
  varExtXmin : Q;
  varExtXmax : Q;
  varNum2 : Z;
  varExtYmin : Q;
  varExtYmax : Q;
  varNumPrfSizes : Z;
  varPrfStdMin : Q;
  varPrfStdMax : Q;
  strKwCrd : string;
  varNumVol : Z;
  varTr : Q;
  varTmpOvsmpl : Z;
  switchHrfSet : Z;
  varPar : Z
}.

Section ModelCreation.
Open Scope monad_scope.

(** The three helpers of [model_creation_utils] that [model_creation]
    calls are parameters; each may raise. *)
Variable crt_mdl_prms :
  Z * Z -> Z -> Q -> Q -> Z -> Q -> Q -> Z -> Q -> Q -> string -> string ->
  exn + list prm.
Variable crt_mdl_rsp :
  ndarray -> Z * Z -> list prm -> Z -> exn + ndarray.
Variable crt_prf_ftr_tc :
  ndarray -> ndarray -> Z -> Q -> Z -> Z -> Z * Z -> Z -> exn + ndarray.

Definition tplPngSize (cfg : config) : Z * Z :=
  (py_int (varVslSpcSzeX cfg), py_int (varVslSpcSzeY cfg)).

(** Lines 50-127: [cfg.lgcCrteMdl] is true. *)
Definition create_models (cfg : config) : M (S:=mc_state) ndarray :=
  print "------Load spatial condition information" ;;;
  arySptExpInf <- np_load (strSptExpInf cfg) ;;
  arySptExpInf <- lift (np_rot90 arySptExpInf 3) ;;
  print "------Load temporal condition information" ;;;
  aryTmpExpInf <- np_load (strTmpExpInf cfg) ;;
  aryMdlParams <- lift (crt_mdl_prms (tplPngSize cfg) (varNum1 cfg)
                          (varExtXmin cfg) (varExtXmax cfg) (varNum2 cfg)
                          (varExtYmin cfg) (varExtYmax cfg)
                          (varNumPrfSizes cfg) (varPrfStdMin cfg)
                          (varPrfStdMax cfg) "pix" (strKwCrd cfg)) ;;
  print "------Create 2D Gauss model responses to spatial conditions" ;;;
  aryMdlRsp <- lift (crt_mdl_rsp arySptExpInf (tplPngSize cfg) aryMdlParams
                                 (varPar cfg)) ;;
  print "------Create prf time course models" ;;;
  aryPrfTc <- lift (crt_prf_ftr_tc aryMdlRsp aryTmpExpInf (varNumVol cfg)
                                   (varTr cfg) (varTmpOvsmpl cfg)
                                   (switchHrfSet cfg) (tplPngSize cfg)
                                   (varPar cfg)) ;;
  print "------Save pRF time course models to disk" ;;;
  np_save (strPathMdl cfg) aryPrfTc ;;;
  np_save (strPathMdl cfg ++ "_params") (prms_array aryMdlParams) ;;;
  ret aryPrfTc.

(** Lines 129-148: [cfg.lgcCrteMdl] is false.  The [and] of the
    assertion looks at [vecPrfTcShp[-1]] only when the first comparison
    holds. *)
Definition load_models (cfg : config) : M (S:=mc_state) ndarray :=
  print "------Load pRF time course models from disk" ;;;
  aryPrfTc <- np_load (strPathMdl cfg ++ ".npy") ;;
  let vecPrfTcShp := shape aryPrfTc in
  varFirst <- lift (tuple_first vecPrfTcShp) ;;
  if (Z.of_nat varFirst
      =? varNum1 cfg * varNum2 cfg * varNumPrfSizes cfg)%Z
  then
    varLast <- lift (tuple_last vecPrfTcShp) ;;
    if (Z.of_nat varLast =? varNumVol cfg)%Z
    then ret aryPrfTc
    else raise AssertionError
  else raise AssertionError.

Definition model_creation (cfg : config) : M (S:=mc_state) ndarray :=
  if lgcCrteMdl cfg then create_models cfg else load_models cfg.
End ModelCreation.

(* ================================================================== *)
(** * Auxiliary definitions for the statements *)

(** The absolute tolerance that [save_tc_to_nii] passes to
    [np.isclose]. *)
Abbreviation tol := (1 # 10000)%Q.

(** Row [i] of the grid exists and passes the closeness test against
    [p]. *)
Definition matches (aryMdlParams : list prm) (p : prm) (i : nat) : bool :=
  match nth_error aryMdlParams i with
  | Some g => row_isclose (1 # 10000)%Q g p
  | None => false
  end.

(** [lgcVxl] of line 93: the mask [aryUnqInd == indRow]. *)
Definition lgc_of (aryUnqInd : list nat) (indRow : nat) : list bool :=
  map (fun u => u =? indRow) aryUnqInd.

(** What lines 94-95 print for a mask. *)
Definition no_voxel_msg (lgc : list bool) : list string :=
  if forallb negb lgc then ["---No voxel found"%string] else [].

(** The inverse index of voxel [v] is one of the [n] row indices from [i]
    on. *)
Definition in_range (aryUnqInd : list nat) (v i n : nat) : bool :=
  match nth_error aryUnqInd v with
  | Some u => (i <=? u) && (u <? i + n)
  | None => false
  end.

(** What the caller relies on in the distinct rows [rows] and the inverse
    index [aryUnqInd] of the array [ary]: one index per input row, each
    pointing at a distinct row, and no distinct row without an input
    row. *)
Definition unq_inverse_ok (ary rows : list prm) (aryUnqInd : list nat) : Prop :=
  length aryUnqInd = length ary
  /\ (forall v u, nth_error aryUnqInd v = Some u -> u < length rows)
  /\ (forall r, r < length rows -> exists v, nth_error aryUnqInd v = Some r).

(** No two rows hold the same numbers. *)
Fixpoint no_dup_rows (rows : list prm) : Prop :=
  match rows with
  | [] => True
  | r :: rows' =>
      Forall (fun q => ModelCreationUtils.prm_eqb r q = false) rows'
      /\ no_dup_rows rows'
  end.

(** The arrays fit together: one weight vector per voxel, a model bank
    with a row for every grid row, and as many weights per voxel as every
    model has regressors. *)
Definition shapes_ok (numVxl : nat) (aryBetas : list (list Q))
           (aryMdlParams : list prm) (aryPrfTc : list (list (list Q))) : Prop :=
  length aryBetas = numVxl
  /\ length aryMdlParams <= length aryPrfTc
  /\ Forall (fun mat => Forall (fun w => length w = length mat) aryBetas)
            aryPrfTc.



(** Number of grid rows that pass the closeness test. *)
Definition count_matches (grid : list prm) (p : prm) : nat :=
  length (filter (fun g => row_isclose tol g p) grid).

(** Every component of [p] is within [eps] of that of [g], with no
    relative term. *)
Definition abs_close (eps : Q) (g p : prm) : bool :=
  let '(gx, gy, gs) := g in
  let '(px, py, ps) := p in
  Qle_bool (Qabs (gx - px)) eps && Qle_bool (Qabs (gy - py)) eps
  && Qle_bool (Qabs (gs - ps)) eps.

(** An array holds as many entries as its shape says. *)
Definition wf_array (ary : ndarray) : Prop :=
  length (data ary) = fold_right Nat.mul 1 (shape ary).

(* ================================================================== *)
(** * Example inputs *)

(** A 2 x 2 x 1 grid with four models of one regressor and three
    volumes, and three voxels of which two share their winning row. *)
Definition ex_grid : list prm := [(0, 0, 2); (0, 1, 2); (1, 0, 2); (1, 1, 2)]%Q.
Definition ex_tc : list (list (list Q)) :=
  [[[1; 2; 3]]; [[4; 5; 6]]; [[7; 8; 9]]; [[10; 11; 12]]]%Q.
Definition ex_win : list prm := [(0, 0, 2); (1, 1, 2); (0, 0, 2)]%Q.
Definition ex_betas : list (list Q) := [[1]; [1]; [2]]%Q.

(** A grouping whose inverse index points outside the distinct rows. *)
Definition ex_bad_unq (_ : list prm) : list prm * list nat :=
  ([(0, 0, 2)%Q], [0; 7; 0]).

(** A grid whose x positions are 1e-4 apart, and a grid in degrees with a
    triple 1.5e-4 away from its only row. *)
Definition ex_fine_grid : list prm := [(0, 0, 1); (1 # 10000, 0, 1)]%Q.
Definition ex_deg_grid : list prm := [(10, 10, 10)]%Q.
Definition ex_deg_prm : prm :=
  (10 + (15 # 100000), 10 + (15 # 100000), 10 + (15 # 100000))%Q.

(** Stand-ins for the three helpers of [model_creation]: the grid without
    unit conversion, responses that are the spatial array itself, time
    courses that are the responses themselves. *)
Definition ex_crt_mdl_prms :=
  ModelCreationUtils.crt_mdl_prms (fun _ _ _ p => p).
Definition ex_crt_mdl_rsp (ary : ndarray) (_ : Z * Z) (_ : list prm) (_ : Z)
  : exn + ndarray := inr ary.
Definition ex_crt_prf_ftr_tc (aryMdlRsp _ : ndarray) (_ : Z) (_ : Q)
           (_ _ : Z) (_ : Z * Z) (_ : Z) : exn + ndarray := inr aryMdlRsp.

Definition ex_spt : ndarray := mkArr [2; 3; 1] [1; 2; 3; 4; 5; 6]%Q.
Definition ex_tmp : ndarray := mkArr [1] [0]%Q.
Definition ex_bank : ndarray := mkArr [4; 1; 5] (repeat 0%Q 20).

(** A configuration with a 2 x 2 x 1 grid and three volumes. *)
Definition ex_cfg (lgc : bool) (strPath : string) : config :=
  mkConfig lgc "spt.npy" "tmp.npy" strPath 2 3 2 0 1 2 0 1 1 2 2 "crt"
           3 1 1 1 1.

Definition ex_disk : mc_state :=
  mkMcState (write_file "spt.npy" ex_spt
               (write_file "tmp.npy" ex_tmp
                  (write_file "bank.npy" ex_bank no_files)))
            [].

(* ================================================================== *)
(** * Further definitions: properties of the grouping and of the grid *)

(** The distinct row a voxel is sent to holds that voxel's numbers: what
    makes [aryUnqRows] and [aryUnqInd] a grouping of [ary] by equal
    rows. *)
Definition unq_rows_ok (ary rows : list prm) (aryUnqInd : list nat) : Prop :=
  forall v p,
    nth_error ary v = Some p ->
    exists u r,
      nth_error aryUnqInd v = Some u
      /\ nth_error rows u = Some r
      /\ ModelCreationUtils.prm_eqb r p = true.

(** The distinct row indices that no voxel's inverse index equals. *)
Definition rows_without_voxel (numRows : nat) (aryUnqInd : list nat)
  : list nat :=
  filter (fun j => negb (existsb (fun u => u =? j) aryUnqInd))
         (seq 0 numRows).

(* ================================================================== *)
(** * [save_tc_to_nii]: the whole function *)

(** The fields of [cfg] that [save_tc_to_nii] reads beside those that
    [model_creation] reads. *)
Record tc_config : Type := mkTcConfig {
  cfgMdl : config;
  strPathOut : string;
  strPathNiiMask : string;
  lstPathNiiFunc : list string;
  varSdSmthTmp : Q
}.

(** What the function has printed and the calls of [export_nii] it has
    made, oldest first. *)
Record io_state (call : Type) : Type := mkIoState {
  io_stdout : list string;
  io_exports : list call
}.

Arguments mkIoState {call} _ _.
Arguments io_stdout {call} _.
Arguments io_exports {call} _.

#[export] Instance io_state_console (call : Type)
  : Console (io_state call) := {
  printed := io_stdout;
  set_printed := fun out s => mkIoState out (io_exports s)
}.

(** [assert cond, msg]. *)
Definition py_assert {S} (cond : bool) : M (S:=S) unit :=
  if cond then ret tt else raise AssertionError.

(** [ary[lgc, :]] with the check that the mask fits the first axis. *)
Definition index_mask {A} (lgc : list bool) (ary : list A) : exn + list A :=
  if length lgc =? length ary then inr (mask_select lgc ary)
  else inl IndexError.

(** A row of the [(n, 3)] array of winning parameters, one column for
    each of the three files it was loaded from. *)
Definition prm_of_row (row : list Q) : prm :=
  (nth 0 row 0%Q, nth 1 row 0%Q, nth 2 row 0%Q).

(** Lines 31-33, 49 and 119-136: the file names, all made from
    [cfg.strPathOut]. *)
Definition lstWnrPrm (cfg : tc_config) : list string :=
  [(strPathOut cfg ++ "_x_pos.nii.gz")%string;
   (strPathOut cfg ++ "_y_pos.nii.gz")%string;
   (strPathOut cfg ++ "_SD.nii.gz")%string].

Definition lstPathBeta (cfg : tc_config) : list string :=
  [(strPathOut cfg ++ "_Betas.nii.gz")%string].

Definition lstNiiNames (cfg : tc_config) (lstSuffix : list string)
  : list string :=
  map (fun strNii => (strPathOut cfg ++ strNii ++ ".nii.gz")%string)
      lstSuffix.

Section SaveTc.
Open Scope monad_scope.

(** Header and affine of the mask image, as [prep_func] gives them. *)
Variable nii_hdr : Type.
Variable nii_aff : Type.

(** The file system, as far as the function looks at it. *)
Variable isfile : string -> bool.          (* [os.path.isfile] *)
Variable npy_files : fsys.                 (* what [np.load] finds *)

(** The helpers of [utils_general], [prepare] and
    [model_creation_utils] are parameters; each may raise.
    [load_res_prm] stands for [load_res_prm(...)[0][0]], the array
    [voxel, file] for the first mask. *)
Variable load_res_prm : list string -> list string -> exn + list (list Q).
Variable prep_func :
  string -> list string ->
  exn + (list bool * list bool * nii_hdr * nii_aff * list (list Q)
         * list nat).
Variable crt_mdl_prms :
  Z * Z -> Z -> Q -> Q -> Z -> Q -> Q -> Z -> Q -> Q -> string -> string ->
  exn + list prm.
Variable prep_models : ndarray -> Q -> exn + list (list (list Q)).
Variable fnd_unq_rws : list prm -> list prm * list nat.

(** One call of [export_nii]: the array, the names, the two masks, the
    image shape, affine and header, and the output format. *)
Definition export_call : Type :=
  (list (list Q) * list string * list bool * list bool * list nat
   * nii_aff * nii_hdr * string)%type.

(** What a call of [export_nii] raises, if it does. *)
Variable export_nii : export_call -> exn + unit.

Definition call_export_nii (call : export_call)
  : M (S:=io_state export_call) unit :=
  modify (fun s => mkIoState (io_stdout s) (io_exports s ++ [call])) ;;;
  lift (export_nii call).

(** What lines 20-75 hand to the rest of the function. *)
Record tc_inputs : Type := mkTcInputs {
  inIntGssPrm : list (list Q);
  inBetas : list (list Q);
  inMdlParams : list prm;
  inPrfTc : list (list (list Q));
  inFunc : list (list Q);
  inLgcMsk : list bool;
  inLgcVar : list bool;
  inNiiShp : list nat;
  inAff : nii_aff;
  inHdr : nii_hdr
}.

(** Lines 28-75: the three assertions, then the loading. *)
Definition load_inputs (cfg : tc_config)
  : M (S:=io_state export_call) tc_inputs :=
  py_assert (isfile (nth 0 (lstWnrPrm cfg) EmptyString)) ;;;
  py_assert (isfile (nth 1 (lstWnrPrm cfg) EmptyString)) ;;;
  py_assert (isfile (nth 2 (lstWnrPrm cfg) EmptyString)) ;;;
  aryIntGssPrm <- lift (load_res_prm (lstWnrPrm cfg) [strPathNiiMask cfg]) ;;
  aryBetas <- lift (load_res_prm (lstPathBeta cfg) [strPathNiiMask cfg]) ;;
  tplFunc <- lift (prep_func (strPathNiiMask cfg) (lstPathNiiFunc cfg)) ;;
  let '(aryLgcMsk, aryLgcVar, hdrMsk, aryAff, aryFunc, tplNiiShp) :=
    tplFunc in
  aryIntGssPrm <- lift (index_mask aryLgcVar aryIntGssPrm) ;;
  aryBetas <- lift (index_mask aryLgcVar aryBetas) ;;
  aryMdlParams <- lift (crt_mdl_prms (tplPngSize (cfgMdl cfg))
                          (varNum1 (cfgMdl cfg)) (varExtXmin (cfgMdl cfg))
                          (varExtXmax (cfgMdl cfg)) (varNum2 (cfgMdl cfg))
                          (varExtYmin (cfgMdl cfg)) (varExtYmax (cfgMdl cfg))
                          (varNumPrfSizes (cfgMdl cfg))
                          (varPrfStdMin (cfgMdl cfg))
                          (varPrfStdMax (cfgMdl cfg))
                          "deg"%string (strKwCrd (cfgMdl cfg))) ;;
  aryPrfTc <- lift (match npy_files
                            (strPathMdl (cfgMdl cfg) ++ ".npy")%string with
                    | Some ary => inr ary
                    | None => inl IOError
                    end) ;;
  aryPrfTc <- lift (prep_models aryPrfTc (varSdSmthTmp cfg)) ;;
  ret (mkTcInputs aryIntGssPrm aryBetas aryMdlParams aryPrfTc aryFunc
                  aryLgcMsk aryLgcVar tplNiiShp aryAff hdrMsk).

(** Lines 77-114, with what they print. *)
Definition reconstruct (inp : tc_inputs)
  : M (S:=io_state export_call) (list (list Q)) :=
  fun s =>
    let '(r, st) :=
      save_tc_to_nii fnd_unq_rws (inBetas inp) (inMdlParams inp)
                     (inPrfTc inp) (map prm_of_row (inIntGssPrm inp)) in
    (r, mkIoState (io_stdout s ++ stdout st) (io_exports s)).

(** The two calls of lines 116-140. *)
Definition call_EmpTc (cfg : tc_config) (inp : tc_inputs) : export_call :=
  (inFunc inp, lstNiiNames cfg ["_EmpTc"%string], inLgcMsk inp,
   inLgcVar inp, inNiiShp inp, inAff inp, inHdr inp, "4D"%string).

Definition call_FitTc (cfg : tc_config) (inp : tc_inputs)
           (aryFit : list (list Q)) : export_call :=
  (aryFit, lstNiiNames cfg ["_FitTc"%string], inLgcMsk inp, inLgcVar inp,
   inNiiShp inp, inAff inp, inHdr inp, "4D"%string).

(** [save_tc_to_nii], from the configuration on.  [load_config] and
    [cls_set_config] have given [cfg]. *)
Definition save_tc_to_nii_io (cfg : tc_config)
  : M (S:=io_state export_call) unit :=
  inp <- load_inputs cfg ;;
  aryFit <- reconstruct inp ;;
  call_export_nii (call_EmpTc cfg inp) ;;;
  call_export_nii (call_FitTc cfg inp aryFit).
End SaveTc.

(* ================================================================== *)
(** * [pyprf_opt_ep]: the entry point of [pyprf_opt_brute] *)

(** The namespace that [get_arg_parse] returns.  Its attributes are
    Python objects; [main] asks of each whether it is [None]. *)
Record namespace : Type := mkNamespace {
  ns_config : option string;
  ns_strPthPrior : option string;
  ns_varNumOpt1 : option Z;
  ns_varNumOpt2 : option Z
}.

Definition opt_is_None {A} (o : option A) : bool :=
  match o with None => true | Some _ => false end.

(** The command line as [objParser.parse_args()] reads it: for each of
    the four options the string given for it, if any.  [cmd_wellformed]
    is false when argparse stops for another reason than a missing
    option or a malformed integer: an unknown option, an option without
    its value, or [-h]. *)
Record cmdline : Type := mkCmdline {
  cmd_wellformed : bool;
  cmd_config : option string;
  cmd_strPthPrior : option string;
  cmd_varNumOpt1 : option string;
  cmd_varNumOpt2 : option string
}.

(** ['=' * n]. *)
Fixpoint str_repeat (c : ascii) (n : nat) : string :=
  match n with
  | 0 => EmptyString
  | S n' => String c (str_repeat c n')
  end.

(** The line feed ["\n"]. *)
Definition strNl : string := String (ascii_of_nat 10) EmptyString.

(** What the [print] calls of [main] have written and the calls of
    [pyprf_opt_brute] it has made: the configuration path, the namespace
    and [lgcTest].  What argparse itself writes before it exits is not
    recorded. *)
Record ep_state : Type := mkEpState {
  ep_stdout : list string;
  ep_calls : list (option string * namespace * bool)
}.

#[export] Instance ep_state_console : Console ep_state := {
  printed := ep_stdout;
  set_printed := fun out s => mkEpState out (ep_calls s)
}.

Section EntryPoint.
Open Scope monad_scope.

Variable version : string.                 (* [__version__] *)
(** Python's [int] on a string: [None] when it raises [ValueError]. *)
Variable py_int_of_string : string -> option Z.
(** What the call of [pyprf_opt_brute] raises, if it does. *)
Variable pyprf_opt_brute : option string -> namespace -> bool -> exn + unit.

(** Lines 15-50.  All four options are added with [required=True], the
    last two with [type=int]: when one is missing, or the string given
    for one of the last two is no integer, [parse_args] reports the error
    and leaves the program with [SystemExit]; otherwise every attribute
    of the namespace holds a value. *)
Definition get_arg_parse (argv : cmdline) : exn + namespace :=
  if negb (cmd_wellformed argv) then inl SystemExit
  else
    match cmd_config argv, cmd_strPthPrior argv,
          cmd_varNumOpt1 argv, cmd_varNumOpt2 argv with
    | Some strCfg, Some strPrior, Some strOpt1, Some strOpt2 =>
        match py_int_of_string strOpt1, py_int_of_string strOpt2 with
        | Some varOpt1, Some varOpt2 =>
            inr (mkNamespace (Some strCfg) (Some strPrior) (Some varOpt1)
                             (Some varOpt2))
        | _, _ => inl SystemExit
        end
    | _, _, _, _ => inl SystemExit
    end.

(** Lines 53-77. *)
Definition main (argv : cmdline) : M (S:=ep_state) unit :=
  let strWelcome := ("pyprf_opt_brute " ++ version)%string in
  let strDec := str_repeat "="%char (String.length strWelcome) in
  print (strDec ++ strNl ++ strWelcome ++ strNl ++ strDec)%string ;;;
  objNspc <- lift (get_arg_parse argv) ;;
  if opt_is_None (ns_config objNspc)
     || opt_is_None (ns_strPthPrior objNspc)
     || opt_is_None (ns_varNumOpt1 objNspc)
     || opt_is_None (ns_varNumOpt2 objNspc)
  then
    print "Please provide the necessary input arguments, i.e.:" ;;;
    print "-strCsvCnfg -strPthPrior -varNumOpt1 and -varNumOpt2"
  else
    let lgcTest := false in
    modify (fun s => mkEpState (ep_stdout s)
                       (ep_calls s ++ [(ns_config objNspc, objNspc, lgcTest)]))
    ;;;
    lift (pyprf_opt_brute (ns_config objNspc) objNspc lgcTest).
End EntryPoint.

(** Stand-ins to run the whole function: three voxels of which the mask
    keeps all, winning parameters and weights as in the example above,
    preprocessing that hands out the example model bank, an export that
    never raises. *)
Definition ex_load_res_prm (lstFls _ : list string) : exn + list (list Q) :=
  if length lstFls =? 3
  then inr [[0; 0; 2]; [1; 1; 2]; [0; 0; 2]]%Q
  else inr ex_betas.

Definition ex_prep_func (_ : string) (_ : list string)
  : exn + (list bool * list bool * unit * unit * list (list Q) * list nat) :=
  inr ([true; true; true], [true; true; true], tt, tt,
       [[1; 1; 1]; [2; 2; 2]; [3; 3; 3]]%Q, [3; 1; 1]).

Definition ex_prep_models (_ : ndarray) (_ : Q)
  : exn + list (list (list Q)) := inr ex_tc.

Definition ex_crt_grid (_ : Z * Z) (_ : Z) (_ _ : Q) (_ : Z) (_ _ : Q)
           (_ : Z) (_ _ : Q) (_ _ : string) : exn + list prm := inr ex_grid.

Definition ex_export_nii (_ : export_call unit unit) : exn + unit := inr tt.

Definition ex_tc_cfg : tc_config :=
  mkTcConfig (ex_cfg false "bank") "out" "mask.nii.gz"
             ["func.nii.gz"%string] 0.

(** A command line with all four options, and a reading of decimal
    numerals that knows two of them. *)
Definition ex_cmdline : cmdline :=
  mkCmdline true (Some "cfg.csv"%string) (Some "prior"%string)
            (Some "4"%string) (Some "8"%string).

Definition ex_int_of_string (str : string) : option Z :=
  if String.eqb str "4" then Some 4%Z
  else if String.eqb str "8" then Some 8%Z
  else None.

(* ================================================================== *)
(** * [save_tc_to_nii] with numpy's floating-point operations as
      parameters *)

(** The arrays of [save_tc_to_nii] hold binary floating-point numbers, in
    a format that the helpers absent here decide, and [aryFitTc] is
    float32.  Two lines compute with the entries: the closeness test of
    lines 98-99 and the product of line 110.  Here both are parameters;
    everything else is as in the definitions of the first version. *)
Section FloatingPoint.
Open Scope monad_scope.

(** [np.isclose(g, vecPrm, atol=1e-04).all()] for a grid row [g], as
    numpy computes it. *)
Variable fp_isclose : prm -> prm -> bool.

(** [np.dot(aryWeights, aryMdlTc)] as line 110 stores it in the float32
    array [aryFitTc], for arrays whose inner dimensions agree: one row
    for every row of weights. *)
Variable fp_dot : list (list Q) -> list (list Q) -> list (list Q).

Variable fnd_unq_rws : list prm -> list prm * list nat.
Variable aryBetas : list (list Q).          (* [voxel, regressor] *)
Variable aryMdlParams : list prm.           (* the parameter grid *)
Variable aryPrfTc : list (list (list Q)).   (* [model, regressor, volume] *)

(** Lines 98-99. *)
Definition find_model_fp (vecPrm : prm) : exn + pyobj :=
  item0 (np_where (map (fun g => fp_isclose g vecPrm) aryMdlParams)).

Definition np_dot_fp (a b : list (list Q)) : exn + list (list Q) :=
  if forallb (fun w => length w =? length b) a
  then inr (fp_dot a b)
  else inl ValueError.

(** Lines 92-110. *)
Definition loop_body_fp (aryUnqInd : list nat) (indRow : nat) (vecPrm : prm)
  : M (S:=rec_state) unit :=
  let lgcVxl := map (fun u => u =? indRow) aryUnqInd in
  when (forallb negb lgcVxl) (print "---No voxel found") ;;;
  lgcMdl <- lift (find_model_fp vecPrm) ;;
  when (is_None lgcMdl) (print "---No model found") ;;;
  vec <- gets vecVxlTst ;;
  lift (check_mask lgcVxl vec) ;;;
  set_vecVxlTst (mask_incr lgcVxl vec) ;;;
  aryMdlTc <- lift (get_model_tc aryPrfTc lgcMdl) ;;
  lift (check_mask lgcVxl aryBetas) ;;;
  let aryWeights := mask_select lgcVxl aryBetas in
  aryNew <- lift (np_dot_fp aryWeights aryMdlTc) ;;
  fit <- gets aryFitTc ;;
  lift (check_mask lgcVxl fit) ;;;
  set_aryFitTc (mask_assign lgcVxl fit aryNew).

(** Lines 86-110. *)
Definition reconstruct_loop_fp (aryIntGssPrm : list prm)
  : M (S:=rec_state) unit :=
  let '(aryUnqRows, aryUnqInd) := fnd_unq_rws aryIntGssPrm in
  for_enumerate (loop_body_fp aryUnqInd) 0 aryUnqRows.

(** Lines 77-114. *)
Definition save_tc_to_nii_from_fp (aryIntGssPrm : list prm)
  : M (S:=rec_state) (list (list Q)) :=
  reconstruct_loop_fp aryIntGssPrm ;;;
  check_visited ;;;
  gets aryFitTc.

Definition save_tc_to_nii_fp (aryIntGssPrm : list prm)
  : (exn + list (list Q)) * rec_state :=
  save_tc_to_nii_from_fp aryIntGssPrm
    (init_state aryPrfTc (length aryIntGssPrm)).

(** The state in which the loop leaves the arrays, when it ends. *)
Definition run_loop_fp (aryIntGssPrm : list prm)
  : (exn + unit) * rec_state :=
  reconstruct_loop_fp aryIntGssPrm
    (init_state aryPrfTc (length aryIntGssPrm)).
End FloatingPoint.

(** The product in exact arithmetic: every row of weights times the
    matrix. *)
Definition exact_dot (a b : list (list Q)) : list (list Q) :=
  map (fun w => vec_mat w b) a.

(** The position of row [v] among the rows that a mask selects. *)
Definition mask_rank (lgc : list bool) (v : nat) : nat :=
  length (filter (fun b => b) (firstn v lgc)).


(** The test depends on the numbers of the triple only, not on how a
    rational is written. *)
Definition respects_equal_rows (fp_isclose : prm -> prm -> bool) : Prop :=
  forall g r p,
    ModelCreationUtils.prm_eqb r p = true -> fp_isclose g r = fp_isclose g p.

(** ** Rounding to a binary floating-point format *)

(** The integer nearest to [r], the even one of two that are equally
    near. *)
Definition round_half_even (r : Q) : Z :=
  let f := Qfloor r in
  match (r - inject_Z f ?= 1 # 2)%Q with
  | Lt => f
  | Gt => (f + 1)%Z
  | Eq => if Z.even f then f else (f + 1)%Z
  end.

(** The exponent of the leading binary digit of [a > 0]. *)
Definition Qlog2_floor (a : Q) : Z :=
  let c := (Z.log2 (Qnum a) - Z.log2 (Zpos (Qden a)))%Z in
  if Qle_bool (2 ^ c) a then c else (c - 1)%Z.

(** The number nearest to [x] among those with [prec] significant binary
    digits and least exponent [emin], ties to even: IEEE 754 rounding to
    nearest, subnormal numbers included.  Beyond the largest number of
    the format the hardware gives an infinity, which an array of
    rationals cannot hold; there the definition goes on rounding to
    [prec] digits. *)
Definition round_nearest_even (prec emin : Z) (x : Q) : Q :=
  if Qeq_bool x 0 then 0%Q
  else
    let a := Qabs x in
    let e := Z.max (Qlog2_floor a) emin in
    let q := (2 ^ (e - (prec - 1)))%Q in
    let n := round_half_even (a / q) in
    Qred ((if Qle_bool 0 x then 1 else -1) * inject_Z n * q).

(** Single and double precision. *)
Definition np_float32 : Q -> Q := round_nearest_even 24 (-126).
Definition np_float64 : Q -> Q := round_nearest_even 53 (-1022).

(** ** The closeness test in rounded arithmetic *)

Section RoundedTest.
(** Rounding to the format in which numpy computes the test, and that
    format's numbers for [atol = 1e-04] and for the default
    [rtol = 1e-05]. *)
Variable rnd : Q -> Q.
Variable fl_atol fl_rtol : Q.

(** [abs(a - b) <= atol + rtol * abs(b)] with the difference, the
    product and the sum rounded; taking the absolute value and comparing
    round nothing. *)
Definition np_isclose_fl (a b : Q) : bool :=
  Qle_bool (Qabs (rnd (a - b))) (rnd (fl_atol + rnd (fl_rtol * Qabs b)))%Q.

Definition row_isclose_fl (g p : prm) : bool :=
  let '(gx, gy, gs) := g in
  let '(px, py, ps) := p in
  np_isclose_fl gx px && np_isclose_fl gy py && np_isclose_fl gs ps.
End RoundedTest.

(** The doubles that Python reads for [1e-04] and [1e-05], and the
    singles that numpy makes of them when the arrays are float32. *)
Definition fl64_atol : Q := np_float64 (1 # 10000).
Definition fl64_rtol : Q := np_float64 (1 # 100000).
Definition fl32_atol : Q := np_float32 fl64_atol.
Definition fl32_rtol : Q := np_float32 fl64_rtol.

(** The test of line 98 on arrays of doubles and on arrays of singles. *)
Definition row_isclose_float64 : prm -> prm -> bool :=
  row_isclose_fl np_float64 fl64_atol fl64_rtol.
Definition row_isclose_float32 : prm -> prm -> bool :=
  row_isclose_fl np_float32 fl32_atol fl32_rtol.

(** What the statements about thresholds need of the rounding: a
    relative error of at most a thousandth, beside an absolute error of
    at most 1e-9 where the format runs out of exponents, and constants
    within a thousandth of the decimal ones. *)
Definition rounding_ok (rnd : Q -> Q) (fl_atol fl_rtol : Q) : Prop :=
  (forall x, Qabs (rnd x - x) <= (1 # 1000) * Qabs x + (1 # 1000000000))%Q
  /\ (Qabs (fl_atol - (1 # 10000)) <= 1 # 10000000)%Q
  /\ (Qabs (fl_rtol - (1 # 100000)) <= 1 # 100000000)%Q.


(** The two rows differ, on some component, by more than twice that
    bound. *)
Definition rows_well_apart (g g' p : prm) : Prop :=
  let '(gx, gy, gs) := g in
  let '(hx, hy, hs) := g' in
  let '(px, py, ps) := p in
  ((22 # 100000) + (22 # 1000000) * Qabs px < Qabs (gx - hx)
   \/ (22 # 100000) + (22 # 1000000) * Qabs py < Qabs (gy - hy)
   \/ (22 # 100000) + (22 # 1000000) * Qabs ps < Qabs (gs - hs))%Q.




(** The double nearest to 1e-4 as an x position, and a grid with it. *)
Definition ex_fine_row64 : prm := (fl64_atol, 0, 1)%Q.
Definition ex_fine_grid64 : list prm := [(0, 0, 1)%Q; ex_fine_row64].

(* ================================================================== *)
(** * Lemmas *)

(** ** Masks *)

Lemma mask_incr_length (lgc : list bool) : forall vec,
  length (mask_incr lgc vec) = length vec.
Proof.
  induction lgc as [|b lgc IH]; intros [|c vec]; simpl; auto.
Qed.

Lemma mask_incr_nth (lgc : list bool) : forall vec v,
  v < length vec ->
  nth v (mask_incr lgc vec) 0
  = nth v vec 0 + (if nth v lgc false then 1 else 0).
Proof.
  induction lgc as [|b lgc IH]; intros [|c vec] v Hv; simpl in *; try lia.
  - destruct v; lia.
  - destruct v as [|v].
    + destruct b; lia.
    + apply IH. lia.
Qed.

Lemma mask_assign_length {A} (lgc : list bool) : forall (ary vals : list A),
  length (mask_assign lgc ary vals) = length ary.
Proof.
  induction lgc as [|b lgc IH]; intros [|x ary] vals; simpl; auto.
  destruct b; [destruct vals|]; simpl; rewrite IH; reflexivity.
Qed.

(** Assigning to the selected rows what a row-wise function makes of the
    selected rows of [src] rewrites exactly the selected rows. *)
Lemma mask_assign_select {A B} (f : B -> A) (lgc : list bool) :
  forall (ary : list A) (src : list B) v,
    length lgc = length ary -> length lgc = length src ->
    nth_error (mask_assign lgc ary (map f (mask_select lgc src))) v
    = if nth v lgc false then option_map f (nth_error src v)
      else nth_error ary v.
Proof.
  induction lgc as [|b lgc IH]; intros [|x ary] [|y src] v Ha Hs;
    simpl in *; try discriminate.
  - destruct v; reflexivity.
  - destruct b; simpl.
    + destruct v as [|v]; simpl; [reflexivity|]. apply IH; lia.
    + destruct v as [|v]; simpl; [reflexivity|]. apply IH; lia.
Qed.

Lemma mask_select_forallb {A} (P : A -> bool) (lgc : list bool) :
  forall (ary : list A) v x,
    forallb P (mask_select lgc ary) = true ->
    nth v lgc false = true -> nth_error ary v = Some x -> P x = true.
Proof.
  induction lgc as [|b lgc IH]; intros [|y ary] v x HF Hv Hx;
    try (destruct v; discriminate).
  destruct v as [|v]; simpl in *.
  - subst b. inversion Hx; subst y. simpl in HF.
    apply andb_true_iff in HF. apply HF.
  - destruct b; simpl in HF.
    + apply andb_true_iff in HF. destruct HF as [_ HF]. eapply IH; eauto.
    + eapply IH; eauto.
Qed.

Lemma mask_select_length {A} (lgc : list bool) : forall ary : list A,
  length lgc = length ary ->
  length (mask_select lgc ary) = length (filter (fun b => b) lgc).
Proof.
  induction lgc as [|b lgc IH]; intros [|x ary] H; simpl in *;
    try discriminate; [reflexivity|].
  destruct b; simpl; rewrite IH by lia; reflexivity.
Qed.

Lemma mask_rank_cons (b : bool) (lgc : list bool) (v : nat) :
  mask_rank (b :: lgc) (S v) = (if b then 1 else 0) + mask_rank lgc v.
Proof. unfold mask_rank. simpl. destruct b; reflexivity. Qed.

(** A selected row sits, among the selected rows, at its rank. *)
Lemma mask_select_rank {A} (lgc : list bool) : forall (src : list A) v,
  length lgc = length src ->
  nth v lgc false = true ->
  nth_error (mask_select lgc src) (mask_rank lgc v) = nth_error src v.
Proof.
  induction lgc as [|b lgc IH]; intros [|x src] v Hl Hv; simpl in *;
    try discriminate.
  - destruct v; discriminate.
  - destruct v as [|v].
    + subst b. reflexivity.
    + rewrite mask_rank_cons. destruct b; simpl; apply IH; auto; lia.
Qed.

(** Assigning as many rows as the mask selects gives every selected row
    the value at its rank and leaves the other rows as they were. *)
Lemma mask_assign_rank {A} (lgc : list bool) :
  forall (ary vals : list A) v,
    length lgc = length ary ->
    length vals = length (filter (fun b => b) lgc) ->
    nth_error (mask_assign lgc ary vals) v
    = if nth v lgc false then nth_error vals (mask_rank lgc v)
      else nth_error ary v.
Proof.
  induction lgc as [|b lgc IH]; intros [|x ary] vals v Ha Hv;
    simpl in *; try discriminate.
  - destruct v; reflexivity.
  - destruct b; simpl in *.
    + destruct vals as [|y vals]; [discriminate|]. simpl in Hv.
      destruct v as [|v]; [reflexivity|].
      rewrite mask_rank_cons. simpl. apply IH; lia.
    + destruct v as [|v]; [reflexivity|].
      rewrite mask_rank_cons. simpl. apply IH; lia.
Qed.

Lemma nth_map_eqb (U : list nat) (i v : nat) :
  nth v (map (fun u => u =? i) U) false
  = match nth_error U v with Some u => u =? i | None => false end.
Proof.
  revert v; induction U as [|u U IH]; intros [|v]; simpl; auto.
Qed.

(** ** Grid lookup *)

Lemma np_where_from_spec (lgc : list bool) : forall i,
  (np_where_from i lgc = [] /\ forallb negb lgc = true)
  \/ (exists k rest, np_where_from i lgc = (i + k) :: rest
        /\ nth k lgc false = true /\ k < length lgc
        /\ forall j, j < k -> nth j lgc false = false).
Proof.
  induction lgc as [|b lgc IH]; intros i; simpl.
  - left; auto.
  - destruct b; simpl.
    + right. exists 0, (np_where_from (S i) lgc).
      rewrite Nat.add_0_r. repeat split; auto; lia.
    + destruct (IH (S i)) as [[E F]|(k & rest & E & Hk & Hl & Hj)].
      * left; auto.
      * right. exists (S k), rest. rewrite E.
        repeat split; auto; try lia.
        -- f_equal; lia.
        -- intros [|j] Hlt; auto. apply Hj; lia.
Qed.

Lemma forallb_negb_nth (lgc : list bool) :
  forallb negb lgc = true <-> forall j, nth j lgc false = false.
Proof.
  induction lgc as [|b lgc IH]; simpl.
  - split; auto. intros _ [|j]; reflexivity.
  - rewrite andb_true_iff, IH. split.
    + intros [Hb H] [|j]; [destruct b; auto; discriminate | apply H].
    + intros H. split.
      * specialize (H 0); simpl in H; subst; reflexivity.
      * intros j. apply (H (S j)).
Qed.

Section LookupFacts.
Variable aryMdlParams : list prm.

Lemma nth_close_matches (p : prm) (i : nat) :
  nth i (map (fun g => row_isclose (1 # 10000)%Q g p) aryMdlParams) false
  = matches aryMdlParams p i.
Proof.
  unfold matches.
  generalize aryMdlParams as grid.
  intros grid; revert i;
    induction grid as [|g l IH]; intros [|i]; simpl; auto.
Qed.

(** The lookup gives the first matching row, or raises [IndexError]
    when no row matches; it never gives [None]. *)
Lemma find_model_spec (p : prm) :
  (find_model aryMdlParams p = inl IndexError
   /\ forall i, matches aryMdlParams p i = false)
  \/ (exists i, find_model aryMdlParams p = inr (PyInt i)
        /\ i < length aryMdlParams
        /\ matches aryMdlParams p i = true
        /\ forall j, j < i -> matches aryMdlParams p j = false).
Proof.
  unfold find_model, np_where.
  destruct (np_where_from_spec
              (map (fun g => row_isclose (1 # 10000)%Q g p) aryMdlParams) 0)
    as [[E F]|(k & rest & E & Hk & Hl & Hj)]; rewrite E; simpl.
  - left. split; auto. intros i. rewrite <- nth_close_matches.
    apply forallb_negb_nth; assumption.
  - right. exists k. rewrite length_map in Hl.
    rewrite nth_close_matches in Hk.
    repeat split; auto.
    intros j Hlt. rewrite <- nth_close_matches. auto.
Qed.

Lemma find_model_not_None (p : prm) :
  find_model aryMdlParams p <> inr PyNone.
Proof.
  destruct (find_model_spec p) as [[E _]|(i & E & _)]; rewrite E; discriminate.
Qed.
End LookupFacts.

(** ** One pass through the loop body *)

Ltac run_monad :=
  unfold bind, lift, gets, modify, ret, raise, when, print,
    set_vecVxlTst, set_aryFitTc; simpl.

(** Closes a goal [run = (r, s') -> stdout s' = ...] once [run] is a
    pair. *)
Ltac outcome :=
  let H := fresh in
  intros H; inversion H; subst; simpl; rewrite ?app_nil_r; reflexivity.

Section BodyFacts.
Variable aryBetas : list (list Q).
Variable aryMdlParams : list prm.
Variable aryPrfTc : list (list (list Q)).
Variable aryUnqInd : list nat.

Let body := loop_body aryBetas aryMdlParams aryPrfTc aryUnqInd.

(** Whatever the outcome, a pass prints at most the "no voxel" line. *)
Lemma loop_body_stdout indRow vecPrm s r s' :
  body indRow vecPrm s = (r, s') ->
  stdout s' = stdout s ++ no_voxel_msg (lgc_of aryUnqInd indRow).
Proof.
  unfold body, loop_body, no_voxel_msg, lgc_of.
  set (lgc := map (fun u => u =? indRow) aryUnqInd).
  pose proof (find_model_not_None aryMdlParams vecPrm) as HN.
  run_monad.
  destruct (forallb negb lgc); simpl;
    (destruct (find_model aryMdlParams vecPrm) as [e|[|m]];
     [ outcome | congruence | ]);
    simpl; unfold check_mask;
    (destruct (length lgc =? length (vecVxlTst s)); simpl; [| outcome]);
    unfold get_model_tc;
    (destruct (nth_error aryPrfTc m) as [mat|]; simpl; [| outcome]);
    (destruct (length lgc =? length aryBetas); simpl; [| outcome]);
    (destruct (np_dot (mask_select lgc aryBetas) mat); simpl; [outcome |]);
    (destruct (length lgc =? length (aryFitTc s)); simpl; outcome).
Qed.

(** A pass that ends without an exception: what it found and what it
    wrote. *)
Lemma loop_body_ok indRow vecPrm s s' :
  body indRow vecPrm s = (inr tt, s') ->
  let lgc := lgc_of aryUnqInd indRow in
  exists m mat,
    find_model aryMdlParams vecPrm = inr (PyInt m)
    /\ nth_error aryPrfTc m = Some mat
    /\ length aryUnqInd = length (vecVxlTst s)
    /\ length aryUnqInd = length aryBetas
    /\ length aryUnqInd = length (aryFitTc s)
    /\ vecVxlTst s' = mask_incr lgc (vecVxlTst s)
    /\ aryFitTc s'
       = mask_assign lgc (aryFitTc s)
           (map (fun w => vec_mat w mat) (mask_select lgc aryBetas))
    /\ forallb (fun w => length w =? length mat) (mask_select lgc aryBetas)
       = true.
Proof.
  unfold body, loop_body, lgc_of.
  set (lgc := map (fun u => u =? indRow) aryUnqInd).
  assert (Hlen : length lgc = length aryUnqInd) by apply length_map.
  run_monad.
  destruct (forallb negb lgc); simpl;
    (destruct (find_model aryMdlParams vecPrm) as [e|[|m]] eqn:EF; simpl;
     [ discriminate
     | exfalso; exact (find_model_not_None aryMdlParams vecPrm EF)
     | ]);
    unfold check_mask;
    (destruct (length lgc =? length (vecVxlTst s)) eqn:E1; simpl;
     [| discriminate]);
    unfold get_model_tc;
    (destruct (nth_error aryPrfTc m) as [mat|] eqn:EM; simpl;
     [| discriminate]);
    (destruct (length lgc =? length aryBetas) eqn:E2; simpl;
     [| discriminate]);
    unfold np_dot;
    (destruct (forallb (fun w => length w =? length mat)
                       (mask_select lgc aryBetas)) eqn:EK; simpl;
     [| discriminate]);
    (destruct (length lgc =? length (aryFitTc s)) eqn:E3; simpl;
     [| discriminate]);
    intros H; inversion H; subst; simpl;
    apply Nat.eqb_eq in E1, E2, E3;
    exists m, mat; repeat split; auto; congruence.
Qed.
End BodyFacts.

Section LoopFacts.
Variable aryBetas : list (list Q).
Variable aryMdlParams : list prm.
Variable aryPrfTc : list (list (list Q)).
Variable aryUnqInd : list nat.

Let body := loop_body aryBetas aryMdlParams aryPrfTc aryUnqInd.

Lemma loop_body_run indRow vecPrm s m mat :
  let lgc := lgc_of aryUnqInd indRow in
  find_model aryMdlParams vecPrm = inr (PyInt m) ->
  nth_error aryPrfTc m = Some mat ->
  length aryUnqInd = length (vecVxlTst s) ->
  length aryUnqInd = length aryBetas ->
  length aryUnqInd = length (aryFitTc s) ->
  Forall (fun w => length w = length mat) aryBetas ->
  body indRow vecPrm s
  = (inr tt,
     mkRecState (mask_incr lgc (vecVxlTst s))
       (mask_assign lgc (aryFitTc s)
          (map (fun w => vec_mat w mat) (mask_select lgc aryBetas)))
       (stdout s ++ no_voxel_msg lgc)).
Proof.
  intros lgc EF EM E1 E2 E3 HK.
  assert (Hlen : length lgc = length aryUnqInd) by apply length_map.
  assert (HF : forallb (fun w => length w =? length mat)
                       (mask_select lgc aryBetas) = true).
  { generalize lgc. clear - HK.
    induction HK as [|w l Hw _ IH]; intros [|b lgc']; simpl; auto.
    destruct b; simpl; auto. rewrite IH. apply Nat.eqb_eq in Hw.
    rewrite Hw. reflexivity. }
  unfold body, loop_body, no_voxel_msg. fold (lgc_of aryUnqInd indRow).
  fold lgc. run_monad. unfold check_mask, np_dot.
  destruct (forallb negb lgc); simpl; rewrite EF; simpl;
    rewrite Hlen, E1, Nat.eqb_refl; simpl; rewrite EM; simpl;
    rewrite <- E1, E2, Nat.eqb_refl; simpl; rewrite HF; simpl;
    rewrite <- E2, E3, Nat.eqb_refl; simpl; unfold modify;
    rewrite ?app_nil_r; reflexivity.
Qed.

Lemma loop_body_no_model indRow vecPrm s e :
  find_model aryMdlParams vecPrm = inl e ->
  body indRow vecPrm s
  = (inl e,
     mkRecState (vecVxlTst s) (aryFitTc s)
       (stdout s ++ no_voxel_msg (lgc_of aryUnqInd indRow))).
Proof.
  intros EF. unfold body, loop_body, no_voxel_msg, lgc_of. run_monad.
  destruct (forallb negb _); simpl; rewrite EF; simpl;
    rewrite ?app_nil_r; destruct s; reflexivity.
Qed.

Lemma in_range_step v i n :
  in_range aryUnqInd v i (S n)
  = nth v (lgc_of aryUnqInd i) false || in_range aryUnqInd v (S i) n.
Proof.
  unfold in_range, lgc_of. rewrite nth_map_eqb.
  destruct (nth_error aryUnqInd v) as [u|]; auto.
  destruct (u =? i) eqn:E1, (i <=? u) eqn:E2, (u <? i + S n) eqn:E3,
           (S i <=? u) eqn:E4, (u <? S i + n) eqn:E5; simpl; auto;
    repeat match goal with
           | H : (_ =? _) = true |- _ => apply Nat.eqb_eq in H
           | H : (_ =? _) = false |- _ => apply Nat.eqb_neq in H
           | H : (_ <=? _) = true |- _ => apply Nat.leb_le in H
           | H : (_ <=? _) = false |- _ => apply Nat.leb_gt in H
           | H : (_ <? _) = true |- _ => apply Nat.ltb_lt in H
           | H : (_ <? _) = false |- _ => apply Nat.ltb_ge in H
           end; lia.
Qed.

Lemma in_range_excl v i n :
  nth v (lgc_of aryUnqInd i) false = true ->
  in_range aryUnqInd v (S i) n = false.
Proof.
  unfold in_range, lgc_of. rewrite nth_map_eqb.
  destruct (nth_error aryUnqInd v) as [u|]; auto.
  intros E. apply Nat.eqb_eq in E. subst u.
  destruct (S i <=? i) eqn:E4; auto. apply Nat.leb_le in E4. lia.
Qed.

(** What a loop that ends without an exception has done, from row
    index [i] on. *)
Lemma loop_ok rows : forall i s s',
  for_enumerate body i rows s = (inr tt, s') ->
  length (vecVxlTst s') = length (vecVxlTst s)
  /\ (forall v, v < length (vecVxlTst s) ->
        nth v (vecVxlTst s') 0
        = nth v (vecVxlTst s) 0
          + (if in_range aryUnqInd v i (length rows) then 1 else 0))
  /\ (forall v, in_range aryUnqInd v i (length rows) = false ->
        nth_error (aryFitTc s') v = nth_error (aryFitTc s) v)
  /\ (forall v u vecPrm,
        nth_error aryUnqInd v = Some u -> i <= u ->
        nth_error rows (u - i) = Some vecPrm ->
        exists m mat w,
          find_model aryMdlParams vecPrm = inr (PyInt m)
          /\ nth_error aryPrfTc m = Some mat
          /\ nth_error aryBetas v = Some w
          /\ length w = length mat
          /\ nth_error (aryFitTc s') v = Some (vec_mat w mat)).
Proof.
  induction rows as [|p0 rows IH]; intros i s s' H.
  - simpl in H. inversion H; subst. repeat split; auto.
    + intros v _. unfold in_range. simpl length.
      destruct (nth_error aryUnqInd v) as [u|]; [|lia].
      destruct (i <=? u) eqn:E1, (u <? i + 0) eqn:E2; simpl; try lia.
      apply Nat.leb_le in E1. apply Nat.ltb_lt in E2. lia.
    + intros v u vecPrm _ _ E. destruct (u - i); discriminate.
  - simpl in H. unfold bind in H.
    destruct (body i p0 s) as [[e|[]] s1] eqn:EB; [discriminate|].
    destruct (loop_body_ok _ _ _ _ _ _ _ _ EB)
      as (m & mat & EF & EM & L1 & L2 & L3 & Ev & Ef & EK).
    destruct (IH _ _ _ H) as (Hl & Hc & Hu & Hg).
    assert (Hlgc : length (lgc_of aryUnqInd i) = length aryUnqInd)
      by apply length_map.
    assert (Hsel : forall v,
               nth_error (aryFitTc s1) v
               = if nth v (lgc_of aryUnqInd i) false
                 then option_map (fun w => vec_mat w mat)
                                 (nth_error aryBetas v)
                 else nth_error (aryFitTc s) v).
    { intros v. rewrite Ef. apply mask_assign_select; congruence. }
    rewrite Ev in *. rewrite mask_incr_length in *.
    split; [assumption|]. split; [|split].
    + intros v Hv. rewrite (Hc v) by exact Hv.
      rewrite mask_incr_nth by exact Hv.
      simpl length. rewrite in_range_step.
      destruct (nth v (lgc_of aryUnqInd i) false) eqn:En; simpl.
      * rewrite (in_range_excl _ _ _ En). lia.
      * lia.
    + intros v Hr. simpl length in Hr. rewrite in_range_step in Hr.
      apply orb_false_iff in Hr. destruct Hr as [En Hr].
      rewrite (Hu v Hr), Hsel, En. reflexivity.
    + intros v u vecPrm Eu Hle Er.
      destruct (Nat.eq_dec u i) as [->|Hne].
      * rewrite Nat.sub_diag in Er. simpl in Er. inversion Er; subst p0.
        assert (En : nth v (lgc_of aryUnqInd i) false = true).
        { unfold lgc_of. rewrite nth_map_eqb, Eu. apply Nat.eqb_refl. }
        assert (Hv : v < length aryBetas).
        { rewrite <- L2. apply nth_error_Some. congruence. }
        destruct (nth_error aryBetas v) as [w|] eqn:Ew;
          [| apply nth_error_None in Ew; lia].
        exists m, mat, w. repeat split; auto.
        -- apply Nat.eqb_eq.
           exact (mask_select_forallb _ _ _ _ _ EK En Ew).
        -- rewrite (Hu v (in_range_excl _ _ _ En)), Hsel, En, Ew.
           reflexivity.
      * apply (Hg v u vecPrm Eu); [lia|].
        replace (u - i) with (S (u - S i)) in Er by lia. exact Er.
Qed.
End LoopFacts.

Section LoopOutput.
Variable aryBetas : list (list Q).
Variable aryMdlParams : list prm.
Variable aryPrfTc : list (list (list Q)).
Variable aryUnqInd : list nat.

Let body := loop_body aryBetas aryMdlParams aryPrfTc aryUnqInd.

(** Whatever the outcome of the loop, it has printed nothing but
    "no voxel" lines, one for each row index it reached whose mask is
    empty. *)
Lemma loop_stdout rows : forall i s r s',
  for_enumerate body i rows s = (r, s') ->
  exists idx,
    stdout s' = stdout s
                ++ flat_map (fun j => no_voxel_msg (lgc_of aryUnqInd j)) idx
    /\ forall j, In j idx -> i <= j < i + length rows.
Proof.
  induction rows as [|p0 rows IH]; intros i s r s' H.
  - simpl in H. inversion H; subst. exists []. simpl.
    rewrite app_nil_r. split; [reflexivity | contradiction].
  - simpl in H. unfold bind in H.
    destruct (body i p0 s) as [[e|[]] s1] eqn:EB.
    + inversion H; subst. apply loop_body_stdout in EB.
      exists [i]. simpl. rewrite app_nil_r. split; [exact EB|].
      intros j [<-|[]]. lia.
    + apply loop_body_stdout in EB.
      destruct (IH _ _ _ _ H) as (idx & E & Hidx).
      exists (i :: idx). simpl. rewrite E, EB, <- app_assoc.
      split; [reflexivity|].
      intros j [<-|Hj]; [lia|]. apply Hidx in Hj. lia.
Qed.

(** The loop ends without an exception when every row finds its model
    and the shapes fit. *)
Lemma loop_runs rows : forall i s,
  length aryUnqInd = length (vecVxlTst s) ->
  length aryUnqInd = length aryBetas ->
  length aryUnqInd = length (aryFitTc s) ->
  (forall p, In p rows ->
     exists m mat,
       find_model aryMdlParams p = inr (PyInt m)
       /\ nth_error aryPrfTc m = Some mat
       /\ Forall (fun w => length w = length mat) aryBetas) ->
  exists s', for_enumerate body i rows s = (inr tt, s').
Proof.
  induction rows as [|p0 rows IH]; intros i s L1 L2 L3 Hrows.
  - exists s. reflexivity.
  - destruct (Hrows p0 (or_introl eq_refl)) as (m & mat & EF & EM & HK).
    simpl. unfold bind.
    unfold body at 1.
    rewrite (loop_body_run aryBetas aryMdlParams aryPrfTc aryUnqInd i p0 s
               m mat EF EM L1 L2 L3 HK).
    apply IH; simpl.
    + rewrite mask_incr_length. exact L1.
    + exact L2.
    + rewrite mask_assign_length. exact L3.
    + intros p Hp. apply Hrows. right. exact Hp.
Qed.
End LoopOutput.

Lemma sum_eq_length_iff (l : list nat) :
  (forall v, v < length l -> nth v l 0 <= 1) ->
  (length l = list_sum l <-> forall v, v < length l -> nth v l 0 = 1).
Proof.
  induction l as [|c l IH]; intros Hle.
  - simpl. split; [intros _ v Hv; lia | reflexivity].
  - assert (Hc : c <= 1) by (apply (Hle 0); simpl; lia).
    assert (Hl : forall v, v < length l -> nth v l 0 <= 1).
    { intros v Hv. apply (Hle (S v)). simpl; lia. }
    assert (Hs : list_sum l <= length l).
    { clear -Hl. induction l as [|d l IH]; simpl; [lia|].
      assert (d <= 1) by (apply (Hl 0); simpl; lia).
      assert (list_sum l <= length l).
      { apply IH. intros v Hv. apply (Hl (S v)). simpl; lia. }
      lia. }
    specialize (IH Hl). simpl. split.
    + intros E [|v] Hv; simpl; [lia|].
      apply IH; lia.
    + intros H. assert (c = 1) by (apply (H 0); simpl; lia).
      assert (length l = list_sum l).
      { apply IH. intros v Hv. apply (H (S v)). simpl; lia. }
      lia.
Qed.

Lemma exists_not_one (l : list nat) :
  ~ (forall v, v < length l -> nth v l 0 = 1) ->
  exists v, v < length l /\ nth v l 0 <> 1.
Proof.
  induction l as [|c l IH]; intros Hex.
  - elim Hex. intros v Hv. simpl in Hv. lia.
  - destruct (Nat.eq_dec c 1) as [->|Hc].
    + destruct IH as (v & Hv & Hne).
      * intros A. apply Hex. intros [|v] Hv; simpl; [reflexivity|].
        apply A. simpl in Hv. lia.
      * exists (S v). simpl. split; [lia | exact Hne].
    + exists 0. simpl. split; [lia | exact Hc].
Qed.

(** ** The spec-modelled [fnd_unq_rws] *)

Module UnqFacts.
Import ModelCreationUtils.

Lemma prm_eqb_refl p : prm_eqb p p = true.
Proof.
  destruct p as [[x y] s]. simpl. rewrite !Qeq_bool_refl. reflexivity.
Qed.

Lemma prm_eqb_trans p q r :
  prm_eqb p q = true -> prm_eqb q r = true -> prm_eqb p r = true.
Proof.
  destruct p as [[x1 y1] s1], q as [[x2 y2] s2], r as [[x3 y3] s3]. simpl.
  rewrite !andb_true_iff. intros [[A B] C] [[D E] F].
  repeat split; eapply Qeq_bool_trans; eauto.
Qed.

Lemma index_of_lt p rows :
  existsb (fun r => prm_eqb r p) rows = true ->
  index_of p rows < length rows.
Proof.
  induction rows as [|r rows IH]; simpl; [discriminate|].
  destruct (prm_eqb r p); simpl; intros H; [lia|].
  apply IH in H. lia.
Qed.

Lemma distinct_rows_In p ary : In p (distinct_rows ary) -> In p ary.
Proof.
  induction ary as [|a ary IH]; simpl; auto.
  intros [E|H]; [left; exact E|].
  apply filter_In in H. right. apply IH, H.
Qed.

Lemma distinct_rows_covers p ary :
  In p ary -> existsb (fun r => prm_eqb r p) (distinct_rows ary) = true.
Proof.
  induction ary as [|a ary IH]; simpl; [contradiction|].
  intros [->|H].
  - rewrite prm_eqb_refl. reflexivity.
  - destruct (prm_eqb a p) eqn:Eap; [reflexivity|]. simpl.
    apply IH in H. apply existsb_exists in H. destruct H as (r & Hr & Erp).
    apply existsb_exists. exists r. split; [|exact Erp].
    apply filter_In. split; [exact Hr|].
    destruct (prm_eqb a r) eqn:Ear; [|reflexivity].
    rewrite (prm_eqb_trans _ _ _ Ear Erp) in Eap. discriminate.
Qed.

Lemma no_dup_rows_filter f rows :
  no_dup_rows rows -> no_dup_rows (filter f rows).
Proof.
  induction rows as [|r rows IH]; simpl; auto.
  intros [Hr Hn]. destruct (f r); simpl; auto.
  split; [|auto].
  apply Forall_forall. intros q Hq. apply filter_In in Hq.
  rewrite Forall_forall in Hr. apply Hr, Hq.
Qed.

Lemma distinct_rows_no_dup ary : no_dup_rows (distinct_rows ary).
Proof.
  induction ary as [|a ary IH]; simpl; auto.
  split; [|apply no_dup_rows_filter, IH].
  apply Forall_forall. intros q Hq. apply filter_In in Hq.
  destruct Hq as [_ Hq]. apply negb_true_iff in Hq. exact Hq.
Qed.

Lemma index_of_nth rows : forall j d,
  no_dup_rows rows -> j < length rows ->
  index_of (nth j rows d) rows = j.
Proof.
  induction rows as [|r rows IH]; intros j d Hn Hj; simpl in *; [lia|].
  destruct Hn as [Hr Hn]. destruct j as [|j].
  - rewrite prm_eqb_refl. reflexivity.
  - rewrite Forall_forall in Hr.
    rewrite (Hr (nth j rows d)) by (apply nth_In; lia).
    f_equal. apply IH; [exact Hn | lia].
Qed.

(** The inverse index sends every voxel to one of the distinct rows,
    and every distinct row is the row of some voxel. *)
Lemma fnd_unq_rws_ok ary :
  unq_inverse_ok ary (fst (fnd_unq_rws ary)) (snd (fnd_unq_rws ary)).
Proof.
  unfold fnd_unq_rws, unq_inverse_ok. simpl. split; [|split].
  - apply length_map.
  - intros v u E. rewrite nth_error_map in E.
    destruct (nth_error ary v) as [p|] eqn:Ep; [|discriminate].
    inversion E; subst. apply index_of_lt, distinct_rows_covers.
    eapply nth_error_In; eauto.
  - intros r Hr.
    pose proof (nth_In (distinct_rows ary) (0, 0, 0)%Q Hr) as Hin.
    apply distinct_rows_In in Hin.
    apply In_nth_error in Hin. destruct Hin as (v & Ev).
    exists v. rewrite nth_error_map, Ev. simpl. f_equal.
    apply index_of_nth; [apply distinct_rows_no_dup | exact Hr].
Qed.

(** The distinct row a voxel is sent to holds that voxel's numbers. *)
Lemma fnd_unq_rws_row ary v p :
  nth_error ary v = Some p ->
  exists u r,
    nth_error (snd (fnd_unq_rws ary)) v = Some u
    /\ nth_error (fst (fnd_unq_rws ary)) u = Some r
    /\ prm_eqb r p = true.
Proof.
  intros Ev. unfold fnd_unq_rws. simpl.
  rewrite nth_error_map, Ev. simpl.
  assert (Hc : existsb (fun r => prm_eqb r p) (distinct_rows ary) = true)
    by (apply distinct_rows_covers; eapply nth_error_In; eauto).
  exists (index_of p (distinct_rows ary)).
  revert Hc. generalize (distinct_rows ary) as rows.
  induction rows as [|r rows IH]; simpl; [discriminate|].
  destruct (prm_eqb r p) eqn:E; simpl.
  - intros _. exists r. auto.
  - intros H. destruct (IH H) as (r' & A & B & C).
    exists r'. auto.
Qed.
End UnqFacts.

(** ** The lookup in terms of the grid rows *)

Lemma matches_false_iff grid p :
  (forall i, matches grid p i = false)
  <-> (forall g, In g grid -> row_isclose tol g p = false).
Proof.
  unfold matches. split.
  - intros H g Hg. apply In_nth_error in Hg. destruct Hg as (i & Ei).
    specialize (H i). rewrite Ei in H. exact H.
  - intros H i. destruct (nth_error grid i) as [g|] eqn:Ei; [|reflexivity].
    apply H. eapply nth_error_In; eauto.
Qed.

Lemma find_model_none grid p :
  (forall g, In g grid -> row_isclose tol g p = false) ->
  find_model grid p = inl IndexError.
Proof.
  intros H. pose proof (proj2 (matches_false_iff grid p) H) as H'.
  destruct (find_model_spec grid p) as [[E _]|(i & _ & _ & Hm & _)];
    [exact E|]. rewrite H' in Hm. discriminate.
Qed.

Lemma find_model_first grid p i :
  matches grid p i = true ->
  (forall j, j < i -> matches grid p j = false) ->
  find_model grid p = inr (PyInt i).
Proof.
  intros Hi Hlt.
  destruct (find_model_spec grid p) as [[_ H]|(k & E & _ & Hk & Hklt)].
  - rewrite H in Hi. discriminate.
  - destruct (Nat.lt_trichotomy k i) as [L|[->|L]]; [| exact E |].
    + rewrite (Hlt k L) in Hk. discriminate.
    + rewrite (Hklt i L) in Hi. discriminate.
Qed.

Lemma find_model_some grid p i :
  matches grid p i = true ->
  exists j, find_model grid p = inr (PyInt j) /\ j <= i
            /\ matches grid p j = true.
Proof.
  intros Hi.
  destruct (find_model_spec grid p) as [[_ H]|(k & E & _ & Hk & Hklt)].
  - rewrite H in Hi. discriminate.
  - exists k. repeat split; auto.
    destruct (Nat.le_gt_cases k i) as [L|L]; [exact L|].
    rewrite (Hklt i L) in Hi. discriminate.
Qed.

(** ** Running the whole reconstruction *)

Section RunFacts.
Variable fnd_unq_rws : list prm -> list prm * list nat.
Variable aryBetas : list (list Q).
Variable aryMdlParams : list prm.
Variable aryPrfTc : list (list (list Q)).
Variable aryIntGssPrm : list prm.

Let run := run_loop fnd_unq_rws aryBetas aryMdlParams aryPrfTc aryIntGssPrm.
Let save :=
  save_tc_to_nii fnd_unq_rws aryBetas aryMdlParams aryPrfTc aryIntGssPrm.

Lemma save_after_loop st :
  run = (inr tt, st) ->
  save = if length (vecVxlTst st) =? list_sum (vecVxlTst st)
         then (inr (aryFitTc st), st)
         else (inl AssertionError, st).
Proof.
  unfold run, save, run_loop, save_tc_to_nii, save_tc_to_nii_from.
  intros H. unfold bind at 1. rewrite H. unfold check_visited. run_monad.
  destruct (length (vecVxlTst st) =? list_sum (vecVxlTst st)); reflexivity.
Qed.

Lemma save_loop_raises e st :
  run = (inl e, st) -> save = (inl e, st).
Proof.
  unfold run, save, run_loop, save_tc_to_nii, save_tc_to_nii_from.
  intros H. unfold bind at 1. rewrite H. reflexivity.
Qed.

Lemma save_stdout : stdout (snd save) = stdout (snd run).
Proof.
  destruct run as [[e|[]] st] eqn:E.
  - fold run in E. rewrite (save_loop_raises _ _ E). reflexivity.
  - fold run in E. rewrite (save_after_loop _ E).
    destruct (_ =? _); reflexivity.
Qed.

(** After a loop that ended, every counter is 0 or 1: 1 exactly for the
    voxels whose inverse index is one of the row indices. *)
Lemma run_counters st :
  run = (inr tt, st) ->
  length (vecVxlTst st) = length aryIntGssPrm
  /\ forall v, v < length aryIntGssPrm ->
       nth v (vecVxlTst st) 0
       = if in_range (snd (fnd_unq_rws aryIntGssPrm)) v 0
                     (length (fst (fnd_unq_rws aryIntGssPrm)))
         then 1 else 0.
Proof.
  unfold run, run_loop, reconstruct_loop.
  destruct (fnd_unq_rws aryIntGssPrm) as [rows U]. simpl. intros H.
  apply loop_ok in H. destruct H as (Hl & Hc & _).
  simpl in Hl, Hc. rewrite repeat_length in Hl, Hc.
  split; [exact Hl|]. intros v Hv. rewrite (Hc v Hv), nth_repeat.
  reflexivity.
Qed.
End RunFacts.

(** On its own, the assertion of line 114 compares a sum: it would let
    the counters [2; 0] pass.  The loop never produces such counters
    ([run_counters]). *)
Lemma check_visited_compares_sum :
  fst (check_visited (mkRecState [2; 0] [] [])) = inr tt.
Proof. reflexivity. Qed.

(* ================================================================== *)
(** * Claims about the reconstruction *)

(** C1.  After the loop over the distinct winning-parameter triples has
    ended, the visit counter has one entry per voxel; the assertion that
    follows raises (AssertionError, the code's coverage error) exactly
    when some voxel's count differs from 1, and the reconstruction
    returns the fitted time courses exactly when every count is 1. *)
Theorem coverage_assertion
        (fnd_unq_rws : list prm -> list prm * list nat)
        (aryBetas : list (list Q)) (aryMdlParams : list prm)
        (aryPrfTc : list (list (list Q))) (aryIntGssPrm : list prm)
        (st : rec_state) :
  run_loop fnd_unq_rws aryBetas aryMdlParams aryPrfTc aryIntGssPrm
  = (inr tt, st) ->
  length (vecVxlTst st) = length aryIntGssPrm
  /\ ((exists v, v < length aryIntGssPrm /\ nth v (vecVxlTst st) 0 <> 1)
      <-> save_tc_to_nii fnd_unq_rws aryBetas aryMdlParams aryPrfTc
                         aryIntGssPrm
          = (inl AssertionError, st))
  /\ ((forall v, v < length aryIntGssPrm -> nth v (vecVxlTst st) 0 = 1)
      <-> save_tc_to_nii fnd_unq_rws aryBetas aryMdlParams aryPrfTc
                         aryIntGssPrm
          = (inr (aryFitTc st), st)).
Proof.
  intros H.
  destruct (run_counters _ _ _ _ _ _ H) as [Hl Hc].
  assert (Hle : forall v, v < length (vecVxlTst st) ->
                          nth v (vecVxlTst st) 0 <= 1).
  { intros v Hv. rewrite Hc by lia. destruct (in_range _ _ _ _); lia. }
  pose proof (sum_eq_length_iff _ Hle) as Hsum. rewrite Hl in Hsum.
  split; [exact Hl|].
  rewrite (save_after_loop _ _ _ _ _ _ H), Hl.
  destruct (length aryIntGssPrm =? list_sum (vecVxlTst st)) eqn:E.
  - apply Nat.eqb_eq in E. pose proof (proj1 Hsum E) as E'. split; split.
    + intros (v & Hv & Hne). elim Hne. apply E', Hv.
    + discriminate.
    + reflexivity.
    + intros _. exact E'.
  - apply Nat.eqb_neq in E. split; split.
    + reflexivity.
    + intros _.
      assert (Hex : ~ forall v, v < length aryIntGssPrm ->
                                nth v (vecVxlTst st) 0 = 1)
        by (intros A; apply E, Hsum, A).
      rewrite <- Hl in *. apply exists_not_one, Hex.
    + intros A. elim E. apply Hsum, A.
    + discriminate.
Qed.

Lemma coverage_assertion_witness :
  save_tc_to_nii ex_bad_unq ex_betas ex_grid ex_tc ex_win
  = (inl AssertionError,
     snd (run_loop ex_bad_unq ex_betas ex_grid ex_tc ex_win))
  /\ save_tc_to_nii ModelCreationUtils.fnd_unq_rws ex_betas ex_grid ex_tc
                    ex_win
     = (inr (aryFitTc (snd (run_loop ModelCreationUtils.fnd_unq_rws ex_betas
                                     ex_grid ex_tc ex_win))),
        snd (run_loop ModelCreationUtils.fnd_unq_rws ex_betas ex_grid ex_tc
                      ex_win)).
Proof.
  split.
  - apply (coverage_assertion ex_bad_unq ex_betas ex_grid ex_tc ex_win
             (snd (run_loop ex_bad_unq ex_betas ex_grid ex_tc ex_win))).
    + vm_compute. reflexivity.
    + exists 1. split; [vm_compute; lia | vm_compute; discriminate].
  - apply (coverage_assertion ModelCreationUtils.fnd_unq_rws ex_betas ex_grid
             ex_tc ex_win
             (snd (run_loop ModelCreationUtils.fnd_unq_rws ex_betas ex_grid
                            ex_tc ex_win))).
    + vm_compute. reflexivity.
    + intros v Hv. change (length ex_win) with 3 in Hv.
      destruct v as [|[|[|v]]]; [reflexivity | reflexivity | reflexivity | lia].
Defined.

(** C9.  With the distinct rows and the inverse index of [fnd_unq_rws]
    (as the spec describes it), well-shaped arrays and every grid lookup
    of the loop succeeding: each voxel is selected by the mask of exactly
    one distinct row, no mask is empty, the reconstruction returns, every
    entry of the visit counter is 1 and nothing was printed. *)
Theorem groups_partition_voxels
        (aryBetas : list (list Q)) (aryMdlParams : list prm)
        (aryPrfTc : list (list (list Q))) (aryIntGssPrm : list prm) :
  shapes_ok (length aryIntGssPrm) aryBetas aryMdlParams aryPrfTc ->
  (forall vecPrm,
     In vecPrm (fst (ModelCreationUtils.fnd_unq_rws aryIntGssPrm)) ->
     exists m, find_model aryMdlParams vecPrm = inr (PyInt m)) ->
  let aryUnqRows := fst (ModelCreationUtils.fnd_unq_rws aryIntGssPrm) in
  let aryUnqInd := snd (ModelCreationUtils.fnd_unq_rws aryIntGssPrm) in
  (forall voxel, voxel < length aryIntGssPrm ->
     exists! indRow,
       indRow < length aryUnqRows
       /\ nth voxel (lgc_of aryUnqInd indRow) false = true)
  /\ (forall indRow, indRow < length aryUnqRows ->
        forallb negb (lgc_of aryUnqInd indRow) = false)
  /\ exists st,
       save_tc_to_nii ModelCreationUtils.fnd_unq_rws aryBetas aryMdlParams
                      aryPrfTc aryIntGssPrm
       = (inr (aryFitTc st), st)
       /\ length (vecVxlTst st) = length aryIntGssPrm
       /\ (forall voxel, voxel < length aryIntGssPrm ->
             nth voxel (vecVxlTst st) 0 = 1)
       /\ stdout st = [].
Proof.
  intros (Sb & Sg & Sk) Hfind rows U.
  destruct (UnqFacts.fnd_unq_rws_ok aryIntGssPrm) as (L & Hlt & Hsurj).
  fold rows in Hlt, Hsurj, Hfind. fold U in L, Hlt, Hsurj.
  assert (Hmask : forall indRow, indRow < length rows ->
                    forallb negb (lgc_of U indRow) = false).
  { intros indRow Hr. destruct (Hsurj indRow Hr) as (v & Ev).
    destruct (forallb negb (lgc_of U indRow)) eqn:E; [|reflexivity].
    pose proof (proj1 (forallb_negb_nth _) E v) as Hv.
    unfold lgc_of in Hv. rewrite nth_map_eqb, Ev, Nat.eqb_refl in Hv.
    discriminate. }
  split; [|split; [exact Hmask|]].
  - intros v Hv.
    destruct (nth_error U v) as [u|] eqn:Eu;
      [| apply nth_error_None in Eu; lia].
    exists u. split.
    + split; [eapply Hlt; eauto|].
      unfold lgc_of. rewrite nth_map_eqb, Eu. apply Nat.eqb_refl.
    + intros j [_ Hj]. unfold lgc_of in Hj. rewrite nth_map_eqb, Eu in Hj.
      apply Nat.eqb_eq in Hj. exact Hj.
  - destruct (loop_runs aryBetas aryMdlParams aryPrfTc U rows 0
                (init_state aryPrfTc (length aryIntGssPrm))) as (st & Hst).
    + simpl. rewrite repeat_length. exact L.
    + congruence.
    + simpl. rewrite repeat_length. exact L.
    + intros p Hp. destruct (Hfind p Hp) as (m & EF).
      destruct (find_model_spec aryMdlParams p)
        as [[E _]|(i & E & Hi & _)]; [congruence|].
      assert (i = m) by congruence. subst i.
      destruct (nth_error aryPrfTc m) as [mat|] eqn:EM;
        [| apply nth_error_None in EM; lia].
      exists m, mat. repeat split; auto.
      rewrite Forall_forall in Sk. apply Sk. eapply nth_error_In; eauto.
    + assert (Hrun : run_loop ModelCreationUtils.fnd_unq_rws aryBetas
                       aryMdlParams aryPrfTc aryIntGssPrm = (inr tt, st)).
      { unfold run_loop, reconstruct_loop.
        rewrite (surjective_pairing
                   (ModelCreationUtils.fnd_unq_rws aryIntGssPrm)).
        exact Hst. }
      destruct (run_counters _ _ _ _ _ _ Hrun) as [Hl Hc].
      fold rows in Hc. fold U in Hc.
      assert (Hone : forall v, v < length aryIntGssPrm ->
                               nth v (vecVxlTst st) 0 = 1).
      { intros v Hv. rewrite (Hc v Hv). unfold in_range.
        destruct (nth_error U v) as [u|] eqn:Eu;
          [| apply nth_error_None in Eu; lia].
        apply Hlt in Eu. simpl.
        destruct (u <? length rows) eqn:E; [reflexivity|].
        apply Nat.ltb_ge in E. lia. }
      exists st. repeat split; auto.
      * rewrite (save_after_loop _ _ _ _ _ _ Hrun).
        assert (E : length (vecVxlTst st) = list_sum (vecVxlTst st)).
        { apply sum_eq_length_iff; rewrite Hl.
          - intros v Hv. rewrite Hone by exact Hv. lia.
          - exact Hone. }
        apply Nat.eqb_eq in E. rewrite E. reflexivity.
      * apply loop_stdout in Hst. destruct Hst as (idx & E & Hidx).
        rewrite E. simpl.
        clear E. induction idx as [|j idx IH]; [reflexivity|]. simpl.
        unfold no_voxel_msg at 1.
        rewrite Hmask by (specialize (Hidx j (or_introl eq_refl)); lia).
        simpl. apply IH. intros k Hk. apply Hidx. right. exact Hk.
Qed.

Lemma groups_partition_voxels_witness :
  exists st,
    save_tc_to_nii ModelCreationUtils.fnd_unq_rws ex_betas ex_grid ex_tc
                   ex_win
    = (inr (aryFitTc st), st)
    /\ length (vecVxlTst st) = length ex_win
    /\ (forall voxel, voxel < length ex_win ->
          nth voxel (vecVxlTst st) 0 = 1)
    /\ stdout st = [].
Proof.
  refine (proj2 (proj2 (groups_partition_voxels ex_betas ex_grid ex_tc ex_win
                          _ _))).
  - unfold shapes_ok. split; [reflexivity|]. split; [vm_compute; lia|].
    repeat constructor.
  - intros vecPrm H. vm_compute in H.
    destruct H as [<-|[<-|[]]]; [exists 0 | exists 3]; reflexivity.
Defined.

Section LoopRaises.
Variable aryBetas : list (list Q).
Variable aryMdlParams : list prm.
Variable aryPrfTc : list (list (list Q)).
Variable aryUnqInd : list nat.

(** A loop over rows one of which finds no model does not end
    normally. *)
Lemma loop_no_model rows vecPrm e0 :
  In vecPrm rows ->
  find_model aryMdlParams vecPrm = inl e0 ->
  forall i s, exists e s',
    for_enumerate (loop_body aryBetas aryMdlParams aryPrfTc aryUnqInd)
                  i rows s = (inl e, s').
Proof.
  induction rows as [|p0 rows IH]; intros Hin EF i s; [contradiction|].
  simpl. unfold bind.
  destruct (loop_body aryBetas aryMdlParams aryPrfTc aryUnqInd i p0 s)
    as [[e|[]] s1] eqn:EB.
  - exists e, s1. reflexivity.
  - destruct Hin as [->|Hin].
    + rewrite (loop_body_no_model _ _ _ _ _ _ _ _ EF) in EB. discriminate.
    + apply IH; assumption.
Qed.
End LoopRaises.

(** C10.  The grid lookup yields the index of a grid row that passes the
    closeness test, or raises IndexError when no row passes; it never
    yields [None], and no run of the reconstruction prints the
    "No model found" line. *)
Theorem lookup_is_index_or_raises :
  (forall (aryMdlParams : list prm) (vecPrm : prm),
     (find_model aryMdlParams vecPrm = inl IndexError
      /\ forall g, In g aryMdlParams -> row_isclose tol g vecPrm = false)
     \/ (exists i g,
           find_model aryMdlParams vecPrm = inr (PyInt i)
           /\ nth_error aryMdlParams i = Some g
           /\ row_isclose tol g vecPrm = true))
  /\ (forall aryMdlParams vecPrm, find_model aryMdlParams vecPrm <> inr PyNone)
  /\ (forall fnd_unq_rws aryBetas aryMdlParams aryPrfTc aryIntGssPrm,
        ~ In "---No model found"%string
             (stdout (snd (save_tc_to_nii fnd_unq_rws aryBetas aryMdlParams
                                          aryPrfTc aryIntGssPrm)))).
Proof.
  split; [|split].
  - intros grid p.
    destruct (find_model_spec grid p) as [[E H]|(i & E & Hi & Hm & _)].
    + left. split; [exact E|]. apply matches_false_iff, H.
    + right. unfold matches in Hm.
      destruct (nth_error grid i) as [g|] eqn:Eg; [|discriminate].
      exists i, g. auto.
  - apply find_model_not_None.
  - intros fnd betas grid tc prms. rewrite save_stdout.
    unfold run_loop, reconstruct_loop.
    destruct (fnd prms) as [rows U].
    destruct (for_enumerate _ 0 rows _) as [r st] eqn:E.
    apply loop_stdout in E. destruct E as (idx & E & _). simpl in *.
    rewrite E. clear E. induction idx as [|j idx IH]; simpl; [tauto|].
    intros H. apply in_app_or in H. destruct H as [H|H]; [|exact (IH H)].
    unfold no_voxel_msg in H. destruct (forallb negb _); simpl in H.
    + destruct H as [H|[]]. discriminate.
    + exact H.
Qed.

(** ** The closeness test in exact arithmetic *)

Lemma np_isclose_iff (a b atol : Q) :
  np_isclose a b rtol_default atol = true
  <-> (Qabs (a - b) <= atol + rtol_default * Qabs b)%Q.
Proof. unfold np_isclose. apply Qle_bool_iff. Qed.

Lemma np_isclose_near (a b : Q) :
  (Qabs (a - b) < 1 # 100000)%Q -> np_isclose a b rtol_default tol = true.
Proof.
  intros H. apply np_isclose_iff.
  pose proof (Qabs_nonneg b) as Hb. unfold rtol_default. lra.
Qed.

Lemma np_isclose_far (a b : Q) :
  (tol + rtol_default * Qabs b < Qabs (a - b))%Q ->
  np_isclose a b rtol_default tol = false.
Proof.
  intros H. destruct (np_isclose a b rtol_default tol) eqn:E; [|reflexivity].
  apply np_isclose_iff in E. lra.
Qed.

Lemma np_isclose_refl (a : Q) : np_isclose a a rtol_default tol = true.
Proof.
  apply np_isclose_iff.
  assert (E : (Qabs (a - a) == 0)%Q).
  { assert (Ea : (a - a == 0)%Q) by ring. rewrite Ea. reflexivity. }
  pose proof (Qabs_nonneg a) as Ha. unfold rtol_default. rewrite E. lra.
Qed.

(** A winning triple that is itself a row of the grid finds a model. *)
Lemma find_model_of_grid_row (aryMdlParams : list prm) (vecPrm : prm) :
  In vecPrm aryMdlParams ->
  exists m, find_model aryMdlParams vecPrm = inr (PyInt m).
Proof.
  intros Hin. apply In_nth_error in Hin. destruct Hin as (i & Ei).
  assert (Hm : matches aryMdlParams vecPrm i = true).
  { unfold matches. rewrite Ei. destruct vecPrm as [[x y] sd].
    unfold row_isclose. rewrite !np_isclose_refl. reflexivity. }
  destruct (find_model_some _ _ _ Hm) as (j & E & _). exists j. exact E.
Qed.

(** C2, as stated, fails.  Two grid rows lie within 1e-4 of the triple
    (0, 0, 1), yet the lookup raises nothing and takes row 0; and no row
    of the second grid lies within the absolute tolerance 1e-4 of the
    triple, yet the lookup raises nothing and takes row 0. *)
Lemma grid_lookup_counterexample :
  (length (filter (fun g => abs_close tol g (0, 0, 1)%Q) ex_fine_grid) = 2
   /\ count_matches ex_fine_grid (0, 0, 1)%Q = 2
   /\ find_model ex_fine_grid (0, 0, 1)%Q = inr (PyInt 0))
  /\ (length (filter (fun g => abs_close tol g ex_deg_prm) ex_deg_grid) = 0
      /\ find_model ex_deg_grid ex_deg_prm = inr (PyInt 0)).
Proof. vm_compute. repeat split. Qed.

(* ================================================================== *)
(** * The reconstruction with floating-point operations *)

(** The first version of the reconstruction is the instance with the
    exact test and the exact product. *)
Lemma find_model_exact (aryMdlParams : list prm) (vecPrm : prm) :
  find_model aryMdlParams vecPrm
  = find_model_fp (row_isclose tol) aryMdlParams vecPrm.
Proof. reflexivity. Qed.

Lemma run_loop_exact fnd_unq_rws aryBetas aryMdlParams aryPrfTc aryIntGssPrm :
  run_loop fnd_unq_rws aryBetas aryMdlParams aryPrfTc aryIntGssPrm
  = run_loop_fp (row_isclose tol) exact_dot fnd_unq_rws aryBetas aryMdlParams
                aryPrfTc aryIntGssPrm.
Proof. reflexivity. Qed.

Lemma save_tc_to_nii_exact fnd_unq_rws aryBetas aryMdlParams aryPrfTc
      aryIntGssPrm :
  save_tc_to_nii fnd_unq_rws aryBetas aryMdlParams aryPrfTc aryIntGssPrm
  = save_tc_to_nii_fp (row_isclose tol) exact_dot fnd_unq_rws aryBetas
                      aryMdlParams aryPrfTc aryIntGssPrm.
Proof. reflexivity. Qed.

Section FpLookupFacts.
Variable fp_isclose : prm -> prm -> bool.
Variable aryMdlParams : list prm.

Lemma nth_fp_isclose (p : prm) (i : nat) :
  nth i (map (fun g => fp_isclose g p) aryMdlParams) false
  = match nth_error aryMdlParams i with
    | Some g => fp_isclose g p
    | None => false
    end.
Proof.
  generalize aryMdlParams as grid.
  intros grid; revert i;
    induction grid as [|g l IH]; intros [|i]; simpl; auto.
Qed.

(** Whatever the test: the lookup gives the first row that passes it, or
    raises [IndexError] when no row passes. *)
Lemma find_model_fp_spec (p : prm) :
  (find_model_fp fp_isclose aryMdlParams p = inl IndexError
   /\ forall g, In g aryMdlParams -> fp_isclose g p = false)
  \/ (exists i g,
        find_model_fp fp_isclose aryMdlParams p = inr (PyInt i)
        /\ nth_error aryMdlParams i = Some g
        /\ fp_isclose g p = true
        /\ forall j g', j < i -> nth_error aryMdlParams j = Some g' ->
                        fp_isclose g' p = false).
Proof.
  unfold find_model_fp, np_where.
  destruct (np_where_from_spec
              (map (fun g => fp_isclose g p) aryMdlParams) 0)
    as [[E F]|(k & rest & E & Hk & Hl & Hj)]; rewrite E; simpl.
  - left. split; auto. intros g Hg.
    apply In_nth_error in Hg. destruct Hg as (i & Ei).
    pose proof (proj1 (forallb_negb_nth _) F i) as Hi.
    rewrite nth_fp_isclose, Ei in Hi. exact Hi.
  - right. rewrite nth_fp_isclose in Hk.
    destruct (nth_error aryMdlParams k) as [g|] eqn:Eg; [|discriminate].
    exists k, g. repeat split; auto.
    intros j g' Hlt Ej. specialize (Hj j Hlt).
    rewrite nth_fp_isclose, Ej in Hj. exact Hj.
Qed.

Lemma find_model_fp_none (p : prm) :
  (forall g, In g aryMdlParams -> fp_isclose g p = false) ->
  find_model_fp fp_isclose aryMdlParams p = inl IndexError.
Proof.
  intros H.
  destruct (find_model_fp_spec p) as [[E _]|(i & g & _ & Eg & Hg & _)];
    [exact E|].
  rewrite (H g) in Hg by (eapply nth_error_In; eauto). discriminate.
Qed.

Lemma find_model_fp_first (p : prm) (i : nat) (g : prm) :
  nth_error aryMdlParams i = Some g ->
  fp_isclose g p = true ->
  (forall j g', j < i -> nth_error aryMdlParams j = Some g' ->
                fp_isclose g' p = false) ->
  find_model_fp fp_isclose aryMdlParams p = inr (PyInt i).
Proof.
  intros Eg Hg Hlt.
  destruct (find_model_fp_spec p) as [[_ H]|(k & gk & E & Ek & Hk & Hklt)].
  - rewrite (H g) in Hg by (eapply nth_error_In; eauto). discriminate.
  - destruct (Nat.lt_trichotomy k i) as [L|[->|L]]; [| exact E |].
    + rewrite (Hlt k gk L Ek) in Hk. discriminate.
    + rewrite (Hklt i g L Eg) in Hg. discriminate.
Qed.


Lemma find_model_fp_not_None (p : prm) :
  find_model_fp fp_isclose aryMdlParams p <> inr PyNone.
Proof.
  destruct (find_model_fp_spec p) as [[E _]|(i & g & E & _)]; rewrite E;
    discriminate.
Qed.
End FpLookupFacts.

Section FpLoopFacts.
Variable fp_isclose : prm -> prm -> bool.
Variable fp_dot : list (list Q) -> list (list Q) -> list (list Q).
Variable aryBetas : list (list Q).
Variable aryMdlParams : list prm.
Variable aryPrfTc : list (list (list Q)).
Variable aryUnqInd : list nat.

(** The product has a row for every row of weights. *)
Hypothesis fp_dot_rows : forall a b, length (fp_dot a b) = length a.

Let body :=
  loop_body_fp fp_isclose fp_dot aryBetas aryMdlParams aryPrfTc aryUnqInd.

(** A pass that ends without an exception: what it found and what it
    wrote. *)
Lemma loop_body_fp_ok indRow vecPrm s s' :
  body indRow vecPrm s = (inr tt, s') ->
  let lgc := lgc_of aryUnqInd indRow in
  exists m mat,
    find_model_fp fp_isclose aryMdlParams vecPrm = inr (PyInt m)
    /\ nth_error aryPrfTc m = Some mat
    /\ length aryUnqInd = length aryBetas
    /\ length aryUnqInd = length (aryFitTc s)
    /\ aryFitTc s'
       = mask_assign lgc (aryFitTc s) (fp_dot (mask_select lgc aryBetas) mat)
    /\ forallb (fun w => length w =? length mat) (mask_select lgc aryBetas)
       = true.
Proof.
  unfold body, loop_body_fp, lgc_of.
  set (lgc := map (fun u => u =? indRow) aryUnqInd).
  assert (Hlen : length lgc = length aryUnqInd) by apply length_map.
  run_monad.
  destruct (forallb negb lgc); simpl;
    (destruct (find_model_fp fp_isclose aryMdlParams vecPrm) as [e|[|m]]
       eqn:EF; simpl;
     [ discriminate
     | exfalso;
       exact (find_model_fp_not_None fp_isclose aryMdlParams vecPrm EF)
     | ]);
    unfold check_mask;
    (destruct (length lgc =? length (vecVxlTst s)) eqn:E1; simpl;
     [| discriminate]);
    unfold get_model_tc;
    (destruct (nth_error aryPrfTc m) as [mat|] eqn:EM; simpl;
     [| discriminate]);
    (destruct (length lgc =? length aryBetas) eqn:E2; simpl;
     [| discriminate]);
    unfold np_dot_fp;
    (destruct (forallb (fun w => length w =? length mat)
                       (mask_select lgc aryBetas)) eqn:EK; simpl;
     [| discriminate]);
    (destruct (length lgc =? length (aryFitTc s)) eqn:E3; simpl;
     [| discriminate]);
    intros H; inversion H; subst; simpl;
    apply Nat.eqb_eq in E1, E2, E3;
    exists m, mat; repeat split; auto; congruence.
Qed.

(** A pass whose lookup raises ends with that exception. *)
Lemma loop_body_fp_no_model indRow vecPrm s e :
  find_model_fp fp_isclose aryMdlParams vecPrm = inl e ->
  fst (body indRow vecPrm s) = inl e.
Proof.
  intros EF. unfold body, loop_body_fp. run_monad.
  destruct (forallb negb _); simpl; rewrite EF; reflexivity.
Qed.

(** A loop over rows one of which finds no model does not end
    normally. *)
Lemma loop_fp_no_model rows vecPrm e0 :
  In vecPrm rows ->
  find_model_fp fp_isclose aryMdlParams vecPrm = inl e0 ->
  forall i s, exists e s', for_enumerate body i rows s = (inl e, s').
Proof.
  induction rows as [|p0 rows IH]; intros Hin EF i s; [contradiction|].
  simpl. unfold bind.
  destruct (body i p0 s) as [[e|[]] s1] eqn:EB.
  - exists e, s1. reflexivity.
  - destruct Hin as [->|Hin].
    + pose proof (loop_body_fp_no_model i vecPrm s e0 EF) as Hb.
      rewrite EB in Hb. discriminate.
    + apply IH; assumption.
Qed.

(** What a loop that ends without an exception has stored, from row
    index [i] on. *)
Lemma loop_fp_ok rows : forall i s s',
  for_enumerate body i rows s = (inr tt, s') ->
  (forall v, in_range aryUnqInd v i (length rows) = false ->
     nth_error (aryFitTc s') v = nth_error (aryFitTc s) v)
  /\ (forall v u vecPrm,
        nth_error aryUnqInd v = Some u -> i <= u ->
        nth_error rows (u - i) = Some vecPrm ->
        exists m mat w vecFit,
          find_model_fp fp_isclose aryMdlParams vecPrm = inr (PyInt m)
          /\ nth_error aryPrfTc m = Some mat
          /\ nth_error aryBetas v = Some w
          /\ length w = length mat
          /\ nth_error (aryFitTc s') v = Some vecFit
          /\ nth_error (mask_select (lgc_of aryUnqInd u) aryBetas)
                       (mask_rank (lgc_of aryUnqInd u) v) = Some w
          /\ nth_error (fp_dot (mask_select (lgc_of aryUnqInd u) aryBetas)
                               mat)
                       (mask_rank (lgc_of aryUnqInd u) v) = Some vecFit).
Proof.
  induction rows as [|p0 rows IH]; intros i s s' H.
  - simpl in H. inversion H; subst. split; auto.
    intros v u vecPrm _ _ E. destruct (u - i); discriminate.
  - simpl in H. unfold bind in H.
    destruct (body i p0 s) as [[e|[]] s1] eqn:EB; [discriminate|].
    destruct (loop_body_fp_ok _ _ _ _ EB)
      as (m & mat & EF & EM & L2 & L3 & Ef & EK).
    destruct (IH _ _ _ H) as (Hu & Hg).
    assert (Hlgc : length (lgc_of aryUnqInd i) = length aryUnqInd)
      by apply length_map.
    assert (Hsel : forall v,
               nth_error (aryFitTc s1) v
               = if nth v (lgc_of aryUnqInd i) false
                 then nth_error
                        (fp_dot (mask_select (lgc_of aryUnqInd i) aryBetas)
                                mat)
                        (mask_rank (lgc_of aryUnqInd i) v)
                 else nth_error (aryFitTc s) v).
    { intros v. rewrite Ef. apply mask_assign_rank; [congruence|].
      rewrite fp_dot_rows. apply mask_select_length. congruence. }
    split.
    + intros v Hr. simpl length in Hr. rewrite in_range_step in Hr.
      apply orb_false_iff in Hr. destruct Hr as [En Hr].
      rewrite (Hu v Hr), Hsel, En. reflexivity.
    + intros v u vecPrm Eu Hle Er.
      destruct (Nat.eq_dec u i) as [->|Hne].
      * rewrite Nat.sub_diag in Er. simpl in Er. inversion Er; subst p0.
        assert (En : nth v (lgc_of aryUnqInd i) false = true).
        { unfold lgc_of. rewrite nth_map_eqb, Eu. apply Nat.eqb_refl. }
        assert (Hv : v < length aryBetas).
        { rewrite <- L2. apply nth_error_Some. congruence. }
        destruct (nth_error aryBetas v) as [w|] eqn:Ew;
          [| apply nth_error_None in Ew; lia].
        assert (Erank : nth_error (mask_select (lgc_of aryUnqInd i) aryBetas)
                                  (mask_rank (lgc_of aryUnqInd i) v)
                        = Some w).
        { rewrite mask_select_rank by (congruence || exact En). exact Ew. }
        destruct (nth_error
                    (fp_dot (mask_select (lgc_of aryUnqInd i) aryBetas) mat)
                    (mask_rank (lgc_of aryUnqInd i) v))
          as [vecFit|] eqn:Efit.
        2:{ apply nth_error_None in Efit. rewrite fp_dot_rows in Efit.
            assert (Hlt : mask_rank (lgc_of aryUnqInd i) v
                          < length (mask_select (lgc_of aryUnqInd i)
                                                aryBetas))
              by (apply nth_error_Some; congruence).
            lia. }
        exists m, mat, w, vecFit. repeat split; auto.
        -- apply Nat.eqb_eq.
           exact (mask_select_forallb _ _ _ _ _ EK En Ew).
        -- rewrite (Hu v (in_range_excl _ _ _ _ En)), Hsel, En.
           exact Efit.
      * apply (Hg v u vecPrm Eu); [lia|].
        replace (u - i) with (S (u - S i)) in Er by lia. exact Er.
Qed.
End FpLoopFacts.

Section FpRunFacts.
Variable fp_isclose : prm -> prm -> bool.
Variable fp_dot : list (list Q) -> list (list Q) -> list (list Q).
Variable fnd_unq_rws : list prm -> list prm * list nat.
Variable aryBetas : list (list Q).
Variable aryMdlParams : list prm.
Variable aryPrfTc : list (list (list Q)).
Variable aryIntGssPrm : list prm.

Hypothesis fp_dot_rows : forall a b, length (fp_dot a b) = length a.

Let run := run_loop_fp fp_isclose fp_dot fnd_unq_rws aryBetas aryMdlParams
                       aryPrfTc aryIntGssPrm.
Let save := save_tc_to_nii_fp fp_isclose fp_dot fnd_unq_rws aryBetas
                              aryMdlParams aryPrfTc aryIntGssPrm.

Lemma save_fp_after_loop st :
  run = (inr tt, st) ->
  save = if length (vecVxlTst st) =? list_sum (vecVxlTst st)
         then (inr (aryFitTc st), st)
         else (inl AssertionError, st).
Proof.
  unfold run, save, run_loop_fp, save_tc_to_nii_fp, save_tc_to_nii_from_fp.
  intros H. unfold bind at 1. rewrite H. unfold check_visited. run_monad.
  destruct (length (vecVxlTst st) =? list_sum (vecVxlTst st)); reflexivity.
Qed.

Lemma save_fp_loop_raises e st :
  run = (inl e, st) -> save = (inl e, st).
Proof.
  unfold run, save, run_loop_fp, save_tc_to_nii_fp, save_tc_to_nii_from_fp.
  intros H. unfold bind at 1. rewrite H. reflexivity.
Qed.

(** What a run that returns has stored for a voxel whose inverse index
    points at a distinct row. *)
Lemma save_fp_rows aryFit st aryUnqRows aryUnqInd :
  fnd_unq_rws aryIntGssPrm = (aryUnqRows, aryUnqInd) ->
  save = (inr aryFit, st) ->
  forall indRow vecPrm voxel,
    nth_error aryUnqRows indRow = Some vecPrm ->
    nth_error aryUnqInd voxel = Some indRow ->
    exists m mat w vecFit,
      find_model_fp fp_isclose aryMdlParams vecPrm = inr (PyInt m)
      /\ nth_error aryPrfTc m = Some mat
      /\ nth_error aryBetas voxel = Some w
      /\ length w = length mat
      /\ nth_error aryFit voxel = Some vecFit
      /\ nth_error (mask_select (lgc_of aryUnqInd indRow) aryBetas)
                   (mask_rank (lgc_of aryUnqInd indRow) voxel) = Some w
      /\ nth_error (fp_dot (mask_select (lgc_of aryUnqInd indRow) aryBetas)
                           mat)
                   (mask_rank (lgc_of aryUnqInd indRow) voxel) = Some vecFit.
Proof.
  intros EU Hsave indRow vecPrm voxel Er Ev.
  destruct run as [[e|[]] st0] eqn:Hrun.
  - fold run in Hrun. rewrite (save_fp_loop_raises _ _ Hrun) in Hsave.
    discriminate.
  - fold run in Hrun. rewrite (save_fp_after_loop _ Hrun) in Hsave.
    destruct (_ =? _); inversion Hsave; subst.
    unfold run, run_loop_fp, reconstruct_loop_fp in Hrun.
    rewrite EU in Hrun. apply loop_fp_ok in Hrun; [|exact fp_dot_rows].
    destruct Hrun as (_ & Hg).
    apply (Hg voxel indRow vecPrm Ev (Nat.le_0_l _)).
    rewrite Nat.sub_0_r. exact Er.
Qed.
End FpRunFacts.

(** ** The entries of a product row *)







(** C2, amended.  Whatever the closeness test that numpy computes for
    [np.isclose(aryMdlParams, vecPrm, atol=1e-04).all(axis=1)]: the
    lookup raises IndexError exactly when no grid row passes the test;
    then the pass of the loop for that triple raises IndexError and the
    reconstruction does not return.  When some row passes, the lookup
    takes the first such row, whether or not later rows pass too. *)
Theorem grid_lookup (fp_isclose : prm -> prm -> bool)
        (aryMdlParams : list prm) (vecPrm : prm) :
  (find_model_fp fp_isclose aryMdlParams vecPrm = inl IndexError
   <-> forall g, In g aryMdlParams -> fp_isclose g vecPrm = false)
  /\ ((forall g, In g aryMdlParams -> fp_isclose g vecPrm = false) ->
      (forall fp_dot aryBetas aryPrfTc aryUnqInd indRow s,
         fst (loop_body_fp fp_isclose fp_dot aryBetas aryMdlParams
                           aryPrfTc aryUnqInd indRow vecPrm s)
         = inl IndexError)
      /\ (forall fp_dot fnd_unq_rws aryBetas aryPrfTc aryIntGssPrm,
            In vecPrm (fst (fnd_unq_rws aryIntGssPrm)) ->
            exists e,
              fst (save_tc_to_nii_fp fp_isclose fp_dot fnd_unq_rws aryBetas
                                     aryMdlParams aryPrfTc aryIntGssPrm)
              = inl e))
  /\ (forall i g,
        nth_error aryMdlParams i = Some g ->
        fp_isclose g vecPrm = true ->
        (forall j g', j < i -> nth_error aryMdlParams j = Some g' ->
                      fp_isclose g' vecPrm = false) ->
        find_model_fp fp_isclose aryMdlParams vecPrm = inr (PyInt i)).
Proof.
  split; [|split].
  - split; [|apply find_model_fp_none]. intros E.
    destruct (find_model_fp_spec fp_isclose aryMdlParams vecPrm)
      as [[_ H]|(i & g & E' & _)]; [exact H|]. congruence.
  - intros H.
    pose proof (find_model_fp_none fp_isclose aryMdlParams vecPrm H) as EF.
    split.
    + intros fp_dot betas tc U indRow s.
      apply loop_body_fp_no_model. exact EF.
    + intros fp_dot fnd betas tc prms Hin.
      unfold save_tc_to_nii_fp, save_tc_to_nii_from_fp, reconstruct_loop_fp.
      destruct (fnd prms) as [rows U]. simpl in Hin.
      destruct (loop_fp_no_model fp_isclose fp_dot betas aryMdlParams tc U
                  rows vecPrm _ Hin EF 0 (init_state tc (length prms)))
        as (e & s' & E).
      exists e. unfold bind at 1. rewrite E. reflexivity.
  - apply find_model_fp_first.
Qed.

Lemma grid_lookup_witness :
  find_model_fp row_isclose_float64 ex_grid (5, 5, 5)%Q = inl IndexError
  /\ find_model_fp row_isclose_float64 ex_fine_grid64 (0, 0, 1)%Q
     = inr (PyInt 0).
Proof.
  split.
  - apply (proj1 (grid_lookup row_isclose_float64 ex_grid (5, 5, 5)%Q)).
    intros g Hg. vm_compute in Hg.
    destruct Hg as [<-|[<-|[<-|[<-|[]]]]]; vm_compute; reflexivity.
  - apply (proj2 (proj2 (grid_lookup row_isclose_float64 ex_fine_grid64
                           (0, 0, 1)%Q))
             0 (0, 0, 1)%Q).
    + reflexivity.
    + vm_compute. reflexivity.
    + intros j g' Hj. lia.
Defined.





(* ================================================================== *)
(** * Rounding, and the closeness test in rounded arithmetic *)

Lemma round_half_even_error (r : Q) :
  (Qabs (inject_Z (round_half_even r) - r) <= 1 # 2)%Q.
Proof.
  unfold round_half_even.
  pose proof (Qfloor_le r) as Hle. pose proof (Qlt_floor r) as Hlt.
  rewrite inject_Z_plus in Hlt. change (inject_Z 1) with 1%Q in Hlt.
  apply Qabs_Qle_condition.
  destruct (Qcompare_spec (r - inject_Z (Qfloor r)) (1 # 2)) as [E|L|G].
  - destruct (Z.even (Qfloor r));
      [|rewrite inject_Z_plus; change (inject_Z 1) with 1%Q]; split; lra.
  - split; lra.
  - rewrite inject_Z_plus. change (inject_Z 1) with 1%Q. split; lra.
Qed.

Lemma Qlog2_floor_le (a : Q) : (0 < a)%Q -> (2 ^ Qlog2_floor a <= a)%Q.
Proof.
  intros Ha. unfold Qlog2_floor.
  destruct (Qle_bool _ a) eqn:E; [apply Qle_bool_imp_le; exact E|].
  destruct a as [n d]. simpl Qnum. simpl Qden.
  assert (Hn : (0 < n)%Z).
  { unfold Qlt in Ha. simpl in Ha. lia. }
  pose proof (Z.log2_spec n Hn) as [Hn1 _].
  pose proof (Z.log2_spec (Zpos d) (Pos2Z.is_pos d)) as [_ Hd2].
  pose proof (Z.log2_nonneg n) as Hln.
  pose proof (Z.log2_nonneg (Zpos d)) as Hld.
  set (ln := Z.log2 n) in *. set (ld := Z.log2 (Zpos d)) in *.
  replace (ln - ld - 1)%Z with (ln - Z.succ ld)%Z by lia.
  rewrite Qpower_minus by (intros H; discriminate H).
  change 2%Q with (inject_Z 2).
  rewrite <- !Zpower_Qpower by lia.
  assert (HD : (0 < 2 ^ Z.succ ld)%Z) by (apply Z.pow_pos_nonneg; lia).
  apply Qle_shift_div_r.
  - unfold Qlt. simpl. lia.
  - unfold Qle. simpl. 
    assert (0 < 2 ^ ln)%Z by (apply Z.pow_pos_nonneg; lia).
    nia.
Qed.

Lemma round_nearest_even_error (prec emin : Z) (x : Q) :
  (10 <= prec)%Z -> (emin - prec <= -30)%Z ->
  (Qabs (round_nearest_even prec emin x - x)
   <= (1 # 1000) * Qabs x + (1 # 1000000000))%Q.
Proof.
  intros Hp He. unfold round_nearest_even.
  destruct (Qeq_bool x 0) eqn:E0.
  - apply Qeq_bool_eq in E0. rewrite E0. vm_compute. discriminate.
  - apply Qeq_bool_neq in E0.
    assert (Ha : (0 < Qabs x)%Q).
    { destruct (Qlt_le_dec 0 x) as [L|L].
      - rewrite (Qabs_pos x) by lra. exact L.
      - rewrite (Qabs_neg x L). apply Qle_lt_or_eq in L.
        destruct L as [L|L]; [lra | contradiction]. }
    set (a := Qabs x) in *.
    set (e := Z.max (Qlog2_floor a) emin).
    set (q := (2 ^ (e - (prec - 1)))%Q).
    assert (Hq : (0 < q)%Q) by (apply Qpower_0_lt; reflexivity).
    pose proof (round_half_even_error (a / q)) as Hn.
    set (n := round_half_even (a / q)) in *.
    rewrite Qred_correct.
    (* the distance is that of n * q to a *)
    assert (Hd : (Qabs (inject_Z n * q - a) <= (1 # 2) * q)%Q).
    { assert (Eq : (inject_Z n * q - a == (inject_Z n - a / q) * q)%Q)
        by (field; lra).
      rewrite Eq, Qabs_Qmult, (Qabs_pos q) by lra.
      apply Qmult_le_compat_r; lra. }
    assert (Hs : (Qabs ((if Qle_bool 0 x then 1 else -1) * inject_Z n * q - x)
                  == Qabs (inject_Z n * q - a))%Q).
    { unfold a. destruct (Qle_bool 0 x) eqn:Es.
      - apply Qle_bool_iff in Es. rewrite (Qabs_pos x Es).
        apply Qabs_wd. ring.
      - assert (Hx : (x <= 0)%Q).
        { destruct (Qlt_le_dec 0 x) as [L|L]; [|exact L].
          apply Qlt_le_weak, Qle_bool_iff in L. congruence. }
        rewrite (Qabs_neg x Hx), <- (Qabs_opp (inject_Z n * q - - x)).
        apply Qabs_wd. ring. }
    rewrite Hs.
    (* half a step is small against a, or small *)
    assert (Hhalf : ((1 # 2) * q == 2 ^ (e - prec))%Q).
    { unfold q. replace (e - (prec - 1))%Z with ((e - prec) + 1)%Z by lia.
      rewrite Qpower_plus by (intros H; discriminate H).
      change (2 ^ 1)%Q with 2%Q. ring. }
    assert (Hstep : ((1 # 2) * q <= (1 # 1000) * a + (1 # 1000000000))%Q).
    { rewrite Hhalf. unfold e.
      destruct (Z.max_spec (Qlog2_floor a) emin) as [[Hlt ->]|[Hle ->]].
      - assert (H30 : (2 ^ (emin - prec) <= 2 ^ (-30))%Q)
          by (apply Qpower_le_compat_l; [lia | discriminate]).
        assert (Hc : (2 ^ (-30) <= 1 # 1000000000)%Q)
          by (vm_compute; discriminate).
        lra.
      - pose proof (Qlog2_floor_le a Ha) as Hl.
        set (l := Qlog2_floor a) in *.
        assert (Ep : (2 ^ (l - prec) == 2 ^ l * 2 ^ (- prec))%Q).
        { replace (l - prec)%Z with (l + - prec)%Z by lia.
          apply Qpower_plus. intros H; discriminate H. }
        assert (H10 : (2 ^ (- prec) <= 2 ^ (-10))%Q)
          by (apply Qpower_le_compat_l; [lia | discriminate]).
        assert (Hc : (2 ^ (-10) <= 1 # 1000)%Q) by (vm_compute; discriminate).
        assert (Hpos : (0 < 2 ^ l)%Q) by (apply Qpower_0_lt; reflexivity).
        assert (Hpos' : (0 < 2 ^ (- prec))%Q)
          by (apply Qpower_0_lt; reflexivity).
        rewrite Ep.
        assert (Hm : (2 ^ l * 2 ^ (- prec) <= a * (1 # 1000))%Q).
        { apply Qle_trans with (a * 2 ^ (- prec))%Q.
          - apply Qmult_le_compat_r; lra.
          - rewrite !(Qmult_comm a). apply Qmult_le_compat_r; lra. }
        lra. }
    lra.
Qed.

(** The roundings of 0.1, of [2^24 + 1] and [2^24 + 3] (ties go to the
    even neighbour), of [2^53 + 1], and of half the least positive
    single. *)
Lemma rounding_examples :
  np_float32 (1 # 10) = (13421773 # 134217728)%Q
  /\ np_float64 (1 # 10) = (3602879701896397 # 36028797018963968)%Q
  /\ np_float32 16777217 = 16777216%Q
  /\ np_float32 16777219 = 16777220%Q
  /\ np_float64 9007199254740993 = 9007199254740992%Q
  /\ np_float32 (2 ^ (-150)) = 0%Q.
Proof. vm_compute. repeat split. Qed.

Lemma rounding_ok_exact : rounding_ok (fun x => x) (1 # 10000) (1 # 100000).
Proof.
  split; [|split].
  - intros x. assert (E : (x - x == 0)%Q) by ring. rewrite E.
    pose proof (Qabs_nonneg x). change (Qabs 0) with 0%Q. lra.
  - vm_compute. discriminate.
  - vm_compute. discriminate.
Qed.


Lemma rounding_ok_float32 : rounding_ok np_float32 fl32_atol fl32_rtol.
Proof.
  split; [|split].
  - intros x. apply round_nearest_even_error; lia.
  - vm_compute. discriminate.
  - vm_compute. discriminate.
Qed.

(** The exact test is the rounded test with nothing rounded. *)
Lemma row_isclose_exact (g p : prm) :
  row_isclose tol g p
  = row_isclose_fl (fun x => x) (1 # 10000) (1 # 100000) g p.
Proof. destruct g as [[gx gy] gs], p as [[px py] ps]. reflexivity. Qed.

(** At the threshold the exact test and the test in double precision
    part: the double nearest to 1e-4 lies above 1e-4, so as an x position
    against 0 it fails the exact test, and passes the test that compares
    it with itself. *)
Lemma tests_part_at_the_threshold :
  row_isclose tol ex_fine_row64 (0, 0, 1)%Q = false
  /\ row_isclose_float64 ex_fine_row64 (0, 0, 1)%Q = true.
Proof. split; vm_compute; reflexivity. Qed.

Lemma rnd_bounds (rnd : Q -> Q) (x : Q) :
  (Qabs (rnd x - x) <= (1 # 1000) * Qabs x + (1 # 1000000000))%Q ->
  (0 <= x)%Q ->
  ((999 # 1000) * x - (1 # 1000000000) <= rnd x
   /\ rnd x <= (1001 # 1000) * x + (1 # 1000000000))%Q.
Proof.
  intros H Hx. rewrite (Qabs_pos x Hx) in H.
  apply Qabs_Qle_condition in H. destruct H as [H1 H2]. split; lra.
Qed.

Lemma Qabs_rnd_bounds (rnd : Q -> Q) (x : Q) :
  (Qabs (rnd x - x) <= (1 # 1000) * Qabs x + (1 # 1000000000))%Q ->
  ((999 # 1000) * Qabs x - (1 # 1000000000) <= Qabs (rnd x)
   /\ Qabs (rnd x) <= (1001 # 1000) * Qabs x + (1 # 1000000000))%Q.
Proof.
  intros H. apply Qabs_Qle_condition in H. destruct H as [H1 H2].
  pose proof (Qabs_nonneg x) as Hx.
  split.
  - apply (Qabs_case x); intros Hs.
    + pose proof (Qle_Qabs (rnd x)).
      assert (Habs : (Qabs x == x)%Q) by (apply Qabs_pos; exact Hs).
      rewrite Habs in *. lra.
    + pose proof (Qle_Qabs (- rnd x)) as Hn. rewrite Qabs_opp in Hn.
      assert (Habs : (Qabs x == - x)%Q) by (apply Qabs_neg; exact Hs).
      rewrite Habs in *. lra.
  - apply Qabs_Qle_condition.
    apply (Qabs_case x); intros Hs.
    + assert (Habs : (Qabs x == x)%Q) by (apply Qabs_pos; exact Hs).
      rewrite Habs in *. split; lra.
    + assert (Habs : (Qabs x == - x)%Q) by (apply Qabs_neg; exact Hs).
      rewrite Habs in *. split; lra.
Qed.

Section RoundedFacts.
Variable rnd : Q -> Q.
Variable fl_atol fl_rtol : Q.
Hypothesis Hok : rounding_ok rnd fl_atol fl_rtol.

(** The rounded threshold lies within half a percent of the exact
    one. *)
Lemma threshold_bounds (b : Q) :
  let T := rnd (fl_atol + rnd (fl_rtol * Qabs b))%Q in
  ((997 # 10000000) <= T
   /\ T <= (1003 # 10000000) + (1004 # 100000000) * Qabs b)%Q.
Proof.
  destruct Hok as (Hr & Ha & Hrt).
  apply Qabs_Qle_condition in Ha, Hrt.
  destruct Ha as [Ha1 Ha2], Hrt as [Hr1 Hr2].
  pose proof (Qabs_nonneg b) as HB.
  set (B := Qabs b) in *.
  assert (Hz0 : (0 <= fl_rtol * B)%Q).
  { apply Qmult_le_0_compat; lra. }
  assert (Hz1 : (fl_rtol * B <= (1001 # 100000000) * B)%Q).
  { apply Qmult_le_compat_r; lra. }
  destruct (rnd_bounds rnd _ (Hr _) Hz0) as [P1 P2].
  set (P := rnd (fl_rtol * B)) in *.
  assert (Hx0 : (0 <= fl_atol + P)%Q) by lra.
  destruct (rnd_bounds rnd _ (Hr _) Hx0) as [T1 T2].
  simpl. split; lra.
Qed.


Lemma np_isclose_fl_well_beyond (a b : Q) :
  ((11 # 100000) + (11 # 1000000) * Qabs b < Qabs (a - b))%Q ->
  np_isclose_fl rnd fl_atol fl_rtol a b = false.
Proof.
  intros H. unfold np_isclose_fl.
  destruct (Qle_bool _ _) eqn:E; [|reflexivity].
  apply Qle_bool_iff in E.
  destruct (threshold_bounds b) as [_ T2].
  destruct Hok as (Hr & _).
  destruct (Qabs_rnd_bounds rnd _ (Hr (a - b)%Q)) as [D1 _].
  pose proof (Qabs_nonneg b). simpl in T2. lra.
Qed.

Lemma np_isclose_fl_within (a b : Q) :
  np_isclose_fl rnd fl_atol fl_rtol a b = true ->
  (Qabs (a - b) <= (11 # 100000) + (11 # 1000000) * Qabs b)%Q.
Proof.
  intros H.
  destruct (Qlt_le_dec ((11 # 100000) + (11 # 1000000) * Qabs b)
                       (Qabs (a - b))) as [L|L]; [|exact L].
  rewrite (np_isclose_fl_well_beyond _ _ L) in H. discriminate.
Qed.



(** Two rows that are well apart do not both pass the test against one
    triple. *)
Lemma rows_well_apart_not_both (g g' p : prm) :
  rows_well_apart g g' p ->
  row_isclose_fl rnd fl_atol fl_rtol g p = true ->
  row_isclose_fl rnd fl_atol fl_rtol g' p = false.
Proof.
  destruct g as [[gx gy] gs], g' as [[hx hy] hs], p as [[px py] ps].
  unfold rows_well_apart, row_isclose_fl. intros Hfar Hg.
  apply andb_true_iff in Hg. destruct Hg as [Hg Hs].
  apply andb_true_iff in Hg. destruct Hg as [Hx Hy].
  destruct (np_isclose_fl rnd fl_atol fl_rtol hx px) eqn:Ex; [|reflexivity].
  destruct (np_isclose_fl rnd fl_atol fl_rtol hy py) eqn:Ey; [|reflexivity].
  destruct (np_isclose_fl rnd fl_atol fl_rtol hs ps) eqn:Es; [|reflexivity].
  apply np_isclose_fl_within in Hx, Hy, Hs, Ex, Ey, Es.
  apply Qabs_diff_Qle_condition in Hx, Hy, Hs, Ex, Ey, Es.
  exfalso. destruct Hfar as [F|[F|F]];
    [ assert (C : (Qabs (gx - hx)
                   <= (22 # 100000) + (22 # 1000000) * Qabs px)%Q)
    | assert (C : (Qabs (gy - hy)
                   <= (22 # 100000) + (22 # 1000000) * Qabs py)%Q)
    | assert (C : (Qabs (gs - hs)
                   <= (22 # 100000) + (22 # 1000000) * Qabs ps)%Q) ];
    try (apply Qabs_diff_Qle_condition; lra); lra.
Qed.
End RoundedFacts.




(** ** Lists of rows of one length *)

Lemma nth_error_concat_uniform {A} (k : nat) (ls : list (list A)) :
  Forall (fun r => length r = k) ls ->
  forall i j, j < k ->
    nth_error (concat ls) (i * k + j)
    = match nth_error ls i with
      | Some r => nth_error r j
      | None => None
      end.
Proof.
  induction 1 as [|r ls Hr _ IH]; intros i j Hj.
  - simpl. destruct i; simpl; [destruct j | destruct (k + i * k + j)];
      reflexivity.
  - simpl. destruct i as [|i]; simpl.
    + rewrite nth_error_app1 by lia. reflexivity.
    + rewrite nth_error_app2 by lia.
      replace (k + i * k + j - length r) with (i * k + j) by lia.
      apply IH, Hj.
Qed.

Lemma length_concat_uniform {A} (k : nat) (ls : list (list A)) :
  Forall (fun r => length r = k) ls -> length (concat ls) = length ls * k.
Proof.
  induction 1 as [|r ls Hr _ IH]; simpl; [reflexivity|].
  rewrite length_app, IH, Hr. reflexivity.
Qed.

Lemma chunks_length {A} (n len : nat) : forall l : list A,
  length (chunks n len l) = n.
Proof. induction n as [|n IH]; intros l; simpl; auto. Qed.

Lemma chunks_nth_error {A} (n len : nat) : forall (l : list A) i,
  i < n ->
  nth_error (chunks n len l) i = Some (firstn len (skipn (i * len) l)).
Proof.
  induction n as [|n IH]; intros l i Hi; [lia|].
  destruct i as [|i]; simpl; [reflexivity|].
  rewrite IH by lia. rewrite skipn_skipn.
  replace (i * len + len) with (len + i * len) by lia. reflexivity.
Qed.

Lemma chunks_uniform {A} (n len : nat) : forall l : list A,
  n * len <= length l ->
  Forall (fun ch => length ch = len) (chunks n len l).
Proof.
  induction n as [|n IH]; intros l Hl; simpl; constructor.
  - rewrite length_firstn. simpl in Hl. lia.
  - apply IH. rewrite length_skipn. simpl in Hl. lia.
Qed.

Lemma nth_error_firstn_skipn {A} (l : list A) (a len e : nat) :
  e < len ->
  nth_error (firstn len (skipn a l)) e = nth_error l (a + e).
Proof.
  intros He. rewrite nth_error_firstn.
  destruct (e <? len) eqn:E; [| apply Nat.ltb_ge in E; lia].
  rewrite nth_error_skipn. reflexivity.
Qed.

(** ** Quarter turns *)

Lemma column_of_nth_error {A} (n j : nat) (g : list (list A)) :
  Forall (fun r => length r = n) g -> j < n ->
  length (column_of j g) = length g
  /\ forall a, nth_error (column_of j g) a
               = match nth_error g a with
                 | Some r => nth_error r j
                 | None => None
                 end.
Proof.
  induction 1 as [|r g Hr _ IH]; intros Hj.
  - split; [reflexivity|]. intros [|a]; reflexivity.
  - destruct (IH Hj) as [IHl IHn]. unfold column_of in *. simpl.
    destruct (nth_error r j) as [x|] eqn:Ex;
      [| apply nth_error_None in Ex; lia].
    simpl. split; [congruence|].
    intros [|a]; simpl; [symmetry; exact Ex | apply IHn].
Qed.

(** Cell [(i, j)] of a grid turned by [k = 3] is cell [(m - 1 - j, i)] of
    the grid of [m] rows and [n] columns it was turned from. *)
Lemma rot90_grid_3_cell {A} (m n : nat) (g : list (list A)) :
  length g = m -> Forall (fun r => length r = n) g ->
  length (rot90_grid 3 g) = (if m =? 0 then 0 else n)
  /\ Forall (fun r => length r = m) (rot90_grid 3 g)
  /\ forall i j, i < n -> j < m ->
       match nth_error (rot90_grid 3 g) i with
       | Some r => nth_error r j
       | None => None
       end
       = match nth_error g (m - 1 - j) with
         | Some r => nth_error r i
         | None => None
         end.
Proof.
  intros Hm Hn. change (rot90_grid 3 g) with (map (@rev A) (transpose g)).
  unfold transpose.
  assert (Hcols : ncols g = if m =? 0 then 0 else n).
  { destruct g as [|r g]; simpl in *; subst m; [reflexivity|].
    inversion Hn; subst. reflexivity. }
  rewrite !length_map, length_seq, Hcols.
  split; [reflexivity|]. split.
  - apply Forall_forall. intros r Hr.
    apply in_map_iff in Hr. destruct Hr as (col & <- & Hcol).
    apply in_map_iff in Hcol. destruct Hcol as (j & <- & Hj).
    apply in_seq in Hj. rewrite length_rev.
    destruct (m =? 0) eqn:E; [lia|].
    rewrite (proj1 (column_of_nth_error n j g Hn ltac:(lia))). exact Hm.
  - intros i j Hi Hj.
    assert (E : (m =? 0) = false) by (apply Nat.eqb_neq; lia).
    rewrite E. rewrite !nth_error_map, nth_error_seq.
    destruct (i <? n) eqn:Ei; [| apply Nat.ltb_ge in Ei; lia].
    simpl. destruct (column_of_nth_error n i g Hn Hi) as [Hl Hc].
    rewrite nth_error_rev, Hl, Hm.
    destruct (j <? m) eqn:Ej; [| apply Nat.ltb_ge in Ej; lia].
    rewrite Hc. replace (m - S j) with (m - 1 - j) by lia. reflexivity.
Qed.

Lemma to_grid_cell (m n c : nat) (dat : list Q) :
  length dat = m * (n * c) ->
  length (to_grid m n c dat) = m
  /\ Forall (fun r => length r = n) (to_grid m n c dat)
  /\ Forall (Forall (fun cell => length cell = c)) (to_grid m n c dat)
  /\ forall a b e, a < m -> b < n -> e < c ->
       match nth_error (to_grid m n c dat) a with
       | Some r => match nth_error r b with
                   | Some cell => nth_error cell e
                   | None => None
                   end
       | None => None
       end
       = nth_error dat ((a * n + b) * c + e).
Proof.
  intros Hlen. unfold to_grid.
  assert (Hrows : Forall (fun ch => length ch = n * c)
                         (chunks m (n * c) dat))
    by (apply chunks_uniform; lia).
  split; [rewrite length_map; apply chunks_length|]. split; [|split].
  - apply Forall_forall. intros r Hr. apply in_map_iff in Hr.
    destruct Hr as (ch & <- & _). apply chunks_length.
  - apply Forall_forall. intros r Hr. apply in_map_iff in Hr.
    destruct Hr as (ch & <- & Hch).
    rewrite Forall_forall in Hrows. apply chunks_uniform.
    rewrite (Hrows ch Hch). lia.
  - intros a b e Ha Hb He.
    rewrite nth_error_map, chunks_nth_error by exact Ha. simpl.
    rewrite chunks_nth_error by exact Hb.
    rewrite nth_error_firstn_skipn by exact He.
    rewrite nth_error_firstn_skipn by nia.
    f_equal. nia.
Qed.

Lemma of_grid_cell (rows cols c : nat) (g : list (list (list Q))) :
  Forall (fun r => length r = cols) g ->
  Forall (Forall (fun cell => length cell = c)) g ->
  forall i j e, j < cols -> e < c ->
    nth_error (of_grid g) ((i * cols + j) * c + e)
    = match nth_error g i with
      | Some r => match nth_error r j with
                  | Some cell => nth_error cell e
                  | None => None
                  end
      | None => None
      end.
Proof.
  intros Hcols Hcells i j e Hj He. unfold of_grid.
  assert (Hflat : Forall (fun r => length r = cols * c) (map (@concat Q) g)).
  { apply Forall_forall. intros r Hr. apply in_map_iff in Hr.
    destruct Hr as (row & <- & Hrow).
    rewrite Forall_forall in Hcols, Hcells.
    rewrite (length_concat_uniform c) by (apply Hcells, Hrow).
    rewrite (Hcols row Hrow). reflexivity. }
  replace ((i * cols + j) * c + e) with (i * (cols * c) + (j * c + e)) by nia.
  rewrite (nth_error_concat_uniform (cols * c)) by (assumption || nia).
  rewrite nth_error_map.
  destruct (nth_error g i) as [row|] eqn:Erow; [|reflexivity]. simpl.
  apply nth_error_In in Erow. rewrite Forall_forall in Hcells.
  apply (nth_error_concat_uniform c); [apply Hcells, Erow | exact He].
Qed.

Lemma rot90_grid_3_cells_In {A} (g : list (list A)) r x :
  In r (rot90_grid 3 g) -> In x r -> exists r', In r' g /\ In x r'.
Proof.
  change (rot90_grid 3 g) with (map (@rev A) (transpose g)).
  unfold transpose, column_of. intros Hr Hx.
  apply in_map_iff in Hr. destruct Hr as (col & <- & Hcol).
  apply in_rev in Hx.
  apply in_map_iff in Hcol. destruct Hcol as (j & <- & _).
  apply in_flat_map in Hx. destruct Hx as (r' & Hr' & Hx).
  exists r'. split; [exact Hr'|].
  destruct (nth_error r' j) as [y|] eqn:Ey; [|contradiction].
  destruct Hx as [<-|[]]. eapply nth_error_In; eauto.
Qed.

(** [np.rot90(ary, k=3)] turns the first two axes a quarter turn to the
    right: entry [(i, j, e)] of the result is entry [(m - 1 - j, i, e)]
    of [ary]. *)
Lemma np_rot90_3_entry (ary : ndarray) (m n : nat) (rest : list nat) :
  shape ary = m :: n :: rest ->
  wf_array ary ->
  let c := fold_right Nat.mul 1 rest in
  exists rot,
    np_rot90 ary 3 = inr rot
    /\ shape rot = n :: m :: rest
    /\ wf_array rot
    /\ forall i j e, i < n -> j < m -> e < c ->
         nth_error (data rot) ((i * m + j) * c + e)
         = nth_error (data ary) (((m - 1 - j) * n + i) * c + e).
Proof.
  intros Hs Hwf c. unfold wf_array in Hwf. rewrite Hs in Hwf. simpl in Hwf.
  fold c in Hwf. unfold np_rot90. rewrite Hs. fold c.
  set (G := to_grid m n c (data ary)).
  destruct (to_grid_cell m n c (data ary) Hwf) as (Gl & Gn & Gc & Gcell).
  fold G in Gl, Gn, Gc, Gcell.
  destruct (rot90_grid_3_cell m n G Gl Gn) as (Rl & Rm & Rcell).
  assert (Rc : Forall (Forall (fun cell => length cell = c))
                      (rot90_grid 3 G)).
  { apply Forall_forall. intros r Hr. apply Forall_forall. intros x Hx.
    destruct (rot90_grid_3_cells_In G r x Hr Hx) as (r' & Hr' & Hx').
    rewrite Forall_forall in Gc. specialize (Gc r' Hr').
    rewrite Forall_forall in Gc. apply Gc, Hx'. }
  eexists. split; [reflexivity|]. simpl. split; [reflexivity|]. split.
  - unfold wf_array. simpl. fold c. unfold of_grid.
    rewrite (length_concat_uniform (m * c)).
    + rewrite length_map, Rl. destruct (m =? 0) eqn:E; [|reflexivity].
      apply Nat.eqb_eq in E. rewrite E. lia.
    + apply Forall_forall. intros r Hr. apply in_map_iff in Hr.
      destruct Hr as (row & <- & Hrow).
      rewrite Forall_forall in Rm, Rc.
      rewrite (length_concat_uniform c) by (apply Rc, Hrow).
      rewrite (Rm row Hrow). reflexivity.
  - intros i j e Hi Hj He.
    rewrite (of_grid_cell n m c _ Rm Rc i j e Hj He).
    rewrite <- (Gcell (m - 1 - j) i e) by (assumption || lia).
    specialize (Rcell i j Hi Hj).
    destruct (nth_error (rot90_grid 3 G) i) as [r|];
      destruct (nth_error G (m - 1 - j)) as [r'|];
      first [ rewrite Rcell; reflexivity
            | rewrite <- Rcell; reflexivity
            | reflexivity ].
Qed.

(** ** Paths *)

Lemma string_length_append (s t : string) :
  String.length (s ++ t) = String.length s + String.length t.
Proof. induction s as [|a s IH]; simpl; auto. Qed.

Lemma append_inj_l (s t u : string) : (s ++ t = s ++ u)%string -> t = u.
Proof.
  induction s as [|a s IH]; simpl; intros H; [exact H|].
  inversion H. auto.
Qed.

Lemma endswith_params (base : string) :
  endswith (base ++ "_params") ".npy" = false.
Proof.
  induction base as [|a base IH]; [reflexivity|].
  simpl append. cbn [endswith]. rewrite IH.
  destruct (String.eqb_spec (String a (base ++ "_params")) ".npy") as [E|_];
    [|reflexivity].
  apply (f_equal String.length) in E. simpl in E.
  rewrite string_length_append in E. simpl in E. lia.
Qed.

Lemma npy_name_params (base : string) :
  npy_name (base ++ "_params") = ((base ++ "_params") ++ ".npy")%string.
Proof. unfold npy_name. rewrite endswith_params. reflexivity. Qed.

Lemma params_path_differs (base : string) :
  ((base ++ "_params") ++ ".npy" <> base ++ ".npy")%string.
Proof.
  induction base as [|a base IH]; simpl; [discriminate|].
  intros H. inversion H. auto.
Qed.

Lemma write_file_same path ary fs : write_file path ary fs path = Some ary.
Proof. unfold write_file. rewrite String.eqb_refl. reflexivity. Qed.

Lemma write_file_other path path' ary fs :
  path' <> path -> write_file path ary fs path' = fs path'.
Proof.
  intros H. unfold write_file.
  destruct (String.eqb_spec path' path); [contradiction | reflexivity].
Qed.

(** Saving the tensor at [base] and the grid at [base + "_params"], then
    loading [base + ".npy"], gives the tensor back when [base] has no
    [.npy] ending of its own. *)
Lemma np_save_load (base : string) (aryPrfTc aryParams : ndarray) s :
  endswith base ".npy" = false ->
  let s1 := snd (bind (np_save base aryPrfTc)
                      (fun _ => np_save (base ++ "_params") aryParams) s) in
  np_load (base ++ ".npy") s1 = (inr aryPrfTc, s1).
Proof.
  intros Hbase. unfold bind, np_save, modify, np_load. simpl.
  rewrite npy_name_params. unfold npy_name. rewrite Hbase.
  rewrite write_file_other
    by (intros E; exact (params_path_differs base (eq_sym E))).
  rewrite write_file_same. reflexivity.
Qed.

(** ** [model_creation] *)

#[local] Arguments np_rot90 : simpl never.
#[local] Arguments npy_name : simpl never.
#[local] Arguments write_file : simpl never.
#[local] Arguments prms_array : simpl never.

Section ModelCreationFacts.
Variable crt_mdl_prms :
  Z * Z -> Z -> Q -> Q -> Z -> Q -> Q -> Z -> Q -> Q -> string -> string ->
  exn + list prm.
Variable crt_mdl_rsp : ndarray -> Z * Z -> list prm -> Z -> exn + ndarray.
Variable crt_prf_ftr_tc :
  ndarray -> ndarray -> Z -> Q -> Z -> Z -> Z * Z -> Z -> exn + ndarray.

Let create := create_models crt_mdl_prms crt_mdl_rsp crt_prf_ftr_tc.

(** A creation run that returns: what it read, what it computed from
    what, and what it wrote. *)
Lemma create_models_ok cfg s aryPrfTc s1 :
  create cfg s = (inr aryPrfTc, s1) ->
  exists arySptExpInf aryRot aryTmpExpInf aryMdlParams aryMdlRsp,
    files s (strSptExpInf cfg) = Some arySptExpInf
    /\ np_rot90 arySptExpInf 3 = inr aryRot
    /\ files s (strTmpExpInf cfg) = Some aryTmpExpInf
    /\ crt_mdl_prms (tplPngSize cfg) (varNum1 cfg) (varExtXmin cfg)
         (varExtXmax cfg) (varNum2 cfg) (varExtYmin cfg) (varExtYmax cfg)
         (varNumPrfSizes cfg) (varPrfStdMin cfg) (varPrfStdMax cfg)
         "pix" (strKwCrd cfg) = inr aryMdlParams
    /\ crt_mdl_rsp aryRot (tplPngSize cfg) aryMdlParams (varPar cfg)
       = inr aryMdlRsp
    /\ crt_prf_ftr_tc aryMdlRsp aryTmpExpInf (varNumVol cfg) (varTr cfg)
         (varTmpOvsmpl cfg) (switchHrfSet cfg) (tplPngSize cfg)
         (varPar cfg) = inr aryPrfTc
    /\ files s1
       = write_file (npy_name (strPathMdl cfg ++ "_params"))
           (prms_array aryMdlParams)
           (write_file (npy_name (strPathMdl cfg)) aryPrfTc (files s)).
Proof.
  unfold create, create_models.
  unfold bind, lift, print, modify, ret, np_load, np_save. simpl.
  destruct (files s (strSptExpInf cfg)) as [A|] eqn:EA; simpl;
    [|discriminate].
  destruct (np_rot90 A 3) as [e|B] eqn:EB; simpl; [discriminate|].
  destruct (files s (strTmpExpInf cfg)) as [T|] eqn:ETm; simpl;
    [|discriminate].
  destruct (crt_mdl_prms _ _ _ _ _ _ _ _ _ _ _ _) as [e|P] eqn:EP; simpl;
    [discriminate|].
  destruct (crt_mdl_rsp B _ P _) as [e|R] eqn:ER; simpl; [discriminate|].
  destruct (crt_prf_ftr_tc R T _ _ _ _ _ _) as [e|t] eqn:ET; simpl;
    [discriminate|].
  intros H. inversion H; subst. simpl.
  exists A, B, T, P, R. repeat split; auto.
Qed.
End ModelCreationFacts.

(** C5.  With [lgcCrteMdl] false, the loaded tensor is returned when its
    leading dimension is [varNum1 * varNum2 * varNumPrfSizes] and its
    trailing dimension is [varNumVol]; when either disagrees the
    assertion raises (AssertionError, the code's shape-mismatch error)
    and no tensor is returned.  Nothing is written. *)
Theorem load_validates_shape
        (crt_mdl_prms :
           Z * Z -> Z -> Q -> Q -> Z -> Q -> Q -> Z -> Q -> Q -> string ->
           string -> exn + list prm)
        (crt_mdl_rsp : ndarray -> Z * Z -> list prm -> Z -> exn + ndarray)
        (crt_prf_ftr_tc :
           ndarray -> ndarray -> Z -> Q -> Z -> Z -> Z * Z -> Z ->
           exn + ndarray)
        (cfg : config) (s : mc_state) (aryPrfTc : ndarray)
        (varFirst : nat) (rest : list nat) :
  lgcCrteMdl cfg = false ->
  files s (strPathMdl cfg ++ ".npy")%string = Some aryPrfTc ->
  shape aryPrfTc = varFirst :: rest ->
  let varLast := last rest varFirst in
  let varNumMdls := (varNum1 cfg * varNum2 cfg * varNumPrfSizes cfg)%Z in
  let r := model_creation crt_mdl_prms crt_mdl_rsp crt_prf_ftr_tc cfg s in
  ((Z.of_nat varFirst <> varNumMdls \/ Z.of_nat varLast <> varNumVol cfg) ->
   fst r = inl AssertionError)
  /\ ((Z.of_nat varFirst = varNumMdls /\ Z.of_nat varLast = varNumVol cfg) ->
      fst r = inr aryPrfTc)
  /\ files (snd r) = files s.
Proof.
  intros Hl Hf Hs varLast varNumMdls r. unfold r, model_creation.
  rewrite Hl. unfold load_models.
  unfold bind, lift, print, modify, ret, raise, np_load. simpl.
  rewrite Hf, Hs. simpl. fold varLast. fold varNumMdls.
  destruct (Z.of_nat varFirst =? varNumMdls)%Z eqn:E1; simpl;
    [destruct (Z.of_nat varLast =? varNumVol cfg)%Z eqn:E2; simpl|];
    repeat split; auto; intros H;
    try apply Z.eqb_eq in E1; try apply Z.eqb_eq in E2;
    try apply Z.eqb_neq in E1; try apply Z.eqb_neq in E2;
    tauto.
Qed.

Lemma load_validates_shape_witness :
  fst (model_creation ex_crt_mdl_prms ex_crt_mdl_rsp ex_crt_prf_ftr_tc
                      (ex_cfg false "bank") ex_disk)
  = inl AssertionError.
Proof.
  apply (load_validates_shape ex_crt_mdl_prms ex_crt_mdl_rsp
           ex_crt_prf_ftr_tc (ex_cfg false "bank") ex_disk ex_bank 4 [1; 5]).
  - reflexivity.
  - reflexivity.
  - reflexivity.
  - right. vm_compute. discriminate.
Defined.

(** C6, as stated, fails.  With the base path "bank.npy" the tensor is
    written to "bank.npy" and the grid to "bank.npy_params.npy", and the
    load from "bank.npy.npy" finds no file: both for the two [np.save]
    calls followed by the [np.load] call, and for a creation run of
    [model_creation] followed by a loading run. *)
Lemma round_trip_counterexample :
  (let s1 := snd (bind (np_save "bank.npy" ex_bank)
                       (fun _ => np_save ("bank.npy" ++ "_params")
                                         (prms_array ex_grid))
                       (mkMcState no_files [])) in
   fst (np_load ("bank.npy" ++ ".npy") s1) = inl IOError)
  /\ (let run1 := model_creation ex_crt_mdl_prms ex_crt_mdl_rsp
                    ex_crt_prf_ftr_tc (ex_cfg true "bank.npy")
                    (mkMcState (write_file "spt.npy" ex_spt
                                  (write_file "tmp.npy" ex_tmp no_files)) [])
      in
      exists aryPrfTc,
        fst run1 = inr aryPrfTc
        /\ fst (model_creation ex_crt_mdl_prms ex_crt_mdl_rsp
                  ex_crt_prf_ftr_tc (ex_cfg false "bank.npy") (snd run1))
           = inl IOError).
Proof.
  split.
  - vm_compute. reflexivity.
  - eexists. split; vm_compute; reflexivity.
Qed.

(** C6, amended.  When the base path [strPathMdl] does not itself end in
    ".npy", a creation run that returns has written the tensor it returns
    to [strPathMdl + ".npy"] and the parameter grid to
    [strPathMdl + "_params.npy"], and loading [strPathMdl + ".npy"]
    afterwards gives that very tensor. *)
Theorem model_bank_round_trip
        (crt_mdl_prms :
           Z * Z -> Z -> Q -> Q -> Z -> Q -> Q -> Z -> Q -> Q -> string ->
           string -> exn + list prm)
        (crt_mdl_rsp : ndarray -> Z * Z -> list prm -> Z -> exn + ndarray)
        (crt_prf_ftr_tc :
           ndarray -> ndarray -> Z -> Q -> Z -> Z -> Z * Z -> Z ->
           exn + ndarray)
        (cfg : config) (s : mc_state) (aryPrfTc : ndarray) (s1 : mc_state) :
  lgcCrteMdl cfg = true ->
  endswith (strPathMdl cfg) ".npy" = false ->
  model_creation crt_mdl_prms crt_mdl_rsp crt_prf_ftr_tc cfg s
  = (inr aryPrfTc, s1) ->
  np_load (strPathMdl cfg ++ ".npy") s1 = (inr aryPrfTc, s1)
  /\ exists aryMdlParams,
       crt_mdl_prms (tplPngSize cfg) (varNum1 cfg) (varExtXmin cfg)
         (varExtXmax cfg) (varNum2 cfg) (varExtYmin cfg) (varExtYmax cfg)
         (varNumPrfSizes cfg) (varPrfStdMin cfg) (varPrfStdMax cfg)
         "pix"%string (strKwCrd cfg) = inr aryMdlParams
       /\ files s1 ((strPathMdl cfg ++ "_params") ++ ".npy")%string
          = Some (prms_array aryMdlParams).
Proof.
  intros Hl Hbase H. unfold model_creation in H. rewrite Hl in H.
  apply create_models_ok in H.
  destruct H as (A & B & T & P & R & _ & _ & _ & EP & _ & _ & Ef).
  rewrite npy_name_params in Ef. unfold npy_name in Ef.
  rewrite Hbase in Ef. split.
  - unfold np_load. rewrite Ef.
    rewrite write_file_other
      by (intros E; exact (params_path_differs _ (eq_sym E))).
    rewrite write_file_same. reflexivity.
  - exists P. split; [exact EP|]. rewrite Ef. apply write_file_same.
Qed.

Lemma model_bank_round_trip_witness :
  let run1 := model_creation ex_crt_mdl_prms ex_crt_mdl_rsp ex_crt_prf_ftr_tc
                (ex_cfg true "bank") ex_disk in
  np_load ("bank" ++ ".npy") (snd run1)
  = (inr (mkArr [3; 2; 1] [4; 1; 5; 2; 6; 3]%Q), snd run1).
Proof.
  apply (model_bank_round_trip ex_crt_mdl_prms ex_crt_mdl_rsp
           ex_crt_prf_ftr_tc (ex_cfg true "bank") ex_disk).
  - reflexivity.
  - reflexivity.
  - vm_compute. reflexivity.
Defined.

(** C8.  A creation run that returns has loaded the spatial condition
    array, turned it with [np.rot90(..., k=3)] once, and handed the turned
    array, and no other, to [crt_mdl_rsp], whose responses are what the
    time courses are made from.  The turn is a quarter turn to the right:
    for an array of shape [m :: n :: rest] the turned array has shape
    [n :: m :: rest] and its entry [(i, j, e)] is the entry
    [(m - 1 - j, i, e)] of the loaded array. *)
Theorem spatial_array_rotated_once
        (crt_mdl_prms :
           Z * Z -> Z -> Q -> Q -> Z -> Q -> Q -> Z -> Q -> Q -> string ->
           string -> exn + list prm)
        (crt_mdl_rsp : ndarray -> Z * Z -> list prm -> Z -> exn + ndarray)
        (crt_prf_ftr_tc :
           ndarray -> ndarray -> Z -> Q -> Z -> Z -> Z * Z -> Z ->
           exn + ndarray)
        (cfg : config) (s : mc_state) (aryPrfTc : ndarray) (s1 : mc_state) :
  lgcCrteMdl cfg = true ->
  model_creation crt_mdl_prms crt_mdl_rsp crt_prf_ftr_tc cfg s
  = (inr aryPrfTc, s1) ->
  exists arySptExpInf aryRot aryTmpExpInf aryMdlParams aryMdlRsp,
    files s (strSptExpInf cfg) = Some arySptExpInf
    /\ np_rot90 arySptExpInf 3 = inr aryRot
    /\ files s (strTmpExpInf cfg) = Some aryTmpExpInf
    /\ crt_mdl_prms (tplPngSize cfg) (varNum1 cfg) (varExtXmin cfg)
         (varExtXmax cfg) (varNum2 cfg) (varExtYmin cfg) (varExtYmax cfg)
         (varNumPrfSizes cfg) (varPrfStdMin cfg) (varPrfStdMax cfg)
         "pix"%string (strKwCrd cfg) = inr aryMdlParams
    /\ crt_mdl_rsp aryRot (tplPngSize cfg) aryMdlParams (varPar cfg)
       = inr aryMdlRsp
    /\ crt_prf_ftr_tc aryMdlRsp aryTmpExpInf (varNumVol cfg) (varTr cfg)
         (varTmpOvsmpl cfg) (switchHrfSet cfg) (tplPngSize cfg) (varPar cfg)
       = inr aryPrfTc
    /\ (wf_array arySptExpInf ->
        exists m n rest,
          shape arySptExpInf = m :: n :: rest
          /\ shape aryRot = n :: m :: rest
          /\ forall i j e,
               i < n -> j < m -> e < fold_right Nat.mul 1 rest ->
               nth_error (data aryRot)
                         ((i * m + j) * fold_right Nat.mul 1 rest + e)
               = nth_error (data arySptExpInf)
                           (((m - 1 - j) * n + i)
                            * fold_right Nat.mul 1 rest + e)).
Proof.
  intros Hl H. unfold model_creation in H. rewrite Hl in H.
  apply create_models_ok in H.
  destruct H as (A & B & T & P & R & EA & EB & ET & EP & ER & Et & _).
  exists A, B, T, P, R. repeat split; auto.
  intros Hwf. destruct (shape A) as [|m [|n rest]] eqn:Es;
    try (unfold np_rot90 in EB; rewrite Es in EB; discriminate).
  destruct (np_rot90_3_entry A m n rest Es Hwf) as (rot & E & Hs & _ & Hent).
  assert (rot = B) by congruence. subst rot.
  exists m, n, rest. repeat split; auto.
Qed.

Lemma spatial_array_rotated_once_witness :
  exists arySptExpInf aryRot,
    files ex_disk "spt.npy"%string = Some arySptExpInf
    /\ np_rot90 arySptExpInf 3 = inr aryRot
    /\ ex_crt_mdl_rsp aryRot (2, 3)%Z ex_grid 1%Z
       = inr (mkArr [3; 2; 1] [4; 1; 5; 2; 6; 3]%Q).
Proof.
  destruct (spatial_array_rotated_once ex_crt_mdl_prms ex_crt_mdl_rsp
              ex_crt_prf_ftr_tc (ex_cfg true "bank") ex_disk
              (mkArr [3; 2; 1] [4; 1; 5; 2; 6; 3]%Q)
              (snd (model_creation ex_crt_mdl_prms ex_crt_mdl_rsp
                      ex_crt_prf_ftr_tc (ex_cfg true "bank") ex_disk)))
    as (A & B & T & P & R & EA & EB & _ & _ & ER & Et & _).
  - reflexivity.
  - vm_compute. reflexivity.
  - exists A, B. split; [exact EA|]. split; [exact EB|].
    unfold ex_crt_mdl_rsp in *. unfold ex_crt_prf_ftr_tc in Et. congruence.
Defined.

(** ** The spec-modelled [crt_mdl_prms] *)

Lemma length_flat_map_uniform {A B} (f : A -> list B) (k : nat) (l : list A) :
  (forall x, In x l -> length (f x) = k) ->
  length (flat_map f l) = length l * k.
Proof.
  intros H. rewrite flat_map_concat_map, (length_concat_uniform k).
  - rewrite length_map. reflexivity.
  - apply Forall_forall. intros r Hr. apply in_map_iff in Hr.
    destruct Hr as (x & <- & Hx). auto.
Qed.

Lemma nth_error_flat_map_uniform {A B} (f : A -> list B) (k : nat)
      (l : list A) :
  (forall x, In x l -> length (f x) = k) ->
  forall i j, j < k ->
    nth_error (flat_map f l) (i * k + j)
    = match nth_error l i with
      | Some x => nth_error (f x) j
      | None => None
      end.
Proof.
  intros H i j Hj.
  rewrite flat_map_concat_map, (nth_error_concat_uniform k).
  - rewrite nth_error_map. destruct (nth_error l i); reflexivity.
  - apply Forall_forall. intros r Hr. apply in_map_iff in Hr.
    destruct Hr as (x & <- & Hx). auto.
  - exact Hj.
Qed.

Lemma linspace_length lo hi n :
  length (ModelCreationUtils.linspace lo hi n) = n.
Proof.
  unfold ModelCreationUtils.linspace. rewrite length_map. apply length_seq.
Qed.

(** C7.  For positive counts and ranges with min <= max, [crt_mdl_prms]
    (as the spec describes it) returns a grid of exactly
    [varNum1 * varNum2 * varNumPrfSizes] rows; the row at index
    [(ix * varNum2 + iy) * varNumPrfSizes + isd] is the one for the
    [ix]-th x position, [iy]-th y position and [isd]-th size; and any call
    with the same inputs returns the same sequence of rows. *)
Theorem parameter_grid_rows
        (to_unit : Z * Z -> string -> string -> prm -> prm)
        (tplPngSize : Z * Z)
        (varNum1 : Z) (varExtXmin varExtXmax : Q)
        (varNum2 : Z) (varExtYmin varExtYmax : Q)
        (varNumPrfSizes : Z) (varPrfStdMin varPrfStdMax : Q)
        (kwUnt kwCrd : string) :
  (0 < varNum1)%Z -> (0 < varNum2)%Z -> (0 < varNumPrfSizes)%Z ->
  (varExtXmin <= varExtXmax)%Q -> (varExtYmin <= varExtYmax)%Q ->
  (varPrfStdMin <= varPrfStdMax)%Q ->
  exists aryMdlParams,
    ModelCreationUtils.crt_mdl_prms to_unit tplPngSize varNum1 varExtXmin
      varExtXmax varNum2 varExtYmin varExtYmax varNumPrfSizes varPrfStdMin
      varPrfStdMax kwUnt kwCrd = inr aryMdlParams
    /\ length aryMdlParams = Z.to_nat (varNum1 * varNum2 * varNumPrfSizes)
    /\ (forall ix iy isd x y sd,
          nth_error (ModelCreationUtils.linspace varExtXmin varExtXmax
                       (Z.to_nat varNum1)) ix = Some x ->
          nth_error (ModelCreationUtils.linspace varExtYmin varExtYmax
                       (Z.to_nat varNum2)) iy = Some y ->
          nth_error (ModelCreationUtils.linspace varPrfStdMin varPrfStdMax
                       (Z.to_nat varNumPrfSizes)) isd = Some sd ->
          nth_error aryMdlParams
                    ((ix * Z.to_nat varNum2 + iy) * Z.to_nat varNumPrfSizes
                     + isd)
          = Some (to_unit tplPngSize kwUnt kwCrd (x, y, sd)))
    /\ (forall aryMdlParams',
          ModelCreationUtils.crt_mdl_prms to_unit tplPngSize varNum1
            varExtXmin varExtXmax varNum2 varExtYmin varExtYmax
            varNumPrfSizes varPrfStdMin varPrfStdMax kwUnt kwCrd
          = inr aryMdlParams' ->
          aryMdlParams' = aryMdlParams).
Proof.
  intros H1 H2 H3 Hx Hy Hs.
  unfold ModelCreationUtils.crt_mdl_prms.
  rewrite (proj2 (Z.leb_gt _ _) H1), (proj2 (Z.leb_gt _ _) H2),
    (proj2 (Z.leb_gt _ _) H3).
  rewrite (proj2 (Qle_bool_iff _ _) Hx), (proj2 (Qle_bool_iff _ _) Hy),
    (proj2 (Qle_bool_iff _ _) Hs). simpl.
  set (vecX := ModelCreationUtils.linspace varExtXmin varExtXmax
                 (Z.to_nat varNum1)).
  set (vecY := ModelCreationUtils.linspace varExtYmin varExtYmax
                 (Z.to_nat varNum2)).
  set (vecSd := ModelCreationUtils.linspace varPrfStdMin varPrfStdMax
                  (Z.to_nat varNumPrfSizes)).
  set (n2 := Z.to_nat varNum2). set (n3 := Z.to_nat varNumPrfSizes).
  assert (LX : length vecX = Z.to_nat varNum1) by apply linspace_length.
  assert (LY : length vecY = n2) by apply linspace_length.
  assert (LS : length vecSd = n3) by apply linspace_length.
  assert (Hin : forall x y, In y vecY ->
            length (map (fun sd => to_unit tplPngSize kwUnt kwCrd (x, y, sd))
                        vecSd) = n3).
  { intros x y _. rewrite length_map. exact LS. }
  assert (Hout : forall x, In x vecX ->
            length (flat_map
                      (fun y => map (fun sd =>
                                       to_unit tplPngSize kwUnt kwCrd
                                               (x, y, sd)) vecSd) vecY)
            = n2 * n3).
  { intros x _. rewrite (length_flat_map_uniform _ n3) by apply Hin.
    rewrite LY. reflexivity. }
  eexists. split; [reflexivity|]. split; [|split].
  - rewrite (length_flat_map_uniform _ (n2 * n3)) by exact Hout.
    rewrite LX. unfold n2, n3. rewrite !Z2Nat.inj_mul by lia. lia.
  - intros ix iy isd x y sd Ex Ey Esd.
    assert (Hiy : iy < n2).
    { rewrite <- LY. apply nth_error_Some. congruence. }
    assert (Hisd : isd < n3).
    { rewrite <- LS. apply nth_error_Some. congruence. }
    replace ((ix * n2 + iy) * n3 + isd)
      with (ix * (n2 * n3) + (iy * n3 + isd)) by nia.
    rewrite (nth_error_flat_map_uniform _ (n2 * n3)) by (exact Hout || nia).
    rewrite Ex.
    rewrite (nth_error_flat_map_uniform _ n3) by (apply Hin || exact Hisd).
    rewrite Ey, nth_error_map, Esd. reflexivity.
  - intros grid' E. inversion E. reflexivity.
Qed.

Lemma parameter_grid_rows_witness :
  exists aryMdlParams,
    ModelCreationUtils.crt_mdl_prms (fun _ _ _ p => p) (10, 10)%Z 2 0 1 2 0 1
      1 2 2 "pix" "crt" = inr aryMdlParams
    /\ length aryMdlParams = Z.to_nat (2 * 2 * 1).
Proof.
  destruct (parameter_grid_rows (fun _ _ _ p => p) (10, 10)%Z 2 0 1 2 0 1
              1 2 2 "pix" "crt") as (grid & E & L & _);
    try reflexivity; try discriminate.
  exists grid. split; assumption.
Defined.

(* ================================================================== *)
(** * Further properties of the reconstruction *)

Section LoopShape.
Variable aryBetas : list (list Q).
Variable aryMdlParams : list prm.
Variable aryPrfTc : list (list (list Q)).
Variable aryUnqInd : list nat.

Let body := loop_body aryBetas aryMdlParams aryPrfTc aryUnqInd.

(** The loop keeps the number of fitted rows and prints one "no voxel"
    line for every row index whose mask is empty. *)
Lemma loop_ok_shape rows : forall i s s',
  for_enumerate body i rows s = (inr tt, s') ->
  length (aryFitTc s') = length (aryFitTc s)
  /\ stdout s'
     = stdout s
       ++ flat_map (fun j => no_voxel_msg (lgc_of aryUnqInd j))
                   (seq i (length rows)).
Proof.
  induction rows as [|p0 rows IH]; intros i s s' H.
  - simpl in H. inversion H; subst. simpl. rewrite app_nil_r. auto.
  - simpl in H. unfold bind in H.
    destruct (body i p0 s) as [[e|[]] s1] eqn:EB; [discriminate|].
    pose proof (loop_body_stdout _ _ _ _ _ _ _ _ _ EB) as Eout.
    destruct (loop_body_ok _ _ _ _ _ _ _ _ EB)
      as (m & mat & _ & _ & _ & _ & _ & _ & Ef & _).
    destruct (IH _ _ _ H) as (Hl & Ho).
    split.
    + rewrite Hl, Ef. apply mask_assign_length.
    + rewrite Ho, Eout. simpl. rewrite <- app_assoc. reflexivity.
Qed.

(** A pass, and so the loop, raises nothing but IndexError and
    ValueError. *)
Lemma loop_body_raises indRow vecPrm s e s' :
  body indRow vecPrm s = (inl e, s') -> e = IndexError \/ e = ValueError.
Proof.
  unfold body, loop_body. run_monad. unfold check_mask, get_model_tc, np_dot.
  destruct (forallb negb _); simpl;
    (destruct (find_model_spec aryMdlParams vecPrm)
       as [[EF _]|(m & EF & _)]; rewrite EF; simpl;
     [ intros H; inversion H; auto |]);
    (destruct (_ =? length (vecVxlTst s)); simpl;
     [| intros H; inversion H; auto]);
    (destruct (nth_error aryPrfTc m) as [mat|]; simpl;
     [| intros H; inversion H; auto]);
    (destruct (_ =? length aryBetas); simpl;
     [| intros H; inversion H; auto]);
    (destruct (forallb _ (mask_select _ aryBetas)); simpl;
     [| intros H; inversion H; auto]);
    (destruct (_ =? length (aryFitTc s)); simpl;
     intros H; inversion H; auto).
Qed.

Lemma loop_raises rows : forall i s e s',
  for_enumerate body i rows s = (inl e, s') ->
  e = IndexError \/ e = ValueError.
Proof.
  induction rows as [|p0 rows IH]; intros i s e s' H.
  - discriminate.
  - simpl in H. unfold bind in H.
    destruct (body i p0 s) as [[e0|[]] s1] eqn:EB.
    + inversion H; subst. eapply loop_body_raises; eauto.
    + eapply IH; eauto.
Qed.
End LoopShape.

Lemma no_voxel_msg_rows (aryUnqInd : list nat) (idx : list nat) :
  flat_map (fun j => no_voxel_msg (lgc_of aryUnqInd j)) idx
  = map (fun _ => "---No voxel found"%string)
        (filter (fun j => negb (existsb (fun u => u =? j) aryUnqInd)) idx).
Proof.
  assert (E : forall j,
             forallb negb (lgc_of aryUnqInd j)
             = negb (existsb (fun u => u =? j) aryUnqInd)).
  { intros j. unfold lgc_of.
    induction aryUnqInd as [|u U IH]; simpl; [reflexivity|].
    rewrite IH. destruct (u =? j); reflexivity. }
  induction idx as [|j idx IH]; simpl; [reflexivity|].
  unfold no_voxel_msg at 1. rewrite E, IH.
  destruct (negb _); reflexivity.
Qed.

(** X1.  After a loop that ended, the fitted array has one row per voxel;
    a voxel whose inverse index is not the index of a distinct row keeps
    the all-zero row it was created with, and its counter is 0. *)
Theorem fitted_array_rows
        (fnd_unq_rws : list prm -> list prm * list nat)
        (aryBetas : list (list Q)) (aryMdlParams : list prm)
        (aryPrfTc : list (list (list Q))) (aryIntGssPrm : list prm)
        (st : rec_state) (aryUnqRows : list prm) (aryUnqInd : list nat) :
  fnd_unq_rws aryIntGssPrm = (aryUnqRows, aryUnqInd) ->
  run_loop fnd_unq_rws aryBetas aryMdlParams aryPrfTc aryIntGssPrm
  = (inr tt, st) ->
  length (aryFitTc st) = length aryIntGssPrm
  /\ forall voxel,
       voxel < length aryIntGssPrm ->
       in_range aryUnqInd voxel 0 (length aryUnqRows) = false ->
       nth_error (aryFitTc st) voxel
       = Some (repeat 0%Q (shape_last3 aryPrfTc))
       /\ nth voxel (vecVxlTst st) 0 = 0.
Proof.
  intros EU H. pose proof H as Hrun.
  unfold run_loop, reconstruct_loop in H. rewrite EU in H.
  destruct (loop_ok_shape _ _ _ _ _ _ _ _ H) as [Hlen _].
  destruct (loop_ok _ _ _ _ _ _ _ _ H) as (_ & Hc & Hu & _).
  simpl in Hlen, Hc, Hu. rewrite repeat_length in Hlen, Hc.
  split; [exact Hlen|]. intros v Hv Hr. split.
  - rewrite (Hu v Hr). apply nth_error_repeat. exact Hv.
  - rewrite (Hc v Hv), Hr, nth_repeat. reflexivity.
Qed.

Lemma fitted_array_rows_witness :
  nth_error
    (aryFitTc (snd (run_loop ex_bad_unq ex_betas ex_grid ex_tc ex_win))) 1
  = Some (repeat 0%Q (shape_last3 ex_tc))
  /\ nth 1 (vecVxlTst (snd (run_loop ex_bad_unq ex_betas ex_grid ex_tc
                                     ex_win))) 0 = 0.
Proof.
  apply (proj2 (fitted_array_rows ex_bad_unq ex_betas ex_grid ex_tc ex_win
                  (snd (run_loop ex_bad_unq ex_betas ex_grid ex_tc ex_win))
                  [(0, 0, 2)%Q] [0; 7; 0] eq_refl eq_refl)).
  - vm_compute. lia.
  - reflexivity.
Defined.

(** X2.  Once the loop has ended, the reconstruction returns exactly when
    every voxel's inverse index is the index of a distinct row, and
    raises AssertionError otherwise. *)
Theorem returns_iff_every_voxel_grouped
        (fnd_unq_rws : list prm -> list prm * list nat)
        (aryBetas : list (list Q)) (aryMdlParams : list prm)
        (aryPrfTc : list (list (list Q))) (aryIntGssPrm : list prm)
        (st : rec_state) (aryUnqRows : list prm) (aryUnqInd : list nat) :
  fnd_unq_rws aryIntGssPrm = (aryUnqRows, aryUnqInd) ->
  run_loop fnd_unq_rws aryBetas aryMdlParams aryPrfTc aryIntGssPrm
  = (inr tt, st) ->
  ((forall voxel, voxel < length aryIntGssPrm ->
      exists indRow, nth_error aryUnqInd voxel = Some indRow
                     /\ indRow < length aryUnqRows)
   <-> save_tc_to_nii fnd_unq_rws aryBetas aryMdlParams aryPrfTc aryIntGssPrm
       = (inr (aryFitTc st), st))
  /\ ((exists voxel, voxel < length aryIntGssPrm
                     /\ forall indRow, nth_error aryUnqInd voxel = Some indRow
                                       -> length aryUnqRows <= indRow)
      <-> save_tc_to_nii fnd_unq_rws aryBetas aryMdlParams aryPrfTc
                         aryIntGssPrm
          = (inl AssertionError, st)).
Proof.
  intros EU H.
  destruct (run_counters _ _ _ _ _ _ H) as [Hl Hc].
  rewrite EU in Hc. simpl in Hc.
  assert (Hone : forall v, v < length aryIntGssPrm ->
            (nth v (vecVxlTst st) 0 = 1
             <-> exists u, nth_error aryUnqInd v = Some u
                           /\ u < length aryUnqRows)).
  { intros v Hv. rewrite (Hc v Hv). unfold in_range.
    destruct (nth_error aryUnqInd v) as [u|]; simpl.
    - destruct (u <? length aryUnqRows) eqn:E.
      + apply Nat.ltb_lt in E. split; [|reflexivity].
        intros _. exists u. auto.
      + apply Nat.ltb_ge in E. split; [discriminate|].
        intros (u' & Eu & Hu). inversion Eu; subst. lia.
    - split; [discriminate|]. intros (u & Eu & _). discriminate. }
  assert (Hle : forall v, v < length (vecVxlTst st) ->
                          nth v (vecVxlTst st) 0 <= 1).
  { intros v Hv. rewrite Hc by lia. destruct (in_range _ _ _ _); lia. }
  pose proof (sum_eq_length_iff _ Hle) as Hsum. rewrite Hl in Hsum.
  rewrite (save_after_loop _ _ _ _ _ _ H), Hl.
  destruct (length aryIntGssPrm =? list_sum (vecVxlTst st)) eqn:E.
  - apply Nat.eqb_eq in E. pose proof (proj1 Hsum E) as Hall.
    split; split; try discriminate; try reflexivity.
    + intros _ v Hv. apply Hone; auto.
    + intros (v & Hv & Hout). exfalso.
      destruct (proj1 (Hone v Hv) (Hall v Hv)) as (u & Eu & Hu).
      specialize (Hout u Eu). lia.
  - apply Nat.eqb_neq in E.
    assert (Hex : exists v, v < length aryIntGssPrm
                            /\ nth v (vecVxlTst st) 0 <> 1).
    { rewrite <- Hl. apply exists_not_one. rewrite Hl.
      intros A. apply E, Hsum, A. }
    split; split; try discriminate; try reflexivity.
    + intros A. exfalso. destruct Hex as (v & Hv & Hne).
      apply Hne, Hone; auto.
    + intros _. destruct Hex as (v & Hv & Hne). exists v. split; [exact Hv|].
      intros u Eu. destruct (Nat.le_gt_cases (length aryUnqRows) u); auto.
      exfalso. apply Hne, Hone; eauto.
Qed.

Lemma returns_iff_every_voxel_grouped_witness :
  save_tc_to_nii ex_bad_unq ex_betas ex_grid ex_tc ex_win
  = (inl AssertionError,
     snd (run_loop ex_bad_unq ex_betas ex_grid ex_tc ex_win)).
Proof.
  apply (proj2 (returns_iff_every_voxel_grouped ex_bad_unq ex_betas ex_grid
                  ex_tc ex_win
                  (snd (run_loop ex_bad_unq ex_betas ex_grid ex_tc ex_win))
                  [(0, 0, 2)%Q] [0; 7; 0] eq_refl eq_refl)).
  exists 1. split; [vm_compute; lia|].
  intros indRow E. inversion E. vm_compute. lia.
Defined.

(** X3.  A loop that ended has printed one "No voxel found" line for
    every distinct row that no voxel's inverse index points at, and
    nothing else; an empty group by itself stops nothing. *)
Theorem empty_groups_only_print
        (fnd_unq_rws : list prm -> list prm * list nat)
        (aryBetas : list (list Q)) (aryMdlParams : list prm)
        (aryPrfTc : list (list (list Q))) (aryIntGssPrm : list prm)
        (st : rec_state) (aryUnqRows : list prm) (aryUnqInd : list nat) :
  fnd_unq_rws aryIntGssPrm = (aryUnqRows, aryUnqInd) ->
  run_loop fnd_unq_rws aryBetas aryMdlParams aryPrfTc aryIntGssPrm
  = (inr tt, st) ->
  stdout st
  = map (fun _ => "---No voxel found"%string)
        (rows_without_voxel (length aryUnqRows) aryUnqInd)
  /\ stdout (snd (save_tc_to_nii fnd_unq_rws aryBetas aryMdlParams aryPrfTc
                                 aryIntGssPrm))
     = stdout st.
Proof.
  intros EU H. split.
  - unfold run_loop, reconstruct_loop in H. rewrite EU in H.
    destruct (loop_ok_shape _ _ _ _ _ _ _ _ H) as [_ Ho].
    rewrite Ho. simpl. apply no_voxel_msg_rows.
  - rewrite save_stdout, H. reflexivity.
Qed.

Lemma empty_groups_only_print_witness :
  stdout (snd (run_loop (fun _ => ([(0, 0, 2); (1, 1, 2)]%Q, [0; 0; 0]))
                        ex_betas ex_grid ex_tc ex_win))
  = ["---No voxel found"%string].
Proof.
  apply (proj1 (empty_groups_only_print
                  (fun _ => ([(0, 0, 2); (1, 1, 2)]%Q, [0; 0; 0]))
                  ex_betas ex_grid ex_tc ex_win
                  (snd (run_loop
                          (fun _ => ([(0, 0, 2); (1, 1, 2)]%Q, [0; 0; 0]))
                          ex_betas ex_grid ex_tc ex_win))
                  [(0, 0, 2); (1, 1, 2)]%Q [0; 0; 0] eq_refl eq_refl)).
Defined.

(** X4.  The reconstruction raises nothing but IndexError, ValueError and
    AssertionError, and AssertionError only after the loop has ended, so
    only when every distinct row has found a grid row: a winning triple
    without a grid row is never reported as a coverage failure. *)
Theorem reconstruction_exceptions
        (fnd_unq_rws : list prm -> list prm * list nat)
        (aryBetas : list (list Q)) (aryMdlParams : list prm)
        (aryPrfTc : list (list (list Q))) (aryIntGssPrm : list prm) :
  (forall e, fst (save_tc_to_nii fnd_unq_rws aryBetas aryMdlParams aryPrfTc
                                 aryIntGssPrm) = inl e ->
             e = IndexError \/ e = ValueError \/ e = AssertionError)
  /\ (fst (save_tc_to_nii fnd_unq_rws aryBetas aryMdlParams aryPrfTc
                          aryIntGssPrm) = inl AssertionError ->
      forall vecPrm, In vecPrm (fst (fnd_unq_rws aryIntGssPrm)) ->
        exists m g, find_model aryMdlParams vecPrm = inr (PyInt m)
                    /\ nth_error aryMdlParams m = Some g
                    /\ row_isclose tol g vecPrm = true).
Proof.
  destruct (run_loop fnd_unq_rws aryBetas aryMdlParams aryPrfTc aryIntGssPrm)
    as [[e0|[]] st] eqn:Hrun.
  - rewrite (save_loop_raises _ _ _ _ _ _ _ Hrun). simpl.
    unfold run_loop, reconstruct_loop in Hrun.
    destruct (fnd_unq_rws aryIntGssPrm) as [rows U].
    apply loop_raises in Hrun. split.
    + intros e E. inversion E; subst. tauto.
    + intros E. inversion E; subst. destruct Hrun; discriminate.
  - rewrite (save_after_loop _ _ _ _ _ _ Hrun). split.
    + intros e. destruct (_ =? _); simpl; intros E; inversion E; auto.
    + intros _ vecPrm Hin.
      unfold run_loop, reconstruct_loop in Hrun.
      destruct (fnd_unq_rws aryIntGssPrm) as [rows U]. simpl in Hin.
      destruct (find_model_spec aryMdlParams vecPrm)
        as [[EF _]|(m & EF & _ & Hm & _)].
      * destruct (loop_no_model aryBetas aryMdlParams aryPrfTc U rows vecPrm
                    _ Hin EF 0 (init_state aryPrfTc (length aryIntGssPrm)))
          as (e & s' & E). rewrite E in Hrun. discriminate.
      * unfold matches in Hm.
        destruct (nth_error aryMdlParams m) as [g|] eqn:Eg; [|discriminate].
        exists m, g. auto.
Qed.

Lemma reconstruction_exceptions_witness :
  IndexError = IndexError \/ IndexError = ValueError
  \/ IndexError = AssertionError.
Proof.
  apply (proj1 (reconstruction_exceptions ModelCreationUtils.fnd_unq_rws
                  ex_betas ex_grid ex_tc [(5, 5, 5)%Q])).
  reflexivity.
Defined.

(** ** Rows that hold the same numbers *)

Lemma np_isclose_eq_ref (a b b' rtol atol : Q) :
  (b == b')%Q -> np_isclose a b rtol atol = np_isclose a b' rtol atol.
Proof.
  intros E. unfold np_isclose.
  destruct (Qle_bool (Qabs (a - b)) (atol + rtol * Qabs b)) eqn:E1;
    destruct (Qle_bool (Qabs (a - b')) (atol + rtol * Qabs b')) eqn:E2;
    try reflexivity.
  - apply Qle_bool_iff in E1. rewrite E in E1.
    apply Qle_bool_iff in E1. congruence.
  - apply Qle_bool_iff in E2. rewrite <- E in E2.
    apply Qle_bool_iff in E2. congruence.
Qed.

Lemma row_isclose_eq_ref (g r p : prm) :
  ModelCreationUtils.prm_eqb r p = true ->
  row_isclose tol g r = row_isclose tol g p.
Proof.
  destruct g as [[gx gy] gs], r as [[rx ry] rs], p as [[px py] ps].
  simpl. rewrite !andb_true_iff. intros [[Ex Ey] Es].
  apply Qeq_bool_eq in Ex, Ey, Es.
  rewrite (np_isclose_eq_ref gx rx px _ _ Ex),
    (np_isclose_eq_ref gy ry py _ _ Ey), (np_isclose_eq_ref gs rs ps _ _ Es).
  reflexivity.
Qed.

Lemma find_model_fp_eq_ref (fp_isclose : prm -> prm -> bool)
      (grid : list prm) (r p : prm) :
  respects_equal_rows fp_isclose ->
  ModelCreationUtils.prm_eqb r p = true ->
  find_model_fp fp_isclose grid r = find_model_fp fp_isclose grid p.
Proof.
  intros Hresp E. unfold find_model_fp. f_equal. f_equal.
  apply map_ext. intros g. apply Hresp, E.
Qed.

(** X5.  Grouping changes nothing, whatever numpy's closeness test is in
    floating point and whatever its product, as long as the product
    makes each of its rows from the row of weights and the matrix alone:
    when the distinct row of every voxel holds that voxel's numbers and
    the reconstruction returns, every voxel's fitted row is what the
    product makes of its own weights and the model time courses of the
    grid row that its own winning triple finds. *)
Theorem grouping_is_transparent
        (fp_isclose : prm -> prm -> bool)
        (fp_row : list Q -> list (list Q) -> list Q)
        (fnd_unq_rws : list prm -> list prm * list nat)
        (aryBetas : list (list Q)) (aryMdlParams : list prm)
        (aryPrfTc : list (list (list Q))) (aryIntGssPrm : list prm)
        (aryFit : list (list Q)) (st : rec_state) :
  respects_equal_rows fp_isclose ->
  unq_rows_ok aryIntGssPrm (fst (fnd_unq_rws aryIntGssPrm))
              (snd (fnd_unq_rws aryIntGssPrm)) ->
  save_tc_to_nii_fp fp_isclose (fun a b => map (fun w => fp_row w b) a)
                    fnd_unq_rws aryBetas aryMdlParams aryPrfTc aryIntGssPrm
  = (inr aryFit, st) ->
  forall voxel vecPrm,
    nth_error aryIntGssPrm voxel = Some vecPrm ->
    exists m aryMdlTc vecWeights,
      find_model_fp fp_isclose aryMdlParams vecPrm = inr (PyInt m)
      /\ nth_error aryPrfTc m = Some aryMdlTc
      /\ nth_error aryBetas voxel = Some vecWeights
      /\ nth_error aryFit voxel = Some (fp_row vecWeights aryMdlTc).
Proof.
  intros Hresp Hok Hsave v p Ev.
  destruct (Hok v p Ev) as (u & r & Eu & Er & Erp).
  destruct (save_fp_rows fp_isclose (fun a b => map (fun w => fp_row w b) a)
              fnd_unq_rws aryBetas aryMdlParams aryPrfTc aryIntGssPrm
              (fun a b => length_map _ a) aryFit st _ _
              (surjective_pairing (fnd_unq_rws aryIntGssPrm)) Hsave
              u r v Er Eu)
    as (m & mat & w & vecFit & EF & EM & Ew & _ & Efit & Esel & Edot).
  exists m, mat, w.
  rewrite <- (find_model_fp_eq_ref fp_isclose _ _ _ Hresp Erp).
  repeat split; auto.
  rewrite nth_error_map, Esel in Edot. simpl in Edot. congruence.
Qed.

Lemma grouping_is_transparent_witness :
  exists m aryMdlTc vecWeights,
    find_model_fp (row_isclose tol) ex_grid (1, 1, 2)%Q = inr (PyInt m)
    /\ nth_error ex_tc m = Some aryMdlTc
    /\ nth_error ex_betas 1 = Some vecWeights
    /\ nth_error
         (aryFitTc
            (snd (save_tc_to_nii_fp (row_isclose tol)
                    (fun a b =>
                       map (fun w => map np_float32 (vec_mat w b)) a)
                    ModelCreationUtils.fnd_unq_rws ex_betas ex_grid ex_tc
                    ex_win))) 1
       = Some (map np_float32 (vec_mat vecWeights aryMdlTc)).
Proof.
  apply (grouping_is_transparent (row_isclose tol)
           (fun w b => map np_float32 (vec_mat w b))
           ModelCreationUtils.fnd_unq_rws ex_betas ex_grid ex_tc ex_win
           (aryFitTc
              (snd (save_tc_to_nii_fp (row_isclose tol)
                      (fun a b =>
                         map (fun w => map np_float32 (vec_mat w b)) a)
                      ModelCreationUtils.fnd_unq_rws ex_betas ex_grid ex_tc
                      ex_win)))
           (snd (save_tc_to_nii_fp (row_isclose tol)
                   (fun a b => map (fun w => map np_float32 (vec_mat w b)) a)
                   ModelCreationUtils.fnd_unq_rws ex_betas ex_grid ex_tc
                   ex_win))).
  - intros g r p E. apply row_isclose_eq_ref, E.
  - intros v p Ev. apply UnqFacts.fnd_unq_rws_row. exact Ev.
  - vm_compute. reflexivity.
  - reflexivity.
Defined.

(** X6.  In every arithmetic whose rounding meets [rounding_ok]: on a
    grid whose rows differ pairwise, on some component, by more than
    [2.2e-4 + 2.2e-5 * abs(component of the triple)], a row that passes
    the closeness test against the triple is the only one that does, and
    it is the row the lookup takes. *)
Theorem match_is_unique_on_spaced_grid (rnd : Q -> Q) (fl_atol fl_rtol : Q)
        (aryMdlParams : list prm) (vecPrm : prm) (i : nat) (g : prm) :
  rounding_ok rnd fl_atol fl_rtol ->
  let fp_isclose := row_isclose_fl rnd fl_atol fl_rtol in
  (forall j k gj gk,
     j <> k -> nth_error aryMdlParams j = Some gj ->
     nth_error aryMdlParams k = Some gk -> rows_well_apart gj gk vecPrm) ->
  nth_error aryMdlParams i = Some g ->
  fp_isclose g vecPrm = true ->
  find_model_fp fp_isclose aryMdlParams vecPrm = inr (PyInt i)
  /\ length (filter (fun g' => fp_isclose g' vecPrm) aryMdlParams) = 1
  /\ forall k gk, k <> i -> nth_error aryMdlParams k = Some gk ->
                  fp_isclose gk vecPrm = false.
Proof.
  intros Hok fp_isclose Hsep Ei Hg.
  assert (Hother : forall k gk, k <> i -> nth_error aryMdlParams k = Some gk ->
                                fp_isclose gk vecPrm = false).
  { intros k gk Hk Ek.
    apply (rows_well_apart_not_both rnd fl_atol fl_rtol Hok g gk vecPrm);
      [|exact Hg].
    apply (Hsep i k); auto. }
  split; [|split; [|exact Hother]].
  - apply (find_model_fp_first fp_isclose aryMdlParams vecPrm i g Ei Hg).
    intros j gj Hj Ej. apply (Hother j gj); [lia | exact Ej].
  - clear Hsep.
    revert i Ei Hother. induction aryMdlParams as [|g0 grid IH]; intros i Ei Ho.
    + destruct i; discriminate.
    + destruct i as [|i]; simpl in *.
      * inversion Ei; subst g0. rewrite Hg. simpl. f_equal.
        assert (Hnone : forall gk, In gk grid -> fp_isclose gk vecPrm = false).
        { intros gk Hin. apply In_nth_error in Hin. destruct Hin as (k & Ek).
          apply (Ho (S k) gk); [lia | exact Ek]. }
        clear - Hnone. induction grid as [|h grid IH]; [reflexivity|].
        simpl. rewrite (Hnone h) by (left; reflexivity).
        apply IH. intros gk Hin. apply Hnone. right. exact Hin.
      * rewrite (Ho 0 g0) by (auto; lia).
        apply (IH i Ei). intros k gk Hk Ek.
        apply (Ho (S k) gk); [lia | exact Ek].
Qed.

Lemma match_is_unique_on_spaced_grid_witness :
  find_model_fp row_isclose_float32 ex_grid (1, 1, 2)%Q = inr (PyInt 3)
  /\ length (filter (fun g' => row_isclose_float32 g' (1, 1, 2)%Q) ex_grid)
     = 1.
Proof.
  destruct (match_is_unique_on_spaced_grid np_float32 fl32_atol fl32_rtol
              ex_grid (1, 1, 2)%Q 3 (1, 1, 2)%Q rounding_ok_float32)
    as (E & C & _).
  - intros j k gj gk Hne Ej Ek.
    destruct j as [|[|[|[|j]]]]; try (destruct j; discriminate);
      destruct k as [|[|[|[|k]]]]; try (destruct k; discriminate);
      try (elim Hne; reflexivity);
      inversion Ej; inversion Ek; subst; vm_compute; auto.
  - reflexivity.
  - vm_compute. reflexivity.
  - split; assumption.
Defined.

(* ================================================================== *)
(** * Further properties of [model_creation] *)

Lemma base_path_differs (base : string) :
  ((base ++ "_params") ++ ".npy" <> base)%string.
Proof.
  intros E. apply (f_equal String.length) in E.
  rewrite !string_length_append in E. simpl in E. lia.
Qed.

(** The grid never lands on the tensor's file, whatever the base path. *)
Lemma npy_names_differ (base : string) :
  npy_name (base ++ "_params") <> npy_name base.
Proof.
  rewrite npy_name_params. unfold npy_name.
  destruct (endswith base ".npy").
  - apply base_path_differs.
  - apply params_path_differs.
Qed.

Section CreationOutcomes.
Variable crt_mdl_prms :
  Z * Z -> Z -> Q -> Q -> Z -> Q -> Q -> Z -> Q -> Q -> string -> string ->
  exn + list prm.
Variable crt_mdl_rsp : ndarray -> Z * Z -> list prm -> Z -> exn + ndarray.
Variable crt_prf_ftr_tc :
  ndarray -> ndarray -> Z -> Q -> Z -> Z -> Z * Z -> Z -> exn + ndarray.

(** Every outcome of a loading run, by what is on disk. *)
Lemma load_models_outcome cfg s :
  let r := load_models cfg s in
  files (snd r) = files s
  /\ mc_stdout (snd r)
     = mc_stdout s ++ ["------Load pRF time course models from disk"%string]
  /\ match files s (strPathMdl cfg ++ ".npy")%string with
     | None => fst r = inl IOError
     | Some ary =>
         match shape ary with
         | [] => fst r = inl IndexError
         | varFirst :: rest =>
             fst r
             = if ((Z.of_nat varFirst
                    =? varNum1 cfg * varNum2 cfg * varNumPrfSizes cfg)
                   && (Z.of_nat (last rest varFirst) =? varNumVol cfg))%Z
               then inr ary else inl AssertionError
         end
     end.
Proof.
  unfold load_models.
  unfold bind, lift, print, modify, ret, raise, np_load. simpl.
  destruct (files s (strPathMdl cfg ++ ".npy")%string) as [ary|]; simpl;
    [|auto].
  destruct (shape ary) as [|d rest]; simpl; [auto|].
  destruct (Z.of_nat d =? _)%Z; simpl; [|auto].
  destruct (Z.of_nat (last rest d) =? _)%Z; simpl; auto.
Qed.
End CreationOutcomes.

(** X9.  A creation run that returns has changed exactly two files: the
    tensor it returns is at the path [np.save] makes of [strPathMdl], the
    parameter grid at the path it makes of [strPathMdl + "_params"], and
    these two paths differ for every base path, so the grid never
    overwrites the tensor. *)
Theorem creation_writes_two_files
        (crt_mdl_prms :
           Z * Z -> Z -> Q -> Q -> Z -> Q -> Q -> Z -> Q -> Q -> string ->
           string -> exn + list prm)
        (crt_mdl_rsp : ndarray -> Z * Z -> list prm -> Z -> exn + ndarray)
        (crt_prf_ftr_tc :
           ndarray -> ndarray -> Z -> Q -> Z -> Z -> Z * Z -> Z ->
           exn + ndarray)
        (cfg : config) (s : mc_state) (aryPrfTc : ndarray) (s1 : mc_state) :
  lgcCrteMdl cfg = true ->
  model_creation crt_mdl_prms crt_mdl_rsp crt_prf_ftr_tc cfg s
  = (inr aryPrfTc, s1) ->
  files s1 (npy_name (strPathMdl cfg)) = Some aryPrfTc
  /\ (exists aryMdlParams,
        files s1 (npy_name (strPathMdl cfg ++ "_params"))
        = Some (prms_array aryMdlParams))
  /\ npy_name (strPathMdl cfg ++ "_params") <> npy_name (strPathMdl cfg)
  /\ forall path,
       path <> npy_name (strPathMdl cfg) ->
       path <> npy_name (strPathMdl cfg ++ "_params") ->
       files s1 path = files s path.
Proof.
  intros Hl H. unfold model_creation in H. rewrite Hl in H.
  apply create_models_ok in H.
  destruct H as (A & B & T & P & R & _ & _ & _ & _ & _ & _ & Ef).
  rewrite Ef. repeat split.
  - rewrite write_file_other
      by (intros E; exact (npy_names_differ _ (eq_sym E))).
    apply write_file_same.
  - exists P. apply write_file_same.
  - apply npy_names_differ.
  - intros path H1 H2. rewrite !write_file_other by assumption. reflexivity.
Qed.

Lemma creation_writes_two_files_witness :
  files (snd (model_creation ex_crt_mdl_prms ex_crt_mdl_rsp ex_crt_prf_ftr_tc
                (ex_cfg true "bank.npy") ex_disk))
        (npy_name "bank.npy")
  = Some (mkArr [3; 2; 1] [4; 1; 5; 2; 6; 3]%Q).
Proof.
  apply (creation_writes_two_files ex_crt_mdl_prms ex_crt_mdl_rsp
           ex_crt_prf_ftr_tc (ex_cfg true "bank.npy") ex_disk).
  - reflexivity.
  - vm_compute. reflexivity.
Defined.

(** X10.  Creating and then loading: after a creation run that returned
    a tensor, under a base path without ".npy" ending, a loading run from
    the same base path returns that tensor when its leading and trailing
    dimensions agree with the loading configuration, and raises
    AssertionError when they do not; the creation run itself does not
    check them. *)
Theorem create_then_load
        (crt_mdl_prms :
           Z * Z -> Z -> Q -> Q -> Z -> Q -> Q -> Z -> Q -> Q -> string ->
           string -> exn + list prm)
        (crt_mdl_rsp : ndarray -> Z * Z -> list prm -> Z -> exn + ndarray)
        (crt_prf_ftr_tc :
           ndarray -> ndarray -> Z -> Q -> Z -> Z -> Z * Z -> Z ->
           exn + ndarray)
        (cfg cfg' : config) (s : mc_state) (aryPrfTc : ndarray)
        (s1 : mc_state) (varFirst : nat) (rest : list nat) :
  lgcCrteMdl cfg = true ->
  lgcCrteMdl cfg' = false ->
  strPathMdl cfg' = strPathMdl cfg ->
  endswith (strPathMdl cfg) ".npy" = false ->
  model_creation crt_mdl_prms crt_mdl_rsp crt_prf_ftr_tc cfg s
  = (inr aryPrfTc, s1) ->
  shape aryPrfTc = varFirst :: rest ->
  fst (model_creation crt_mdl_prms crt_mdl_rsp crt_prf_ftr_tc cfg' s1)
  = if ((Z.of_nat varFirst
         =? varNum1 cfg' * varNum2 cfg' * varNumPrfSizes cfg')
        && (Z.of_nat (last rest varFirst) =? varNumVol cfg'))%Z
    then inr aryPrfTc else inl AssertionError.
Proof.
  intros Hl Hl' Hp Hbase H Hs.
  assert (Hfile : files s1 (strPathMdl cfg' ++ ".npy")%string
                  = Some aryPrfTc).
  { rewrite Hp. unfold model_creation in H. rewrite Hl in H.
    apply create_models_ok in H.
    destruct H as (A & B & T & P & R & _ & _ & _ & _ & _ & _ & Ef).
    rewrite Ef, npy_name_params. unfold npy_name. rewrite Hbase.
    rewrite write_file_other
      by (intros E; exact (params_path_differs _ (eq_sym E))).
    apply write_file_same. }
  unfold model_creation at 1. rewrite Hl'.
  pose proof (load_models_outcome cfg' s1) as (_ & _ & Hr).
  rewrite Hfile, Hs in Hr. exact Hr.
Qed.

Lemma create_then_load_witness :
  fst (model_creation ex_crt_mdl_prms ex_crt_mdl_rsp ex_crt_prf_ftr_tc
         (ex_cfg false "bank")
         (snd (model_creation ex_crt_mdl_prms ex_crt_mdl_rsp
                 ex_crt_prf_ftr_tc (ex_cfg true "bank") ex_disk)))
  = inl AssertionError.
Proof.
  apply (create_then_load ex_crt_mdl_prms ex_crt_mdl_rsp ex_crt_prf_ftr_tc
           (ex_cfg true "bank") (ex_cfg false "bank") ex_disk
           (mkArr [3; 2; 1] [4; 1; 5; 2; 6; 3]%Q)
           (snd (model_creation ex_crt_mdl_prms ex_crt_mdl_rsp
                   ex_crt_prf_ftr_tc (ex_cfg true "bank") ex_disk))
           3 [2; 1]); reflexivity.
Defined.

(** X11.  A loading run prints one line, changes no file, and returns
    nothing but the array stored at [strPathMdl + ".npy"]: it raises
    IOError when there is no such file and IndexError when the stored
    array has no dimension at all. *)
Theorem loading_run_outcomes
        (crt_mdl_prms :
           Z * Z -> Z -> Q -> Q -> Z -> Q -> Q -> Z -> Q -> Q -> string ->
           string -> exn + list prm)
        (crt_mdl_rsp : ndarray -> Z * Z -> list prm -> Z -> exn + ndarray)
        (crt_prf_ftr_tc :
           ndarray -> ndarray -> Z -> Q -> Z -> Z -> Z * Z -> Z ->
           exn + ndarray)
        (cfg : config) (s : mc_state) :
  lgcCrteMdl cfg = false ->
  let r := model_creation crt_mdl_prms crt_mdl_rsp crt_prf_ftr_tc cfg s in
  files (snd r) = files s
  /\ mc_stdout (snd r)
     = mc_stdout s ++ ["------Load pRF time course models from disk"%string]
  /\ (files s (strPathMdl cfg ++ ".npy")%string = None ->
      fst r = inl IOError)
  /\ (forall ary, files s (strPathMdl cfg ++ ".npy")%string = Some ary ->
                  shape ary = [] -> fst r = inl IndexError)
  /\ (forall ary, fst r = inr ary ->
                  files s (strPathMdl cfg ++ ".npy")%string = Some ary).
Proof.
  intros Hl r. unfold r, model_creation. rewrite Hl.
  destruct (load_models_outcome cfg s) as (Hf & Ho & Hr).
  repeat split; auto.
  - intros E. rewrite E in Hr. exact Hr.
  - intros ary E Es. rewrite E, Es in Hr. exact Hr.
  - intros ary E.
    destruct (files s (strPathMdl cfg ++ ".npy")%string) as [a|];
      [| rewrite Hr in E; discriminate].
    destruct (shape a) as [|d rest]; [rewrite Hr in E; discriminate|].
    rewrite Hr in E. destruct (_ && _)%bool; inversion E. reflexivity.
Qed.

Lemma loading_run_outcomes_witness :
  fst (model_creation ex_crt_mdl_prms ex_crt_mdl_rsp ex_crt_prf_ftr_tc
         (ex_cfg false "nowhere") ex_disk)
  = inl IOError.
Proof.
  apply (loading_run_outcomes ex_crt_mdl_prms ex_crt_mdl_rsp
           ex_crt_prf_ftr_tc (ex_cfg false "nowhere") ex_disk eq_refl).
  reflexivity.
Defined.

(** X12.  [np.rot90] needs two axes: a spatial condition array with
    fewer makes the creation run raise ValueError right after its first
    line, before any helper is called and with nothing written; with two
    axes or more the turn itself never raises. *)
Theorem spatial_array_needs_two_axes
        (crt_mdl_prms :
           Z * Z -> Z -> Q -> Q -> Z -> Q -> Q -> Z -> Q -> Q -> string ->
           string -> exn + list prm)
        (crt_mdl_rsp : ndarray -> Z * Z -> list prm -> Z -> exn + ndarray)
        (crt_prf_ftr_tc :
           ndarray -> ndarray -> Z -> Q -> Z -> Z -> Z * Z -> Z ->
           exn + ndarray)
        (cfg : config) (s : mc_state) (arySptExpInf : ndarray) :
  lgcCrteMdl cfg = true ->
  files s (strSptExpInf cfg) = Some arySptExpInf ->
  (length (shape arySptExpInf) < 2 ->
   model_creation crt_mdl_prms crt_mdl_rsp crt_prf_ftr_tc cfg s
   = (inl ValueError,
      mkMcState (files s)
        (mc_stdout s ++ ["------Load spatial condition information"%string])))
  /\ (2 <= length (shape arySptExpInf) ->
      exists aryRot, np_rot90 arySptExpInf 3 = inr aryRot).
Proof.
  intros Hl Hf. split.
  - intros Hd. unfold model_creation. rewrite Hl. unfold create_models.
    unfold bind, lift, print, modify, ret, np_load. simpl. rewrite Hf. simpl.
    assert (E : np_rot90 arySptExpInf 3 = inl ValueError).
    { unfold np_rot90. destruct (shape arySptExpInf) as [|m [|n rest]];
        simpl in Hd; try reflexivity. lia. }
    rewrite E. reflexivity.
  - intros Hd. unfold np_rot90.
    destruct (shape arySptExpInf) as [|m [|n rest]]; simpl in Hd; try lia.
    eexists. reflexivity.
Qed.

Lemma spatial_array_needs_two_axes_witness :
  fst (model_creation ex_crt_mdl_prms ex_crt_mdl_rsp ex_crt_prf_ftr_tc
         (ex_cfg true "bank")
         (mkMcState (write_file "spt.npy" ex_tmp no_files) []))
  = inl ValueError.
Proof.
  rewrite (proj1 (spatial_array_needs_two_axes ex_crt_mdl_prms ex_crt_mdl_rsp
                    ex_crt_prf_ftr_tc (ex_cfg true "bank")
                    (mkMcState (write_file "spt.npy" ex_tmp no_files) [])
                    ex_tmp eq_refl eq_refl)).
  - reflexivity.
  - vm_compute. lia.
Defined.

(** ** Turning back *)

Lemma rot90_grid_1_cell {A} (m n : nat) (g : list (list A)) :
  length g = m -> Forall (fun r => length r = n) g ->
  length (rot90_grid 1 g) = (if m =? 0 then 0 else n)
  /\ Forall (fun r => length r = m) (rot90_grid 1 g)
  /\ forall i j, i < n -> j < m ->
       match nth_error (rot90_grid 1 g) i with
       | Some r => nth_error r j
       | None => None
       end
       = match nth_error g j with
         | Some r => nth_error r (n - 1 - i)
         | None => None
         end.
Proof.
  intros Hm Hn.
  change (rot90_grid 1 g) with (transpose (map (@rev A) g)).
  unfold transpose.
  assert (Hrev : Forall (fun r => length r = n) (map (@rev A) g)).
  { apply Forall_forall. intros r Hr. apply in_map_iff in Hr.
    destruct Hr as (r0 & <- & Hr0). rewrite length_rev.
    rewrite Forall_forall in Hn. auto. }
  assert (Hcols : ncols (map (@rev A) g) = if m =? 0 then 0 else n).
  { destruct g as [|r g]; simpl in *; subst m; [reflexivity|].
    inversion Hn; subst. apply length_rev. }
  rewrite length_map, length_seq, Hcols.
  split; [reflexivity|]. split.
  - apply Forall_forall. intros r Hr.
    apply in_map_iff in Hr. destruct Hr as (j & <- & Hj).
    apply in_seq in Hj. destruct (m =? 0) eqn:E; [lia|].
    rewrite (proj1 (column_of_nth_error n j _ Hrev ltac:(lia))).
    rewrite length_map. exact Hm.
  - intros i j Hi Hj.
    assert (E : (m =? 0) = false) by (apply Nat.eqb_neq; lia).
    rewrite E, nth_error_map, nth_error_seq.
    destruct (i <? n) eqn:Ei; [| apply Nat.ltb_ge in Ei; lia].
    simpl. rewrite (proj2 (column_of_nth_error n i _ Hrev Hi)).
    rewrite nth_error_map.
    destruct (nth_error g j) as [r|] eqn:Er; [|reflexivity]. simpl.
    assert (Hr : length r = n).
    { rewrite Forall_forall in Hn. apply Hn. eapply nth_error_In; eauto. }
    rewrite nth_error_rev, Hr.
    destruct (i <? n); [|discriminate].
    replace (n - S i) with (n - 1 - i) by lia. reflexivity.
Qed.

Lemma rot90_grid_1_cells_In {A} (g : list (list A)) r x :
  In r (rot90_grid 1 g) -> In x r -> exists r', In r' g /\ In x r'.
Proof.
  change (rot90_grid 1 g) with (transpose (map (@rev A) g)).
  unfold transpose, column_of. intros Hr Hx.
  apply in_map_iff in Hr. destruct Hr as (j & <- & _).
  apply in_flat_map in Hx. destruct Hx as (r' & Hr' & Hx).
  apply in_map_iff in Hr'. destruct Hr' as (r0 & <- & Hr0).
  exists r0. split; [exact Hr0|].
  destruct (nth_error (rev r0) j) as [y|] eqn:Ey; [|contradiction].
  destruct Hx as [<-|[]]. apply in_rev. eapply nth_error_In; eauto.
Qed.

(** [np.rot90(ary, k=1)] turns the first two axes a quarter turn to the
    left: entry [(i, j, e)] of the result is entry [(j, n - 1 - i, e)]
    of [ary]. *)
Lemma np_rot90_1_entry (ary : ndarray) (m n : nat) (rest : list nat) :
  shape ary = m :: n :: rest ->
  wf_array ary ->
  let c := fold_right Nat.mul 1 rest in
  exists rot,
    np_rot90 ary 1 = inr rot
    /\ shape rot = n :: m :: rest
    /\ wf_array rot
    /\ forall i j e, i < n -> j < m -> e < c ->
         nth_error (data rot) ((i * m + j) * c + e)
         = nth_error (data ary) ((j * n + (n - 1 - i)) * c + e).
Proof.
  intros Hs Hwf c. unfold wf_array in Hwf. rewrite Hs in Hwf. simpl in Hwf.
  fold c in Hwf. unfold np_rot90. rewrite Hs. fold c.
  set (G := to_grid m n c (data ary)).
  destruct (to_grid_cell m n c (data ary) Hwf) as (Gl & Gn & Gc & Gcell).
  fold G in Gl, Gn, Gc, Gcell.
  destruct (rot90_grid_1_cell m n G Gl Gn) as (Rl & Rm & Rcell).
  assert (Rc : Forall (Forall (fun cell => length cell = c))
                      (rot90_grid 1 G)).
  { apply Forall_forall. intros r Hr. apply Forall_forall. intros x Hx.
    destruct (rot90_grid_1_cells_In G r x Hr Hx) as (r' & Hr' & Hx').
    rewrite Forall_forall in Gc. specialize (Gc r' Hr').
    rewrite Forall_forall in Gc. apply Gc, Hx'. }
  eexists. split; [reflexivity|]. simpl. split; [reflexivity|]. split.
  - unfold wf_array. simpl. fold c. unfold of_grid.
    rewrite (length_concat_uniform (m * c)).
    + rewrite length_map, Rl. destruct (m =? 0) eqn:E; [|reflexivity].
      apply Nat.eqb_eq in E. rewrite E. lia.
    + apply Forall_forall. intros r Hr. apply in_map_iff in Hr.
      destruct Hr as (row & <- & Hrow).
      rewrite Forall_forall in Rm, Rc.
      rewrite (length_concat_uniform c) by (apply Rc, Hrow).
      rewrite (Rm row Hrow). reflexivity.
  - intros i j e Hi Hj He.
    rewrite (of_grid_cell n m c _ Rm Rc i j e Hj He).
    rewrite <- (Gcell j (n - 1 - i) e) by (assumption || lia).
    specialize (Rcell i j Hi Hj).
    destruct (nth_error (rot90_grid 1 G) i) as [r|];
      destruct (nth_error G j) as [r'|];
      first [ rewrite Rcell; reflexivity
            | rewrite <- Rcell; reflexivity
            | reflexivity ].
Qed.

Lemma nth_error_ext {A} (l l' : list A) :
  (forall k, nth_error l k = nth_error l' k) -> l = l'.
Proof.
  revert l'. induction l as [|a l IH]; intros [|b l'] H.
  - reflexivity.
  - specialize (H 0). discriminate.
  - specialize (H 0). discriminate.
  - pose proof (H 0) as H0. simpl in H0. inversion H0; subst.
    f_equal. apply IH. intros k. apply (H (S k)).
Qed.

(** Every position below [m * n * c] is [(a * n + b) * c + e] for one
    cell [(a, b)] and one entry [e] of it. *)
Lemma index_split (m n c k : nat) :
  k < m * n * c ->
  exists a b e, a < m /\ b < n /\ e < c /\ k = (a * n + b) * c + e.
Proof.
  intros Hk.
  assert (Hc : c <> 0) by (intros ->; lia).
  assert (Hn : n <> 0) by (intros ->; lia).
  exists (k / c / n), ((k / c) mod n), (k mod c).
  pose proof (Nat.div_mod_eq k c) as E1.
  pose proof (Nat.div_mod_eq (k / c) n) as E2.
  pose proof (Nat.mod_upper_bound k c Hc).
  pose proof (Nat.mod_upper_bound (k / c) n Hn).
  assert (Hq : k / c < m * n).
  { apply Nat.Div0.div_lt_upper_bound. lia. }
  assert (Ha : k / c / n < m).
  { apply Nat.Div0.div_lt_upper_bound. lia. }
  repeat split; auto; nia.
Qed.

(** X13.  The quarter turn of line 65 loses nothing: for an array with at
    least two axes, [np.rot90(..., k=1)] of the turned array is the
    loaded array again, entry for entry. *)
Theorem rotation_is_undone_by_left_turn
        (arySptExpInf : ndarray) (m n : nat) (rest : list nat) :
  shape arySptExpInf = m :: n :: rest ->
  wf_array arySptExpInf ->
  exists aryRot,
    np_rot90 arySptExpInf 3 = inr aryRot
    /\ shape aryRot = n :: m :: rest
    /\ np_rot90 aryRot 1 = inr arySptExpInf.
Proof.
  intros Hs Hwf.
  destruct (np_rot90_3_entry arySptExpInf m n rest Hs Hwf)
    as (rot & E3 & Hs3 & Hwf3 & Hent3).
  destruct (np_rot90_1_entry rot n m rest Hs3 Hwf3)
    as (back & E1 & Hs1 & Hwf1 & Hent1).
  exists rot. split; [exact E3|]. split; [exact Hs3|].
  rewrite E1. f_equal.
  set (c := fold_right Nat.mul 1 rest) in *.
  assert (Hdata : data back = data arySptExpInf).
  { apply nth_error_ext. intros k.
    unfold wf_array in Hwf, Hwf1. rewrite Hs in Hwf. rewrite Hs1 in Hwf1.
    simpl in Hwf, Hwf1. fold c in Hwf, Hwf1.
    destruct (Nat.lt_ge_cases k (m * n * c)) as [Hk|Hk].
    - destruct (index_split m n c k Hk) as (a & b & e & Ha & Hb & He & ->).
      rewrite (Hent1 a b e Ha Hb He).
      rewrite (Hent3 b (m - 1 - a) e Hb ltac:(lia) He).
      replace (m - 1 - (m - 1 - a)) with a by lia. reflexivity.
    - rewrite (proj2 (nth_error_None (data back) k)) by lia.
      rewrite (proj2 (nth_error_None (data arySptExpInf) k)) by lia.
      reflexivity. }
  destruct back as [sh dat], arySptExpInf as [sh' dat']. simpl in *.
  congruence.
Qed.

Lemma rotation_is_undone_by_left_turn_witness :
  exists aryRot,
    np_rot90 ex_spt 3 = inr aryRot
    /\ shape aryRot = [3; 2; 1]
    /\ np_rot90 aryRot 1 = inr ex_spt.
Proof.
  apply (rotation_is_undone_by_left_turn ex_spt 2 3 [1]); reflexivity.
Defined.

(* ================================================================== *)
(** * Properties of the whole [save_tc_to_nii] *)

(** Closes [(exists inp, inl e = inr inp) -> _]. *)
Ltac not_loaded :=
  let x := fresh in let E := fresh in intros [x E]; discriminate.

Section SaveTcFacts.
Variable nii_hdr : Type.
Variable nii_aff : Type.
Variable isfile : string -> bool.
Variable npy_files : fsys.
Variable load_res_prm : list string -> list string -> exn + list (list Q).
Variable prep_func :
  string -> list string ->
  exn + (list bool * list bool * nii_hdr * nii_aff * list (list Q)
         * list nat).
Variable crt_mdl_prms :
  Z * Z -> Z -> Q -> Q -> Z -> Q -> Q -> Z -> Q -> Q -> string -> string ->
  exn + list prm.
Variable prep_models : ndarray -> Q -> exn + list (list (list Q)).
Variable fnd_unq_rws : list prm -> list prm * list nat.
Variable export_nii : export_call nii_hdr nii_aff -> exn + unit.

Let load :=
  load_inputs nii_hdr nii_aff isfile npy_files load_res_prm prep_func
              crt_mdl_prms prep_models.

(** Loading prints nothing and exports nothing; it gets past the
    assertions only when the three files exist. *)
Lemma load_inputs_state cfg s r s' :
  load cfg s = (r, s') ->
  s' = s
  /\ ((exists inp, r = inr inp) ->
      Forall (fun f => isfile f = true) (lstWnrPrm cfg)).
Proof.
  unfold load, load_inputs, py_assert, lstWnrPrm.
  unfold bind, lift, ret, raise. simpl.
  destruct (isfile (strPathOut cfg ++ "_x_pos.nii.gz")) eqn:E1; simpl;
    [| intros H; inversion H; split; [reflexivity | not_loaded]].
  destruct (isfile (strPathOut cfg ++ "_y_pos.nii.gz")) eqn:E2; simpl;
    [| intros H; inversion H; split; [reflexivity | not_loaded]].
  destruct (isfile (strPathOut cfg ++ "_SD.nii.gz")) eqn:E3; simpl;
    [| intros H; inversion H; split; [reflexivity | not_loaded]].
  assert (HF : Forall (fun f => isfile f = true)
                 [(strPathOut cfg ++ "_x_pos.nii.gz")%string;
                  (strPathOut cfg ++ "_y_pos.nii.gz")%string;
                  (strPathOut cfg ++ "_SD.nii.gz")%string])
    by (repeat constructor; assumption).
  destruct (load_res_prm _ _) as [e|prms]; simpl;
    [intros H; inversion H; auto|].
  destruct (load_res_prm _ _) as [e|betas]; simpl;
    [intros H; inversion H; auto|].
  destruct (prep_func _ _) as [e|[[[[[msk var] hdr] aff] func] shp]]; simpl;
    [intros H; inversion H; auto|].
  destruct (index_mask var prms) as [e|prms']; simpl;
    [intros H; inversion H; auto|].
  destruct (index_mask var betas) as [e|betas']; simpl;
    [intros H; inversion H; auto|].
  destruct (crt_mdl_prms _ _ _ _ _ _ _ _ _ _ _ _) as [e|grid]; simpl;
    [intros H; inversion H; auto|].
  destruct (npy_files _) as [ary|]; simpl;
    [| intros H; inversion H; auto].
  destruct (prep_models _ _) as [e|tc]; simpl;
    intros H; inversion H; auto.
Qed.

Lemma load_inputs_missing cfg s :
  (exists f, In f (lstWnrPrm cfg) /\ isfile f = false) ->
  load cfg s = (inl AssertionError, s).
Proof.
  intros (f & Hin & Hf).
  unfold load, load_inputs, py_assert, lstWnrPrm in *.
  unfold bind, lift, ret, raise. simpl in *.
  destruct (isfile (strPathOut cfg ++ "_x_pos.nii.gz")) eqn:E1; simpl;
    [|reflexivity].
  destruct (isfile (strPathOut cfg ++ "_y_pos.nii.gz")) eqn:E2; simpl;
    [|reflexivity].
  destruct (isfile (strPathOut cfg ++ "_SD.nii.gz")) eqn:E3; simpl;
    [|reflexivity].
  destruct Hin as [<-|[<-|[<-|[]]]]; congruence.
Qed.

(** What loading that got through has handed over: the rows that the
    inclusion mask [aryLgcVar] keeps, of the winning parameters and of
    the weights. *)
Lemma load_inputs_ok cfg s inp s' :
  load cfg s = (inr inp, s') ->
  exists aryIntGssPrm aryBetas,
    load_res_prm (lstWnrPrm cfg) [strPathNiiMask cfg] = inr aryIntGssPrm
    /\ load_res_prm (lstPathBeta cfg) [strPathNiiMask cfg] = inr aryBetas
    /\ index_mask (inLgcVar _ _ inp) aryIntGssPrm
       = inr (inIntGssPrm _ _ inp)
    /\ index_mask (inLgcVar _ _ inp) aryBetas = inr (inBetas _ _ inp).
Proof.
  unfold load, load_inputs, py_assert.
  unfold bind, lift, ret, raise. simpl.
  destruct (isfile _); simpl; [|discriminate].
  destruct (isfile _); simpl; [|discriminate].
  destruct (isfile _); simpl; [|discriminate].
  destruct (load_res_prm (lstWnrPrm cfg) _) as [e|prms]; simpl;
    [discriminate|].
  destruct (load_res_prm (lstPathBeta cfg) _) as [e|betas]; simpl;
    [discriminate|].
  destruct (prep_func _ _) as [e|[[[[[msk var] hdr] aff] func] shp]]; simpl;
    [discriminate|].
  destruct (index_mask var prms) as [e|prms'] eqn:E1; simpl;
    [discriminate|].
  destruct (index_mask var betas) as [e|betas'] eqn:E2; simpl;
    [discriminate|].
  destruct (crt_mdl_prms _ _ _ _ _ _ _ _ _ _ _ _) as [e|grid]; simpl;
    [discriminate|].
  destruct (npy_files _) as [ary|]; simpl; [|discriminate].
  destruct (prep_models _ _) as [e|tc]; simpl; [discriminate|].
  intros H. inversion H; subst. simpl.
  exists prms, betas. auto.
Qed.
End SaveTcFacts.

Section SaveTcClaims.
Variable nii_hdr : Type.
Variable nii_aff : Type.
Variable isfile : string -> bool.
Variable npy_files : fsys.
Variable load_res_prm : list string -> list string -> exn + list (list Q).
Variable prep_func :
  string -> list string ->
  exn + (list bool * list bool * nii_hdr * nii_aff * list (list Q)
         * list nat).
Variable crt_mdl_prms :
  Z * Z -> Z -> Q -> Q -> Z -> Q -> Q -> Z -> Q -> Q -> string -> string ->
  exn + list prm.
Variable prep_models : ndarray -> Q -> exn + list (list (list Q)).
Variable fnd_unq_rws : list prm -> list prm * list nat.
Variable export_nii : export_call nii_hdr nii_aff -> exn + unit.

Let load :=
  load_inputs nii_hdr nii_aff isfile npy_files load_res_prm prep_func
              crt_mdl_prms prep_models.
Let save :=
  save_tc_to_nii_io nii_hdr nii_aff isfile npy_files load_res_prm prep_func
                    crt_mdl_prms prep_models fnd_unq_rws export_nii.

(** X14.  When one of the three files of winning parameters does not
    exist, [save_tc_to_nii] raises AssertionError at once: nothing is
    loaded, printed or exported. *)
Theorem missing_result_file_stops_first (cfg : tc_config)
        (s : io_state (export_call nii_hdr nii_aff)) (f : string) :
  In f (lstWnrPrm cfg) ->
  isfile f = false ->
  save cfg s = (inl AssertionError, s).
Proof.
  intros Hin Hf. unfold save, save_tc_to_nii_io. unfold bind at 1.
  rewrite (load_inputs_missing _ _ _ _ _ _ _ _ cfg s)
    by (exists f; auto).
  reflexivity.
Qed.

(** The outcome of the whole function, step by step. *)
Lemma save_io_value (cfg : tc_config)
      (s : io_state (export_call nii_hdr nii_aff)) :
  save cfg s
  = match load cfg s with
    | (inl e, s0) => (inl e, s0)
    | (inr inp, s0) =>
        match save_tc_to_nii fnd_unq_rws (inBetas _ _ inp)
                (inMdlParams _ _ inp) (inPrfTc _ _ inp)
                (map prm_of_row (inIntGssPrm _ _ inp)) with
        | (inl e, st) =>
            (inl e, mkIoState (io_stdout s0 ++ stdout st) (io_exports s0))
        | (inr aryFit, st) =>
            let out := io_stdout s0 ++ stdout st in
            let c1 := call_EmpTc _ _ cfg inp in
            let c2 := call_FitTc _ _ cfg inp aryFit in
            match export_nii c1 with
            | inl e => (inl e, mkIoState out (io_exports s0 ++ [c1]))
            | inr _ =>
                match export_nii c2 with
                | inl e => (inl e, mkIoState out (io_exports s0 ++ [c1; c2]))
                | inr _ => (inr tt, mkIoState out (io_exports s0 ++ [c1; c2]))
                end
            end
        end
    end.
Proof.
  unfold save, save_tc_to_nii_io. unfold bind at 1. fold load.
  destruct (load cfg s) as [[e|inp] s0]; [reflexivity|].
  unfold bind at 1. unfold reconstruct.
  destruct (save_tc_to_nii _ _ _ _ _) as [[e|fit] st]; [reflexivity|].
  unfold call_export_nii, bind, modify, lift. simpl.
  destruct (export_nii (call_EmpTc _ _ cfg inp)) as [e|[]]; [reflexivity|].
  rewrite <- app_assoc. simpl.
  destruct (export_nii (call_FitTc _ _ cfg inp fit)) as [e|[]]; reflexivity.
Qed.

(** X15.  [export_nii] is called only after the reconstruction has
    returned: every call the function adds is the export of the observed
    time courses under the name [strPathOut + "_EmpTc.nii.gz"] or of the
    fitted time courses the reconstruction returned under
    [strPathOut + "_FitTc.nii.gz"]; and a run that returns has made
    exactly these two calls, in this order, and printed what the
    reconstruction printed. *)
Theorem export_only_after_reconstruction (cfg : tc_config)
        (s : io_state (export_call nii_hdr nii_aff)) :
  (io_exports (snd (save cfg s)) = io_exports s
   \/ exists inp aryFit st,
        load cfg s = (inr inp, s)
        /\ save_tc_to_nii fnd_unq_rws (inBetas _ _ inp) (inMdlParams _ _ inp)
                          (inPrfTc _ _ inp)
                          (map prm_of_row (inIntGssPrm _ _ inp))
           = (inr aryFit, st)
        /\ io_stdout (snd (save cfg s)) = io_stdout s ++ stdout st
        /\ (io_exports (snd (save cfg s))
            = io_exports s ++ [call_EmpTc _ _ cfg inp]
            \/ io_exports (snd (save cfg s))
               = io_exports s ++ [call_EmpTc _ _ cfg inp;
                                  call_FitTc _ _ cfg inp aryFit]))
  /\ (fst (save cfg s) = inr tt ->
      exists inp aryFit,
        io_exports (snd (save cfg s))
        = io_exports s ++ [call_EmpTc _ _ cfg inp;
                           call_FitTc _ _ cfg inp aryFit]).
Proof.
  destruct (load cfg s) as [r0 s0] eqn:EL.
  destruct (load_inputs_state _ _ _ _ _ _ _ _ _ _ _ _ EL) as [-> _].
  rewrite (save_io_value cfg s), EL.
  destruct r0 as [e|inp].
  { simpl. split; [left; reflexivity | discriminate]. }
  destruct (save_tc_to_nii fnd_unq_rws (inBetas _ _ inp) (inMdlParams _ _ inp)
              (inPrfTc _ _ inp) (map prm_of_row (inIntGssPrm _ _ inp)))
    as [[e|fit] st] eqn:ES.
  { simpl. split; [left; reflexivity | discriminate]. }
  cbv zeta.
  destruct (export_nii (call_EmpTc _ _ cfg inp)) as [e|[]]; simpl.
  { split; [|discriminate]. right. exists inp, fit, st. auto. }
  destruct (export_nii (call_FitTc _ _ cfg inp fit)) as [e|[]]; simpl.
  - split; [|discriminate]. right. exists inp, fit, st. auto.
  - split; [|intros _; exists inp, fit; reflexivity].
    right. exists inp, fit, st. auto.
Qed.


(** X18.  In a run that returns, the fitted array handed to [export_nii]
    has exactly one row for every voxel that the inclusion mask
    [aryLgcVar], handed over with it, keeps. *)
Theorem exported_fit_matches_mask (cfg : tc_config)
        (s : io_state (export_call nii_hdr nii_aff)) :
  fst (save cfg s) = inr tt ->
  exists calls aryFit aryLgcMsk aryLgcVar tplNiiShp aryAff hdrMsk,
    io_exports (snd (save cfg s))
    = calls ++ [(aryFit, [(strPathOut cfg ++ "_FitTc.nii.gz")%string],
                 aryLgcMsk, aryLgcVar, tplNiiShp, aryAff, hdrMsk,
                 "4D"%string)]
    /\ length aryFit = length (filter (fun b => b) aryLgcVar).
Proof.
  rewrite (save_io_value cfg s).
  destruct (load cfg s) as [[e|inp] s0] eqn:EL; [discriminate|].
  destruct (load_inputs_ok _ _ _ _ _ _ _ _ _ _ _ _ EL)
    as (prms & betas & _ & _ & E1 & _).
  destruct (save_tc_to_nii fnd_unq_rws (inBetas _ _ inp) (inMdlParams _ _ inp)
              (inPrfTc _ _ inp) (map prm_of_row (inIntGssPrm _ _ inp)))
    as [[e|fit] st] eqn:ES; [discriminate|].
  cbv zeta.
  destruct (export_nii (call_EmpTc _ _ cfg inp)) as [e|[]]; [discriminate|].
  destruct (export_nii (call_FitTc _ _ cfg inp fit)) as [e|[]];
    [discriminate|].
  intros _. simpl snd. simpl io_exports.
  exists (io_exports s0 ++ [call_EmpTc _ _ cfg inp]), fit, (inLgcMsk _ _ inp),
    (inLgcVar _ _ inp), (inNiiShp _ _ inp), (inAff _ _ inp), (inHdr _ _ inp).
  split.
  - rewrite <- app_assoc. reflexivity.
  - destruct (run_loop fnd_unq_rws (inBetas _ _ inp) (inMdlParams _ _ inp)
                (inPrfTc _ _ inp) (map prm_of_row (inIntGssPrm _ _ inp)))
      as [[e|[]] st0] eqn:Hrun.
    + rewrite (save_loop_raises _ _ _ _ _ _ _ Hrun) in ES. discriminate.
    + rewrite (save_after_loop _ _ _ _ _ _ Hrun) in ES.
      assert (fit = aryFitTc st0)
        by (destruct (_ =? _); inversion ES; reflexivity).
      subst fit.
      pose proof Hrun as Hrun'.
      unfold run_loop, reconstruct_loop in Hrun.
      destruct (fnd_unq_rws _) as [rows U].
      apply loop_ok_shape in Hrun. destruct Hrun as [Hlen _].
      rewrite Hlen. simpl. rewrite repeat_length, length_map.
      unfold index_mask in E1.
      destruct (length (inLgcVar _ _ inp) =? length prms) eqn:El;
        [|discriminate].
      inversion E1. apply mask_select_length. apply Nat.eqb_eq. exact El.
Qed.
End SaveTcClaims.

Lemma missing_result_file_stops_first_witness :
  save_tc_to_nii_io unit unit
    (fun f => negb (String.eqb f "out_SD.nii.gz")) (files ex_disk)
    ex_load_res_prm ex_prep_func ex_crt_grid ex_prep_models
    ModelCreationUtils.fnd_unq_rws ex_export_nii ex_tc_cfg
    (mkIoState [] [])
  = (inl AssertionError, mkIoState [] []).
Proof.
  apply (missing_result_file_stops_first unit unit
           (fun f => negb (String.eqb f "out_SD.nii.gz")) (files ex_disk)
           ex_load_res_prm ex_prep_func ex_crt_grid ex_prep_models
           ModelCreationUtils.fnd_unq_rws ex_export_nii ex_tc_cfg
           (mkIoState [] []) "out_SD.nii.gz"%string).
  - right. right. left. reflexivity.
  - reflexivity.
Defined.

Lemma export_only_after_reconstruction_witness :
  exists inp aryFit,
    io_exports
      (snd (save_tc_to_nii_io unit unit (fun _ => true) (files ex_disk)
              ex_load_res_prm ex_prep_func ex_crt_grid ex_prep_models
              ModelCreationUtils.fnd_unq_rws ex_export_nii ex_tc_cfg
              (mkIoState [] [])))
    = [] ++ [call_EmpTc unit unit ex_tc_cfg inp;
             call_FitTc unit unit ex_tc_cfg inp aryFit].
Proof.
  apply (proj2 (export_only_after_reconstruction unit unit (fun _ => true)
                  (files ex_disk) ex_load_res_prm ex_prep_func ex_crt_grid
                  ex_prep_models ModelCreationUtils.fnd_unq_rws ex_export_nii
                  ex_tc_cfg (mkIoState [] []))).
  vm_compute. reflexivity.
Defined.

(** X16.  The names the function reads and the names it hands to
    [export_nii] are six different paths, whatever [strPathOut] is: the
    exports overwrite neither the fitting results nor one another. *)
Theorem output_names_are_new (cfg : tc_config) :
  NoDup (lstWnrPrm cfg ++ lstPathBeta cfg
         ++ lstNiiNames cfg ["_EmpTc"%string]
         ++ lstNiiNames cfg ["_FitTc"%string]).
Proof.
  unfold lstWnrPrm, lstPathBeta, lstNiiNames. simpl.
  repeat constructor; simpl; intros H;
    repeat (destruct H as [H|H];
            [apply append_inj_l in H; discriminate|]);
    exact H.
Qed.

(* ================================================================== *)
(** * Properties of the entry point *)

Lemma str_repeat_length (c : ascii) (n : nat) :
  String.length (str_repeat c n) = n.
Proof. induction n as [|n IH]; simpl; auto. Qed.

(** X17.  [main] first prints a banner of three lines whose two rules are
    as long as the welcome line, and its own [print] calls write nothing
    after it: since all four options are required, no attribute of the
    parsed namespace is [None] and the two lines of help are never
    printed.  When the command line
    gives all four options, the last two as integers, [main] calls
    [pyprf_opt_brute] once, with the configuration path, the namespace
    and [lgcTest] false; when an option is missing or one of the last two
    is no integer, the parser leaves with [SystemExit] and nothing is
    called. *)
Theorem main_dispatch (version : string)
        (py_int_of_string : string -> option Z)
        (pyprf_opt_brute : option string -> namespace -> bool -> exn + unit)
        (argv : cmdline) (s : ep_state) :
  let r := main version py_int_of_string pyprf_opt_brute argv s in
  let strWelcome := ("pyprf_opt_brute " ++ version)%string in
  let strDec := str_repeat "="%char (String.length strWelcome) in
  String.length strDec = String.length strWelcome
  /\ ep_stdout (snd r)
     = ep_stdout s
       ++ [(strDec ++ strNl ++ strWelcome ++ strNl ++ strDec)%string]
  /\ (forall objNspc,
        get_arg_parse py_int_of_string argv = inr objNspc ->
        opt_is_None (ns_config objNspc) = false
        /\ opt_is_None (ns_strPthPrior objNspc) = false
        /\ opt_is_None (ns_varNumOpt1 objNspc) = false
        /\ opt_is_None (ns_varNumOpt2 objNspc) = false)
  /\ (forall strCfg strPrior strOpt1 strOpt2 varOpt1 varOpt2,
        cmd_wellformed argv = true ->
        cmd_config argv = Some strCfg ->
        cmd_strPthPrior argv = Some strPrior ->
        cmd_varNumOpt1 argv = Some strOpt1 ->
        cmd_varNumOpt2 argv = Some strOpt2 ->
        py_int_of_string strOpt1 = Some varOpt1 ->
        py_int_of_string strOpt2 = Some varOpt2 ->
        let objNspc := mkNamespace (Some strCfg) (Some strPrior)
                                   (Some varOpt1) (Some varOpt2) in
        ep_calls (snd r) = ep_calls s ++ [(Some strCfg, objNspc, false)]
        /\ fst r = pyprf_opt_brute (Some strCfg) objNspc false)
  /\ (cmd_wellformed argv = false
      \/ cmd_config argv = None \/ cmd_strPthPrior argv = None
      \/ cmd_varNumOpt1 argv = None \/ cmd_varNumOpt2 argv = None
      \/ (exists strOpt1, cmd_varNumOpt1 argv = Some strOpt1
                          /\ py_int_of_string strOpt1 = None)
      \/ (exists strOpt2, cmd_varNumOpt2 argv = Some strOpt2
                          /\ py_int_of_string strOpt2 = None) ->
      fst r = inl SystemExit /\ ep_calls (snd r) = ep_calls s).
Proof.
  intros r strWelcome strDec. split; [apply str_repeat_length|].
  assert (Hns : forall objNspc,
            get_arg_parse py_int_of_string argv = inr objNspc ->
            exists c p n1 n2,
              objNspc = mkNamespace (Some c) (Some p) (Some n1) (Some n2)).
  { intros ns. unfold get_arg_parse.
    destruct (cmd_wellformed argv); simpl; [|discriminate].
    destruct (cmd_config argv) as [c|]; [|discriminate].
    destruct (cmd_strPthPrior argv) as [p|]; [|discriminate].
    destruct (cmd_varNumOpt1 argv) as [s1|]; [|discriminate].
    destruct (cmd_varNumOpt2 argv) as [s2|]; [|discriminate].
    destruct (py_int_of_string s1) as [n1|]; [|discriminate].
    destruct (py_int_of_string s2) as [n2|]; [|discriminate].
    intros H. inversion H. exists c, p, n1, n2. reflexivity. }
  split; [|split; [|split]].
  - unfold r, main. unfold bind, print, modify, lift. simpl.
    destruct (get_arg_parse py_int_of_string argv) as [e|ns] eqn:E; simpl;
      [reflexivity|].
    destruct (Hns ns eq_refl) as (c & p & n1 & n2 & ->). reflexivity.
  - intros ns E. destruct (Hns ns E) as (c & p & n1 & n2 & ->).
    simpl. auto.
  - intros c p s1 s2 n1 n2 Hw Ec Ep E1 E2 I1 I2 ns.
    unfold r, main. unfold bind, print, modify, lift, get_arg_parse. simpl.
    rewrite Hw, Ec, Ep, E1, E2, I1, I2. simpl. fold ns.
    destruct (pyprf_opt_brute (Some c) ns false); simpl; auto.
  - intros H.
    assert (E : get_arg_parse py_int_of_string argv = inl SystemExit).
    { unfold get_arg_parse.
      destruct (cmd_wellformed argv); simpl; [|reflexivity].
      destruct (cmd_config argv) as [c|]; [|reflexivity].
      destruct (cmd_strPthPrior argv) as [p|]; [|reflexivity].
      destruct (cmd_varNumOpt1 argv) as [s1|]; [|reflexivity].
      destruct (cmd_varNumOpt2 argv) as [s2|]; [|reflexivity].
      destruct H as [H|[H|[H|[H|[H|[(so & Es & Hs)|(so & Es & Hs)]]]]]];
        try discriminate.
      - inversion Es; subst so. rewrite Hs. reflexivity.
      - inversion Es; subst so. rewrite Hs.
        destruct (py_int_of_string s1); reflexivity. }
    unfold r, main. unfold bind, print, modify, lift. simpl.
    rewrite E. simpl. auto.
Qed.

Lemma main_dispatch_witness :
  (ep_calls (snd (main "1.0" ex_int_of_string (fun _ _ _ => inr tt)
                       ex_cmdline (mkEpState [] [])))
   = [] ++ [(Some "cfg.csv"%string,
             mkNamespace (Some "cfg.csv"%string) (Some "prior"%string)
                         (Some 4%Z) (Some 8%Z), false)]
   /\ fst (main "1.0" ex_int_of_string (fun _ _ _ => inr tt) ex_cmdline
                (mkEpState [] []))
      = inr tt)
  /\ (fst (main "1.0" ex_int_of_string (fun _ _ _ => inr tt)
                (mkCmdline true (Some "cfg.csv"%string) None
                           (Some "4"%string) (Some "8"%string))
                (mkEpState [] []))
      = inl SystemExit
      /\ ep_calls (snd (main "1.0" ex_int_of_string (fun _ _ _ => inr tt)
                             (mkCmdline true (Some "cfg.csv"%string) None
                                        (Some "4"%string) (Some "8"%string))
                             (mkEpState [] [])))
         = []).
Proof.
  split.
  - apply (proj1 (proj2 (proj2 (proj2
             (main_dispatch "1.0" ex_int_of_string (fun _ _ _ => inr tt)
                            ex_cmdline (mkEpState [] [])))))
             "cfg.csv"%string "prior"%string "4"%string "8"%string 4%Z 8%Z);
      reflexivity.
  - apply (proj2 (proj2 (proj2 (proj2
             (main_dispatch "1.0" ex_int_of_string (fun _ _ _ => inr tt)
                (mkCmdline true (Some "cfg.csv"%string) None
                           (Some "4"%string) (Some "8"%string))
                (mkEpState [] [])))))).
    right. right. left. reflexivity.
Defined.

Lemma exported_fit_matches_mask_witness :
  exists calls aryFit aryLgcMsk aryLgcVar tplNiiShp aryAff hdrMsk,
    io_exports
      (snd (save_tc_to_nii_io unit unit (fun _ => true) (files ex_disk)
              ex_load_res_prm ex_prep_func ex_crt_grid ex_prep_models
              ModelCreationUtils.fnd_unq_rws ex_export_nii ex_tc_cfg
              (mkIoState [] [])))
    = calls ++ [(aryFit, [(strPathOut ex_tc_cfg ++ "_FitTc.nii.gz")%string],
                 aryLgcMsk, aryLgcVar, tplNiiShp, aryAff, hdrMsk,
                 "4D"%string)]
    /\ length aryFit = length (filter (fun b => b) aryLgcVar).
Proof.
  apply (exported_fit_matches_mask unit unit (fun _ => true) (files ex_disk)
           ex_load_res_prm ex_prep_func ex_crt_grid ex_prep_models
           ModelCreationUtils.fnd_unq_rws ex_export_nii ex_tc_cfg
           (mkIoState [] [])).
  vm_compute. reflexivity.
Defined.
